(** * Canvas.js: the raster renderer of a grid-based model

    A shallow embedding of [src/Canvas.js] (class [Canvas]) together with the
    properties of its drawing methods.

    Modelling conventions.
    - A JavaScript number is a real number or one of [Infinity], [-Infinity],
      [NaN] (type [num]).  Arithmetic is exact: the rounding of IEEE doubles
      is not modelled, and neither is the sign of zero (a zero divisor is the
      literal [0] of the source, that is [+0]).
    - [this.px] is a [Uint8ClampedArray]: a fixed-length array of bytes.  A
      store converts the number with [ToUint8Clamp]; a store at an index
      outside of the array does nothing.
    - Grid coordinates, the zoom factor and buffer indices are integers.
    - The 2D drawing context, the grid, the model and the constraint objects
      are collaborators whose code is not part of [Canvas.js]; they are
      interfaces here. *)

From Stdlib Require Import ZArith List String Ascii Bool Reals Lra Lia.
From Stdlib Require Import FunctionalExtensionality.
From stdpp Require Import base list.

Local Open Scope Z_scope.

(** ** JavaScript numbers *)

Module JS.

Inductive num : Type :=
| Fin (r : R)
| PInf
| NInf
| NaN.

Definition of_Z (z : Z) : num := Fin (IZR z).

(** Sign of a real, as a three-way comparison with [0]. *)
Definition sgn (r : R) : comparison :=
  match total_order_T r 0 with
  | inleft (left _) => Lt
  | inleft (right _) => Eq
  | inright _ => Gt
  end.

Definition neg (a : num) : num :=
  match a with
  | Fin r => Fin (- r)
  | PInf => NInf
  | NInf => PInf
  | NaN => NaN
  end.

Definition add (a b : num) : num :=
  match a, b with
  | NaN, _ | _, NaN => NaN
  | Fin x, Fin y => Fin (x + y)
  | PInf, NInf | NInf, PInf => NaN
  | PInf, _ | _, PInf => PInf
  | NInf, _ | _, NInf => NInf
  end.

Definition sub (a b : num) : num := add a (neg b).

(** An infinity with the sign [c]; [Eq] stands for the undefined
    [0 * Infinity]. *)
Definition signed_inf (c : comparison) : num :=
  match c with
  | Lt => NInf
  | Eq => NaN
  | Gt => PInf
  end.

Definition mul (a b : num) : num :=
  match a, b with
  | NaN, _ | _, NaN => NaN
  | Fin x, Fin y => Fin (x * y)
  | Fin x, PInf | PInf, Fin x => signed_inf (sgn x)
  | Fin x, NInf | NInf, Fin x => signed_inf (CompOpp (sgn x))
  | PInf, PInf | NInf, NInf => PInf
  | PInf, NInf | NInf, PInf => NInf
  end.

Definition div (a b : num) : num :=
  match a, b with
  | NaN, _ | _, NaN => NaN
  | Fin x, Fin y =>
      match sgn y with
      | Eq => signed_inf (sgn x)
      | _ => Fin (x / y)
      end
  | Fin _, (PInf | NInf) => Fin 0
  | PInf, Fin y => match sgn y with Lt => NInf | _ => PInf end
  | NInf, Fin y => match sgn y with Lt => PInf | _ => NInf end
  | (PInf | NInf), (PInf | NInf) => NaN
  end.

Definition abs (a : num) : num :=
  match a with
  | Fin r => Fin (Rabs r)
  | PInf | NInf => PInf
  | NaN => NaN
  end.

(** [Math.log]. *)
Definition log (a : num) : num :=
  match a with
  | Fin r =>
      match sgn r with
      | Gt => Fin (ln r)
      | Eq => NInf
      | Lt => NaN
      end
  | PInf => PInf
  | NInf | NaN => NaN
  end.

(** [a < b]; every comparison with [NaN] is false. *)
Definition ltb (a b : num) : bool :=
  match a, b with
  | NaN, _ | _, NaN => false
  | Fin x, Fin y => if Rlt_dec x y then true else false
  | NInf, (Fin _ | PInf) => true
  | Fin _, PInf => true
  | _, _ => false
  end.

Definition gtb (a b : num) : bool := ltb b a.

(** [a >= b]. *)
Definition geb (a b : num) : bool :=
  match a, b with
  | NaN, _ | _, NaN => false
  | Fin x, Fin y => if Rle_dec y x then true else false
  | PInf, _ => true
  | _, NInf => true
  | _, _ => false
  end.

(** Round to the nearest integer, ties to the even one. *)
Definition round_half_even (r : R) : Z :=
  let f := Int_part r in
  let d := (r - IZR f)%R in
  if Rlt_dec d (1 / 2) then f
  else if Rlt_dec (1 / 2) d then f + 1
  else if Z.even f then f else f + 1.

(** The conversion a [Uint8ClampedArray] applies to a stored number. *)
Definition ToUint8Clamp (a : num) : Z :=
  match a with
  | NaN => 0
  | NInf => 0
  | PInf => 255
  | Fin r =>
      if Rle_dec r 0 then 0
      else if Rle_dec 255 r then 255
      else round_half_even r
  end.

(** A thrown value or a normal completion. *)
Inductive completion (T : Type) : Type :=
| Normal (v : T)
| Throw (message : string).

Arguments Normal {T} v.
Arguments Throw {T} message.

(** The values the loop variable of
    [for( i = start ; i < bound ; i += step )] takes.  With [step >= 1] the
    loop runs at most [bound - start] times, which is the fuel given. *)
Fixpoint range_from (fuel : nat) (i bound step : Z) : list Z :=
  match fuel with
  | O => []
  | S fuel' =>
      if i <? bound then i :: range_from fuel' (i + step) bound step else []
  end.

Definition for_range (start bound step : Z) : list Z :=
  range_from (Z.to_nat (bound - start)) start bound step.

(** *** [parseInt( s, 16 )] *)

Definition hex_digit (c : ascii) : option Z :=
  let n := Z.of_nat (nat_of_ascii c) in
  if (48 <=? n) && (n <=? 57) then Some (n - 48)
  else if (65 <=? n) && (n <=? 70) then Some (n - 55)
  else if (97 <=? n) && (n <=? 102) then Some (n - 87)
  else None.

Definition is_space (c : ascii) : bool :=
  let n := nat_of_ascii c in
  (Nat.eqb n 32 || (Nat.leb 9 n && Nat.leb n 13))%bool.

Fixpoint skip_spaces (s : string) : string :=
  match s with
  | String c s' => if is_space c then skip_spaces s' else s
  | EmptyString => s
  end.

(** The longest prefix of hex digits, as a number; [None] without a digit. *)
Fixpoint hex_prefix (s : string) (acc : option Z) : option Z :=
  match s with
  | String c s' =>
      match hex_digit c with
      | Some d => hex_prefix s' (Some (16 * default 0 acc + d))
      | None => acc
      end
  | EmptyString => acc
  end.

Definition strip_0x (s : string) : string :=
  match s with
  | String "0" (String ("x" | "X") s') => s'
  | _ => s
  end.

Definition parseInt16 (s : string) : num :=
  let s := skip_spaces s in
  let '(negative, s) :=
    match s with
    | String "-" s' => (true, s')
    | String "+" s' => (false, s')
    | _ => (false, s)
    end in
  match hex_prefix (strip_0x s) None with
  | Some n => of_Z (if negative then - n else n)
  | None => NaN
  end.

(** [s.substr( start, len )] for non-negative arguments. *)
Definition substr (s : string) (start len : nat) : string :=
  substring start len s.

End JS.


Import JS.

(** ** Collaborators *)

Definition coord : Type := Z * Z.

(** The grid ([Grid2D] or [CoarseGrid]): extents, value lookup, neighbours
    of a pixel index in the von Neumann neighbourhood, and the two index
    conversions. *)
Module Grid.
Record t : Type := {
  extents : Z * Z;
  pixt : coord -> num;
  neighNeumanni : Z -> list Z;
  p2i : coord -> Z;
  i2p : Z -> coord
}.
End Grid.

(** A constraint object of the model.  [instanceof] looks at its class;
    [MAX_ACT k] is [conf["MAX_ACT"][k]], [NaN] where the array has no
    entry. *)
Inductive constraint_class : Type :=
| ActivityConstraint
| ActivityMultiBackground
| OtherConstraint (name : string).

Record constraint : Type := {
  class_of : constraint_class;
  pxact : Z -> num;
  MAX_ACT : Z -> num
}.

Definition is_activity (c : constraint) : bool :=
  match class_of c with
  | ActivityConstraint | ActivityMultiBackground => true
  | OtherConstraint _ => false
  end.

(** The model ([GridBasedModel]): [pixt] gives the cell id at a coordinate
    (any number that is no cell id where the model has none);
    [cellPixels] and [cellBorderPixels] yield pairs of a coordinate and a
    cell id; [PixelsByCell] is the statistic of that name, its keys in the
    order [Object.keys] lists them. *)
Module Model.
Record t : Type := {
  grid : Grid.t;
  extents : Z * Z;
  soft_constraints : list constraint;
  pixt : coord -> Z;
  cellKind : Z -> Z;
  cellPixels : list (coord * Z);
  cellBorderPixels : list (coord * Z);
  PixelsByCell : list (Z * list coord)
}.
End Model.

(** What the constructor accepts. *)
Inductive drawable : Type :=
| OfModel (m : Model.t)
| OfGrid (g : Grid.t).

(** A colour argument: a hex string or a function of the cell id. *)
Inductive color : Type :=
| Hex (hex : string)
| ByCell (f : Z -> string).

(** The outcome of [fs.writeFileSync( fname, el.toBuffer() )]: it returns,
    or raises an error object with a [code] property. *)
Record js_error : Type := { code : option string; description : string }.

Inductive io_outcome : Type :=
| Written
| Raised (err : js_error).

(** The 2D context of the canvas element, with the canvas it draws on. *)
Class Context2D (Ctx : Type) : Type := {
  createCanvas : Z -> Z -> Ctx;
  ctx_set_lineWidth : Ctx -> num -> Ctx;
  ctx_set_lineCap : Ctx -> string -> Ctx;
  ctx_set_fillStyle : Ctx -> string -> Ctx;
  ctx_set_globalAlpha : Ctx -> num -> Ctx;
  ctx_fillRect : Ctx -> Z -> Z -> Z -> Z -> Ctx;
  ctx_getImageData : Ctx -> Z -> Z -> Z -> Z -> list Z;
  ctx_putImageData : Ctx -> list Z -> Z -> Z -> Ctx
}.

(** ** The class [Canvas] *)

Section Canvas.
Context {Ctx : Type} `{Context2D Ctx}.

Record Canvas : Type := {
  C : option Model.t;
  grid : Grid.t;
  extents : Z * Z;
  zoom : Z;
  wrap : Z * Z;
  width : Z;
  height : Z;
  ctx : Ctx;
  px : list Z;
  col_r : num;
  col_g : num;
  col_b : num
}.

Definition px_update (f : list Z -> list Z) (st : Canvas) : Canvas :=
  {| C := C st; grid := grid st; extents := extents st; zoom := zoom st;
     wrap := wrap st; width := width st; height := height st;
     ctx := ctx st; px := f (px st);
     col_r := col_r st; col_g := col_g st; col_b := col_b st |}.

Definition ctx_update (f : Ctx -> Ctx) (st : Canvas) : Canvas :=
  {| C := C st; grid := grid st; extents := extents st; zoom := zoom st;
     wrap := wrap st; width := width st; height := height st;
     ctx := f (ctx st); px := px st;
     col_r := col_r st; col_g := col_g st; col_b := col_b st |}.

Definition set_rgb (r g b : num) (st : Canvas) : Canvas :=
  {| C := C st; grid := grid st; extents := extents st; zoom := zoom st;
     wrap := wrap st; width := width st; height := height st;
     ctx := ctx st; px := px st;
     col_r := r; col_g := g; col_b := b |}.

(** [constructor( C, options )], with [options.zoom] and [options.wrap].
    [zoom] falls back to [1] when it is missing or [0].  Before the first
    [col] the channels are [undefined], which a store reads as [NaN];
    before the first [getImageData] there is no buffer. *)
Definition new_Canvas (c : drawable) (opt_zoom : option Z)
    (opt_wrap : option (Z * Z)) : Canvas :=
  let g := match c with OfModel m => Model.grid m | OfGrid g => g end in
  let ext := match c with OfModel m => Model.extents m
                        | OfGrid g => Grid.extents g end in
  let zoom := match opt_zoom with
              | Some z => if z =? 0 then 1 else z
              | None => 1
              end in
  let wrap := default (0, 0) opt_wrap in
  let width := if (wrap.1 =? 0) || (ext.1 <? wrap.1) then ext.1 else wrap.1 in
  let height := if (wrap.2 =? 0) || (ext.2 <? wrap.2) then ext.2 else wrap.2 in
  let el := createCanvas (width * zoom) (height * zoom) in
  {| C := match c with OfModel m => Some m | OfGrid _ => None end;
     grid := g; extents := ext; zoom := zoom; wrap := wrap;
     width := width; height := height;
     ctx := ctx_set_lineCap (ctx_set_lineWidth el (Fin (2 / 10)))
              "butt"%string;
     px := [];
     col_r := NaN; col_g := NaN; col_b := NaN |}.

(** [px[k] = v] on the byte array. *)
Definition write (k : Z) (v : num) (buf : list Z) : list Z :=
  if k <? 0 then buf else <[Z.to_nat k := ToUint8Clamp v]> buf.

Definition store (k : Z) (v : num) (st : Canvas) : Canvas :=
  px_update (write k v) st.

(** [pxfi( p, alpha = 1 )]: a block of [zoom] by [zoom] pixels. *)
Definition pxfi (p : coord) (alpha : num) (st : Canvas) : Canvas :=
  let dy := zoom st * width st in
  let off := (zoom st * p.2 * dy + zoom st * p.1) * 4 in
  foldl (fun st i =>
    foldl (fun st j =>
      let st := store (i + j + off) (col_r st) st in
      let st := store (i + j + off + 1) (col_g st) st in
      let st := store (i + j + off + 2) (col_b st) st in
      store (i + j + off + 3) (mul alpha (of_Z 255)) st)
      st (for_range 0 (zoom st * dy * 4) (dy * 4)))
    st (for_range 0 (zoom st * 4) 4).

(** [pxfir( p )]: one pixel of the zoomed buffer. *)
Definition pxfir (p : coord) (st : Canvas) : Canvas :=
  let dy := zoom st * width st in
  let off := (p.2 * dy + p.1) * 4 in
  let st := store off (col_r st) st in
  let st := store (off + 1) (col_g st) st in
  let st := store (off + 2) (col_b st) st in
  store (off + 3) (of_Z 255) st.

Definition getImageData (st : Canvas) : Canvas :=
  px_update (fun _ =>
    ctx_getImageData (ctx st) 0 0 (width st * zoom st) (height st * zoom st))
    st.

Definition putImageData (st : Canvas) : Canvas :=
  ctx_update (fun c => ctx_putImageData c (px st) 0 0) st.

(** A line left, right, down or up of pixel [p]. *)
Definition pxdrawl (p : coord) (st : Canvas) : Canvas :=
  foldl (fun st i => pxfir (zoom st * p.1, i) st)
    st (for_range (zoom st * p.2) (zoom st * (p.2 + 1)) 1).

Definition pxdrawr (p : coord) (st : Canvas) : Canvas :=
  foldl (fun st i => pxfir (zoom st * (p.1 + 1), i) st)
    st (for_range (zoom st * p.2) (zoom st * (p.2 + 1)) 1).

Definition pxdrawd (p : coord) (st : Canvas) : Canvas :=
  foldl (fun st i => pxfir (i, zoom st * (p.2 + 1)) st)
    st (for_range (zoom st * p.1) (zoom st * (p.1 + 1)) 1).

Definition pxdrawu (p : coord) (st : Canvas) : Canvas :=
  foldl (fun st i => pxfir (i, zoom st * p.2) st)
    st (for_range (zoom st * p.1) (zoom st * (p.1 + 1)) 1).

(** [col( hex )]. *)
Definition col (hex : string) (st : Canvas) : Canvas :=
  let st :=
    ctx_update (fun c => ctx_set_fillStyle c (String.append "#" hex)) st in
  set_rgb (parseInt16 (substr hex 0 2)) (parseInt16 (substr hex 2 2))
          (parseInt16 (substr hex 4 2)) st.

(** [col || "000000"]: an empty string is falsy, as a missing argument
    is. *)
Definition or_black (c : option string) : string :=
  match c with
  | Some s => if String.eqb s EmptyString then "000000"%string else s
  | None => "000000"%string
  end.

(** [clear( col )].  The canvas element is as wide and as high as the
    constructor made it. *)
Definition clear (c : option string) (st : Canvas) : Canvas :=
  let c := or_black c in
  let st :=
    ctx_update (fun x => ctx_set_fillStyle x (String.append "#" c)) st in
  ctx_update (fun x =>
    ctx_fillRect x 0 0 (width st * zoom st) (height st * zoom st)) st.

(** [p2pdraw( p )].  [%] is the remainder that takes the sign of the
    dividend.  The array [p] is changed in place and returned: the caller's
    [p] is the result from then on. *)
Definition p2pdraw (p : coord) (st : Canvas) : coord :=
  (if (wrap st).1 =? 0 then p.1 else Z.rem p.1 (wrap st).1,
   if (wrap st).2 =? 0 then p.2 else Z.rem p.2 (wrap st).2).

(** *** Scalar fields *)

(** [Math.log( .1 + cc.pixt( p ) )]. *)
Definition transform (cc : Grid.t) (p : coord) : num :=
  log (add (Fin (1 / 10)) (Grid.pixt cc p)).

(** The first pass of [drawFieldContour]: [maxval] starts at [0] and
    [minval] at [Math.log(0.1)].  [drawField] runs the same loop for
    [maxval] alone. *)
Definition field_range (cc : Grid.t) : num * num :=
  foldl (fun mm i =>
    foldl (fun mm j =>
      let p := transform cc (i, j) in
      let maxval := if ltb mm.1 p then p else mm.1 in
      let minval := if gtb mm.2 p then p else mm.2 in
      (maxval, minval))
      mm (for_range 0 (Grid.extents cc).2 1))
    (Fin 0, log (Fin (1 / 10))) (for_range 0 (Grid.extents cc).1 1).

Definition field_max (cc : Grid.t) : num :=
  foldl (fun maxval i =>
    foldl (fun maxval j =>
      let p := transform cc (i, j) in
      if ltb maxval p then p else maxval)
      maxval (for_range 0 (Grid.extents cc).2 1))
    (Fin 0) (for_range 0 (Grid.extents cc).1 1).

(** [drawField( cc, col = "0000FF" )]. *)
Definition drawField (cc : option Grid.t) (c : option string)
    (st : Canvas) : Canvas :=
  let cc := default (grid st) cc in
  let st := col (default "0000FF"%string c) st in
  let maxval := field_max cc in
  let st := getImageData st in
  let st :=
    foldl (fun st i =>
      foldl (fun st j =>
        let alpha := div (transform cc (i, j)) maxval in
        pxfi (i, j) alpha st)
        st (for_range 0 (Grid.extents cc).2 1))
      st (for_range 0 (Grid.extents cc).1 1) in
  let st := putImageData st in
  ctx_update (fun x => ctx_set_globalAlpha x (Fin 1)) st.

(** The loop over the neighbours in [drawFieldContour]: does it reach the
    [pxfi] call and [break]?  Neighbours are enumerated and converted by the
    grid [g]; their values are read from [cc]. *)
Fixpoint crossing (g cc : Grid.t) (v : num) (ns : list Z)
    (below above : bool) : bool :=
  match ns with
  | [] => false
  | n :: ns' =>
      let nval := log (add (Fin (1 / 10)) (Grid.pixt cc (Grid.i2p g n))) in
      let below := if ltb nval v then true else below in
      let above := if geb nval v then true else above in
      if above && below then true else crossing g cc v ns' below above
  end.

(** The body of the loop over the levels, for the level [v]. *)
Definition contour_level (cc : Grid.t) (maxval minval v : num)
    (st : Canvas) : Canvas :=
  foldl (fun st i =>
    foldl (fun st j =>
      let pixelval := transform cc (i, j) in
      if ltb (abs (sub v pixelval)) (mul (Fin (5 / 100)) maxval) then
        if crossing (grid st) cc v
             (Grid.neighNeumanni (grid st) (Grid.p2i (grid st) (i, j)))
             false false
        then
          let alpha :=
            add (mul (Fin (7 / 10)) (div (sub v minval) (sub maxval minval)))
                (Fin (3 / 10)) in
          pxfi (i, j) alpha st
        else st
      else st)
      st (for_range 0 (Grid.extents cc).2 1))
    st (for_range 0 (Grid.extents cc).1 1).

(** [for( let v = minval; v < maxval; v+= step )]; [None] when the fuel
    does not suffice. *)
Fixpoint level_loop (fuel : nat) (body : num -> Canvas -> Canvas)
    (maxval step v : num) (st : Canvas) : option Canvas :=
  match fuel with
  | O => None
  | S fuel' =>
      if ltb v maxval
      then level_loop fuel' body maxval step (add v step) (body v st)
      else Some st
  end.

(** [drawFieldContour( cc, nsteps = 10, col = "FFFF00" )]. *)
Definition drawFieldContour (fuel : nat) (cc : option Grid.t)
    (nsteps : option num) (c : option string) (st : Canvas) : option Canvas :=
  let cc := default (grid st) cc in
  let nsteps := default (of_Z 10) nsteps in
  let st := col (default "FFFF00"%string c) st in
  let '(maxval, minval) := field_range cc in
  let st := getImageData st in
  let step := div (sub maxval minval) nsteps in
  match level_loop fuel (contour_level cc maxval minval) maxval step minval st
  with
  | Some st => Some (putImageData st)
  | None => None
  end.

(** *** Cells *)

(** The body of the loop of [drawCellBorders] for the border pixel [x].
    [p2pdraw] changes [p] in place, so the five labels are read at the
    wrapped coordinate. *)
Definition border_step (m : Model.t) (kind : Z) (x : coord * Z)
    (st : Canvas) : Canvas :=
  let p := x.1 in
  if (kind <? 0) || (Model.cellKind m x.2 =? kind) then
    let pdraw := p2pdraw p st in
    let p := pdraw in
    let pc := Model.pixt m (p.1, p.2) in
    let pr := Model.pixt m (p.1 + 1, p.2) in
    let pl := Model.pixt m (p.1 - 1, p.2) in
    let pd := Model.pixt m (p.1, p.2 + 1) in
    let pu := Model.pixt m (p.1, p.2 - 1) in
    let st := if negb (pc =? pl) then pxdrawl pdraw st else st in
    let st := if negb (pc =? pr) then pxdrawr pdraw st else st in
    let st := if negb (pc =? pd) then pxdrawd pdraw st else st in
    if negb (pc =? pu) then pxdrawu pdraw st else st
  else st.

(** The [TypeError] of a method that reads [this.C] on a canvas made from
    a grid. *)
Definition no_model : string := "TypeError: this.C is undefined".

(** [drawCellBorders( kind, col )]. *)
Definition drawCellBorders (kind : Z) (c : option string)
    (st : Canvas) : completion Canvas :=
  let st := col (or_black c) st in
  let st := getImageData st in
  match C st with
  | None => Throw no_model
  | Some m =>
      Normal (putImageData
        (foldl (fun st x => border_step m kind x st)
           st (Model.cellBorderPixels m)))
  end.

(** The [col] argument of [drawCells] and [drawPixelSet]: [this.col] is
    called at once for a string (black when the argument is missing). *)
Definition col_if_string (c : option color) (st : Canvas) : Canvas :=
  match c with
  | None => col (or_black None) st
  | Some (Hex s) => col (or_black (Some s)) st
  | Some (ByCell _) => st
  end.

Definition col_if_function (c : option color) (cid : Z)
    (st : Canvas) : Canvas :=
  match c with
  | Some (ByCell f) => col (f cid) st
  | _ => st
  end.

(** [drawCells( kind, col )]; every pixel goes to [pxfi] as it is. *)
Definition drawCells (kind : Z) (c : option color)
    (st : Canvas) : completion Canvas :=
  let st := col_if_string c st in
  match C st with
  | None => Throw no_model
  | Some m =>
      let cellpixelsbyid := Model.PixelsByCell m in
      let st := getImageData st in
      Normal (putImageData
        (foldl (fun st entry =>
           let cid := entry.1 in
           if (kind <? 0) || (Model.cellKind m cid =? kind) then
             let st := col_if_function c cid st in
             foldl (fun st cp => pxfi cp (of_Z 1) st) st entry.2
           else st)
           st cellpixelsbyid))
  end.

(** [drawPixelSet( pixelarray, col )]. *)
Definition drawPixelSet (pixelarray : list coord) (c : option color)
    (st : Canvas) : Canvas :=
  let st := col_if_string c st in
  let st := getImageData st in
  let st := foldl (fun st p => pxfi p (of_Z 1) st) st pixelarray in
  putImageData st.

(** *** Activity values *)

(** The search of [drawActivityValues] for a constraint to use. *)
Fixpoint first_activity (cs : list constraint) : option constraint :=
  match cs with
  | [] => None
  | c :: cs' => if is_activity c then Some c else first_activity cs'
  end.

Definition default_gradient (a : num) : num * num * num :=
  if gtb a (Fin (1 / 2))
  then (of_Z 255, mul (sub (of_Z 2) (mul (of_Z 2) a)) (of_Z 255), of_Z 0)
  else (mul (mul (of_Z 2) a) (of_Z 255), of_Z 255, of_Z 0).

(** The loop of [drawActivityValues] over the cell pixels, with the
    constraint [A] and the colour function [colf]. *)
Definition activity_step (m : Model.t) (kind : Z) (A : constraint)
    (colf : num -> num * num * num) (x : coord * Z) (st : Canvas) : Canvas :=
  let ii := x.1 in
  let sigma := x.2 in
  let k := Model.cellKind m sigma in
  if ((kind <? 0) && gtb (MAX_ACT A k) (of_Z 0)) || (k =? kind) then
    let a := div (pxact A (Grid.p2i (Model.grid m) ii)) (MAX_ACT A k) in
    if gtb a (of_Z 0) then
      (* the gradient the source first puts in col_r and col_g is replaced
         at once by the three channels of col( a ) *)
      let r := colf a in
      let st := set_rgb r.1.1 r.1.2 r.2 st in
      pxfi ii (of_Z 1) st
    else st
  else st.

Definition no_activity : string := "Cannot find activity values to draw!".

(** [drawActivityValues( kind, A, col )]. *)
Definition drawActivityValues (kind : Z) (A : option constraint)
    (colf : option (num -> num * num * num)) (st : Canvas)
    : completion Canvas :=
  match C st with
  | None => Throw no_model
  | Some m =>
      let A := match A with
               | Some a => Some a
               | None => first_activity (Model.soft_constraints m)
               end in
      match A with
      | None => Throw no_activity
      | Some A =>
          let colf := default default_gradient colf in
          let st := col "FF0000" st in
          let st := getImageData st in
          let st := set_rgb (col_r st) (col_g st) (of_Z 0) st in
          Normal (putImageData
            (foldl (fun st x => activity_step m kind A colf x st)
               st (Model.cellPixels m)))
      end
  end.

(** *** Export *)

Definition writePNG_message (fname : string) : string :=
  String.append "Canvas.writePNG: cannot write to file "
    (String.append fname ", are you sure the directory exists?").

(** [writePNG( fname )], given what the write inside [try] does. *)
Definition writePNG (fname : string) (io : io_outcome) : completion unit :=
  match io with
  | Written => Normal tt
  | Raised err =>
      match code err with
      | Some c =>
          if String.eqb c "ENOENT" then Throw (writePNG_message fname)
          else Normal tt
      | None => Normal tt
      end
  end.

End Canvas.

Arguments Canvas Ctx : clear implicits.

(** ** Writes to the byte array *)

(** A sequence of stores [px[k] = v], oldest first. *)
Definition apply_writes (ws : list (Z * num)) (buf : list Z) : list Z :=
  foldl (fun b w => write w.1 w.2 b) buf ws.

(** The value of the last store to the index [n], if there is one. *)
Fixpoint last_write (n : nat) (ws : list (Z * num)) : option num :=
  match ws with
  | [] => None
  | w :: ws' =>
      match last_write n ws' with
      | Some v => Some v
      | None =>
          if (0 <=? w.1) && (Z.to_nat w.1 =? n)%nat then Some w.2 else None
      end
  end.

(** ** The stores of the pixel helpers *)

(** The stores of [pxfir( p )], for a zoom factor [z], a canvas width [w]
    and the three channels. *)
Definition pxfir_writes (z w : Z) (r g b : num) (p : coord) : list (Z * num) :=
  let off := (p.2 * (z * w) + p.1) * 4 in
  [(off, r); (off + 1, g); (off + 2, b); (off + 3, of_Z 255)].

(** The stores of [pxfi( p, alpha )]. *)
Definition pxfi_writes (z w : Z) (r g b : num) (p : coord) (alpha : num)
    : list (Z * num) :=
  let dy := z * w in
  let off := (z * p.2 * dy + z * p.1) * 4 in
  flat_map (fun i =>
    flat_map (fun j =>
      [(i + j + off, r); (i + j + off + 1, g); (i + j + off + 2, b);
       (i + j + off + 3, mul alpha (of_Z 255))])
      (for_range 0 (z * dy * 4) (dy * 4)))
    (for_range 0 (z * 4) 4).

(** The byte of channel [c] (0 to 3) of a pixel written by [pxfi]. *)
Definition channel (r g b a : num) (c : Z) : num :=
  if c =? 0 then r else if c =? 1 then g else if c =? 2 then b else a.


(** The stores of the four line helpers. *)
Definition pxdrawl_writes (z w : Z) (r g b : num) (p : coord)
    : list (Z * num) :=
  flat_map (fun i => pxfir_writes z w r g b (z * p.1, i))
    (for_range (z * p.2) (z * (p.2 + 1)) 1).

Definition pxdrawr_writes (z w : Z) (r g b : num) (p : coord)
    : list (Z * num) :=
  flat_map (fun i => pxfir_writes z w r g b (z * (p.1 + 1), i))
    (for_range (z * p.2) (z * (p.2 + 1)) 1).

Definition pxdrawd_writes (z w : Z) (r g b : num) (p : coord)
    : list (Z * num) :=
  flat_map (fun i => pxfir_writes z w r g b (i, z * (p.2 + 1)))
    (for_range (z * p.1) (z * (p.1 + 1)) 1).

Definition pxdrawu_writes (z w : Z) (r g b : num) (p : coord)
    : list (Z * num) :=
  flat_map (fun i => pxfir_writes z w r g b (i, z * p.2))
    (for_range (z * p.1) (z * (p.1 + 1)) 1).

(** The stores of one round of the loop of [drawCellBorders], for the
    border pixel [x] already wrapped to [p]. *)
Definition border_writes (m : Model.t) (kind : Z) (z w : Z) (r g b : num)
    (p : coord) (id : Z) : list (Z * num) :=
  if (kind <? 0) || (Model.cellKind m id =? kind) then
    let pc := Model.pixt m (p.1, p.2) in
    (if negb (pc =? Model.pixt m (p.1 - 1, p.2))
     then pxdrawl_writes z w r g b p else [])
    ++ (if negb (pc =? Model.pixt m (p.1 + 1, p.2))
        then pxdrawr_writes z w r g b p else [])
    ++ (if negb (pc =? Model.pixt m (p.1, p.2 + 1))
        then pxdrawd_writes z w r g b p else [])
    ++ (if negb (pc =? Model.pixt m (p.1, p.2 - 1))
        then pxdrawu_writes z w r g b p else [])
  else [].

(** A store of one channel of one pixel, the alpha channel at [255]. *)
Definition rgba_write (r g b : num) (wr : Z * num) : Prop :=
  exists q c : Z,
    0 <= c < 4 /\ wr.1 = 4 * q + c /\ wr.2 = channel r g b (of_Z 255) c.

(** ** An in-memory drawing context

    A canvas kept as its RGBA bytes, row after row, to run the renderer on
    concrete inputs.  A fill style is read as [#rrggbb]. *)
Module MemoryCanvas.

Record t : Type := {
  el_width : Z;
  el_height : Z;
  data : list Z;
  fillStyle : string
}.

Definition style_byte (s : string) (start : nat) : Z :=
  default 0 (hex_prefix (substr s start 2) None).

Definition fill_byte (c : t) (x y w h : Z) (idx : nat) (old : Z) : Z :=
  let q := Z.of_nat idx / 4 in
  let X := q mod el_width c in
  let Y := q / el_width c in
  if (x <=? X) && (X <? x + w) && (y <=? Y) && (Y <? y + h) then
    match Z.of_nat idx mod 4 with
    | 0 => style_byte (fillStyle c) 1
    | 1 => style_byte (fillStyle c) 3
    | 2 => style_byte (fillStyle c) 5
    | _ => 255
    end
  else old.

Definition create (w h : Z) : t :=
  {| el_width := w; el_height := h;
     data := replicate (Z.to_nat (w * h * 4)) 0;
     fillStyle := "#000000" |}.

Definition set_fillStyle (c : t) (s : string) : t :=
  {| el_width := el_width c; el_height := el_height c;
     data := data c; fillStyle := s |}.

Definition fillRect (c : t) (x y w h : Z) : t :=
  {| el_width := el_width c; el_height := el_height c;
     data := imap (fill_byte c x y w h) (data c);
     fillStyle := fillStyle c |}.

Definition putImageData (c : t) (d : list Z) (x y : Z) : t :=
  {| el_width := el_width c; el_height := el_height c;
     data := d; fillStyle := fillStyle c |}.

#[global] Instance context : Context2D t := {|
  createCanvas := create;
  ctx_set_lineWidth := fun c _ => c;
  ctx_set_lineCap := fun c _ => c;
  ctx_set_fillStyle := set_fillStyle;
  ctx_set_globalAlpha := fun c _ => c;
  ctx_fillRect := fillRect;
  ctx_getImageData := fun c _ _ _ _ => data c;
  ctx_putImageData := putImageData
|}.

End MemoryCanvas.


(** ** Concrete inputs *)

(** A sample grid, without linked borders: pixel [(x, y)] has the index
    [y * w + x], and its neighbours are the pixels to the left, to the
    right, above and below that lie on the grid. *)
Definition plain_neighbours (w h : Z) (i : Z) : list Z :=
  let x := i mod w in
  let y := i / w in
  (if 0 <? x then [i - 1] else [])
  ++ (if x + 1 <? w then [i + 1] else [])
  ++ (if 0 <? y then [i - w] else [])
  ++ (if y + 1 <? h then [i + w] else []).

Definition plain_grid (w h : Z) (values : coord -> num) : Grid.t :=
  {| Grid.extents := (w, h);
     Grid.pixt := values;
     Grid.neighNeumanni := plain_neighbours w h;
     Grid.p2i := fun p => p.2 * w + p.1;
     Grid.i2p := fun i => (i mod w, i / w) |}.

(** Two cells on a grid of 6 by 3 pixels, on background [0]: cell 1 is
    the pixel [(2, 1)]; cell 2 is the column [x = 3] and the pixel
    [(4, 1)].  Every pixel of the two cells is a border pixel. *)
Definition two_cells_label (p : coord) : Z :=
  if (p.1 =? 2) && (p.2 =? 1) then 1
  else if ((p.1 =? 3) && (0 <=? p.2) && (p.2 <=? 2))
          || ((p.1 =? 4) && (p.2 =? 1)) then 2
  else 0.

Definition two_cells : Model.t :=
  {| Model.grid := plain_grid 6 3 (fun p => of_Z (two_cells_label p));
     Model.extents := (6, 3);
     Model.soft_constraints := [];
     Model.pixt := two_cells_label;
     Model.cellKind := fun id => if id =? 0 then 0 else 1;
     Model.cellPixels :=
       [((2, 1), 1); ((3, 0), 2); ((3, 1), 2); ((3, 2), 2); ((4, 1), 2)];
     Model.cellBorderPixels :=
       [((2, 1), 1); ((3, 0), 2); ((3, 1), 2); ((3, 2), 2); ((4, 1), 2)];
     Model.PixelsByCell :=
       [(1, [(2, 1)]); (2, [(3, 0); (3, 1); (3, 2); (4, 1)])] |}.

(** Its canvas at zoom 2: 12 by 6 pixels. *)
Definition two_cells_canvas : Canvas MemoryCanvas.t :=
  new_Canvas (OfModel two_cells) (Some 2) None.

(** The alpha byte of the pixel at column [X] and row [Y] of the zoomed
    buffer. *)
Definition alpha_at {Ctx : Type} (st : Canvas Ctx) (X Y : Z) : option Z :=
  px st !! Z.to_nat ((Y * (zoom st * width st) + X) * 4 + 3).


(** A model of 400 by 10 pixels whose only cell is the pixel [(201, 5)],
    on a canvas that wraps at 200 columns: 200 by 10 pixels at zoom 1. *)
Definition wide_model : Model.t :=
  {| Model.grid :=
       plain_grid 400 10
         (fun p => if (p.1 =? 201) && (p.2 =? 5) then of_Z 1 else of_Z 0);
     Model.extents := (400, 10);
     Model.soft_constraints := [];
     Model.pixt := fun p => if (p.1 =? 201) && (p.2 =? 5) then 1 else 0;
     Model.cellKind := fun id => if id =? 0 then 0 else 1;
     Model.cellPixels := [((201, 5), 1)];
     Model.cellBorderPixels := [((201, 5), 1)];
     Model.PixelsByCell := [(1, [(201, 5)])] |}.

Definition wrapped_canvas : Canvas MemoryCanvas.t :=
  new_Canvas (OfModel wide_model) None (Some (200, 0)).

(** ** The calls of [pxfi] made for a field *)

(** The cells of a grid in the order of the two nested loops. *)
Definition cells (cc : Grid.t) : list coord :=
  flat_map (fun i => map (fun j => (i, j)) (for_range 0 (Grid.extents cc).2 1))
    (for_range 0 (Grid.extents cc).1 1).

Definition in_grid (cc : Grid.t) (p : coord) : Prop :=
  0 <= p.1 < (Grid.extents cc).1 /\ 0 <= p.2 < (Grid.extents cc).2.

(** The second pass of [drawField]: each cell with its alpha. *)
Definition drawField_calls (cc : Grid.t) : list (coord * num) :=
  map (fun p => (p, div (transform cc p) (field_max cc))) (cells cc).

(** The field with one cell, of value [0], and its canvas. *)
Definition zero_field : Grid.t := plain_grid 1 1 (fun _ => Fin 0).

Definition zero_canvas : Canvas MemoryCanvas.t :=
  new_Canvas (OfGrid zero_field) None None.

(** The field with two cells, of the values [0] and [10]. *)
Definition two_values_field : Grid.t :=
  plain_grid 2 1 (fun p => if p.1 =? 0 then Fin 0 else Fin 10).

(** The step field: [0] where [x < 5], [100] elsewhere. *)
Definition step_value (p : coord) : num :=
  if p.1 <? 5 then Fin 0 else Fin 100.

Definition step_field : Grid.t := plain_grid 10 1 step_value.

Definition step_canvas : Canvas MemoryCanvas.t :=
  new_Canvas (OfGrid step_field) None None.

(** ** Contours on one grid

    The contour rendering for a single grid [g] that gives the values, the
    neighbours and the index conversions, with the test as the
    specification words it: a cell within tolerance of the level is marked
    if at least one neighbour is strictly below the level and at least one
    is at or above it.  The levels are those of the first pass above. *)

Definition spec_crossing (g : Grid.t) (v : num) (p : coord) : bool :=
  let ns := Grid.neighNeumanni g (Grid.p2i g p) in
  existsb (fun n => ltb (transform g (Grid.i2p g n)) v) ns
  && existsb (fun n => geb (transform g (Grid.i2p g n)) v) ns.

Section ContourSpec.
Context {Ctx : Type} `{Context2D Ctx}.

Definition spec_level (g : Grid.t) (maxval minval v : num)
    (st : Canvas Ctx) : Canvas Ctx :=
  foldl (fun st p =>
    if ltb (abs (sub v (transform g p))) (mul (Fin (5 / 100)) maxval)
       && spec_crossing g v p
    then pxfi p
           (add (mul (Fin (7 / 10)) (div (sub v minval) (sub maxval minval)))
                (Fin (3 / 10))) st
    else st)
    st (cells g).

Definition drawContours_spec (fuel : nat) (g : Grid.t) (nsteps : option num)
    (c : option string) (st : Canvas Ctx) : option (Canvas Ctx) :=
  let nsteps := default (of_Z 10) nsteps in
  let st := col (default "FFFF00"%string c) st in
  let maxval := (field_range g).1 in
  let minval := (field_range g).2 in
  let st := getImageData st in
  let step := div (sub maxval minval) nsteps in
  match level_loop fuel (spec_level g maxval minval) maxval step minval st with
  | Some st => Some (putImageData st)
  | None => None
  end.

End ContourSpec.

(** The grid with the values and extents of [cc] and the neighbours and
    index conversions of [g]. *)
Definition mix_grid (g cc : Grid.t) : Grid.t :=
  {| Grid.extents := Grid.extents cc;
     Grid.pixt := Grid.pixt cc;
     Grid.neighNeumanni := Grid.neighNeumanni g;
     Grid.p2i := Grid.p2i g;
     Grid.i2p := Grid.i2p g |}.

(** A grid in which no pixel has a neighbour, and one whose conversions
    differ from those of [plain_grid]. *)
Definition isolated_grid (w h : Z) (values : coord -> num) : Grid.t :=
  {| Grid.extents := (w, h);
     Grid.pixt := values;
     Grid.neighNeumanni := fun _ => [];
     Grid.p2i := fun p => p.1 * h + p.2;
     Grid.i2p := fun i => (i / h, i mod h) |}.

(** A model with three constraints, the second and the third of which
    hold activity values. *)
Definition volume_constraint : constraint :=
  {| class_of := OtherConstraint "VolumeConstraint";
     pxact := fun _ => NaN;
     MAX_ACT := fun _ => NaN |}.

Definition activity_constraint : constraint :=
  {| class_of := ActivityConstraint;
     pxact := fun _ => of_Z 40;
     MAX_ACT := fun k => if k =? 1 then of_Z 80 else of_Z 0 |}.

Definition multi_background : constraint :=
  {| class_of := ActivityMultiBackground;
     pxact := fun _ => of_Z 4;
     MAX_ACT := fun k => if k =? 1 then of_Z 20 else of_Z 0 |}.

Definition activity_model : Model.t :=
  {| Model.grid := Model.grid two_cells;
     Model.extents := Model.extents two_cells;
     Model.soft_constraints :=
       [volume_constraint; activity_constraint; multi_background];
     Model.pixt := Model.pixt two_cells;
     Model.cellKind := Model.cellKind two_cells;
     Model.cellPixels := Model.cellPixels two_cells;
     Model.cellBorderPixels := Model.cellBorderPixels two_cells;
     Model.PixelsByCell := Model.PixelsByCell two_cells |}.

Definition activity_canvas : Canvas MemoryCanvas.t :=
  new_Canvas (OfModel activity_model) (Some 2) None.

(** An error of the file system other than a missing directory. *)
Definition permission_denied : js_error :=
  {| code := Some "EACCES"%string;
     description := "permission denied"%string |}.

(** ** The other methods of [Canvas] *)

Section CanvasMore.
Context {Ctx : Type} `{Context2D Ctx}.

(** [pxf( p )] and [pxfnozoom( p )]: a rectangle filled through the
    drawing context. *)
Definition pxf (p : coord) (st : Canvas Ctx) : Canvas Ctx :=
  ctx_update (fun c =>
    ctx_fillRect c (zoom st * p.1) (zoom st * p.2) (zoom st) (zoom st)) st.

Definition pxfnozoom (p : coord) (st : Canvas Ctx) : Canvas Ctx :=
  ctx_update (fun c => ctx_fillRect c (zoom st * p.1) (zoom st * p.2) 1 1) st.

(** [context()]. *)
Definition context (st : Canvas Ctx) : Ctx := ctx st.

(** The [TypeError] of [col( hex )] when [hex] is a function: a function
    has no method [substr]. *)
Definition not_a_string : string := "TypeError: hex.substr is not a function".

(** [drawOnCellBorders( kind, col )].  [this.col( col )] is called whatever
    [col] is, so a function never gets as far as the loop. *)
Definition drawOnCellBorders (kind : Z) (c : option color)
    (st : Canvas Ctx) : completion (Canvas Ctx) :=
  let st := getImageData st in
  match c with
  | Some (ByCell _) => Throw not_a_string
  | Some (Hex _) | None =>
      let hex := match c with
                 | Some (Hex s) => or_black (Some s)
                 | _ => or_black None
                 end in
      let st := col hex st in
      match C st with
      | None => Throw no_model
      | Some m =>
          Normal (putImageData
            (foldl (fun st p =>
               if (kind <? 0) || (Model.cellKind m p.2 =? kind)
               then pxfi p.1 (of_Z 1) st
               else st)
               st (Model.cellBorderPixels m)))
      end
  end.

End CanvasMore.

(** ** Blocks of the buffer *)

(** The byte index [k] lies in the block of [zoom] by [zoom] pixels that
    [pxfi] stores for the pixel [p]. *)
Definition in_block (z w : Z) (p : coord) (k : Z) : Prop :=
  exists a b c : Z,
    0 <= a < z /\ 0 <= b < z /\ 0 <= c < 4 /\
    k = (z * p.2 * (z * w) + z * p.1) * 4 + 4 * a + 4 * (z * w) * b + c.

(** The pixel [p] lies on the canvas. *)
Definition on_canvas {Ctx : Type} (st : Canvas Ctx) (p : coord) : Prop :=
  0 <= p.1 < width st /\ 0 <= p.2 < height st.

(** The byte array has the size of the zoomed canvas. *)
Definition buffer_sized {Ctx : Type} (st : Canvas Ctx) : Prop :=
  Z.of_nat (length (px st)) = zoom st * width st * (zoom st * height st) * 4.

(** A store of one channel of one pixel, the alpha channel holding [a]. *)
Definition channel_write (r g b a : num) (wr : Z * num) : Prop :=
  exists q c : Z,
    0 <= c < 4 /\ wr.1 = 4 * q + c /\ wr.2 = channel r g b a c.

(** The pixels [drawCells( kind )] paints: those of the cells that pass the
    test on the kind, cell after cell. *)
Definition pixels_of_kind (m : Model.t) (kind : Z) : list coord :=
  flat_map (fun entry : Z * list coord =>
    if (kind <? 0) || (Model.cellKind m entry.1 =? kind)
    then entry.2 else [])
    (Model.PixelsByCell m).

(** The test [drawActivityValues( kind )] makes before it paints the cell
    pixel [x]: its kind is chosen and its activity, divided by the
    [MAX_ACT] of the kind, is positive. *)
Definition activity_drawn (m : Model.t) (kind : Z) (A : constraint)
    (x : coord * Z) : bool :=
  let k := Model.cellKind m x.2 in
  (((kind <? 0) && gtb (MAX_ACT A k) (of_Z 0)) || (k =? kind))
  && gtb (div (pxact A (Grid.p2i (Model.grid m) x.1)) (MAX_ACT A k)) (of_Z 0).

(** ** A field with a ridge

    Three pixels in a row with the values [0], [0.9] and [9.9]: their
    logarithms are [log(0.1)], [0] and [log(10)], so that with two levels
    the second level, [0], passes through the pixel in the middle.  The
    field comes twice, without neighbours and with the neighbours of
    [plain_grid]; the canvas is made from a third grid, of the same size,
    whose pixels are neighbours along the row. *)
Definition ridge_value (p : coord) : num :=
  if p.1 =? 0 then Fin 0
  else if p.1 =? 1 then Fin (9 / 10) else Fin (99 / 10).

Definition ridge_field : Grid.t := isolated_grid 3 1 ridge_value.

Definition ridge_plain : Grid.t := plain_grid 3 1 ridge_value.

Definition ridge_canvas : Canvas MemoryCanvas.t :=
  new_Canvas (OfGrid (plain_grid 3 1 (fun _ => Fin 0))) None None.
(** * Properties *)

Lemma write_length k v buf : length (write k v buf) = length buf.
Proof.
  unfold write. destruct (k <? 0); [reflexivity | apply length_insert].
Qed.

Lemma apply_writes_length ws buf : length (apply_writes ws buf) = length buf.
Proof.
  revert buf. induction ws as [|w ws IH]; intros buf; simpl; [reflexivity|].
  unfold apply_writes in *. simpl. rewrite IH. apply write_length.
Qed.

Lemma apply_writes_app ws1 ws2 buf :
  apply_writes (ws1 ++ ws2) buf = apply_writes ws2 (apply_writes ws1 buf).
Proof. unfold apply_writes. apply foldl_app. Qed.

Lemma write_lookup k v buf (n : nat) :
  write k v buf !! n =
    if (0 <=? k) && (Z.to_nat k =? n)%nat
    then (if decide (n < length buf)%nat then Some (ToUint8Clamp v) else None)
    else buf !! n.
Proof.
  unfold write.
  destruct (Z.ltb_spec k 0) as [Hk|Hk].
  - destruct (Z.leb_spec 0 k); [lia | reflexivity].
  - destruct (Z.leb_spec 0 k); [|lia]. simpl.
    destruct (Nat.eqb_spec (Z.to_nat k) n) as [->|Hne].
    + destruct (decide (n < length buf)%nat) as [Hlt|Hge].
      * apply list_lookup_insert_eq. exact Hlt.
      * rewrite list_insert_ge by lia. apply lookup_ge_None. lia.
    + apply list_lookup_insert_ne. exact Hne.
Qed.

Lemma apply_writes_lookup ws buf (n : nat) :
  apply_writes ws buf !! n =
    match last_write n ws with
    | Some v => if decide (n < length buf)%nat
                then Some (ToUint8Clamp v) else None
    | None => buf !! n
    end.
Proof.
  revert buf. induction ws as [|w ws IH]; intros buf; [reflexivity|].
  change (apply_writes (w :: ws) buf)
    with (apply_writes ws (write w.1 w.2 buf)).
  rewrite IH. simpl. destruct (last_write n ws) as [v|].
  - rewrite write_length. reflexivity.
  - rewrite write_lookup.
    destruct ((0 <=? w.1) && (Z.to_nat w.1 =? n)%nat); reflexivity.
Qed.

Lemma last_write_None n ws :
  last_write n ws = None <->
  forall w, In w ws -> ~ (0 <= w.1 /\ Z.to_nat w.1 = n).
Proof.
  induction ws as [|w ws IH]; simpl.
  - split; [intros _ w [] | reflexivity].
  - destruct (last_write n ws) as [v|].
    + split; [discriminate|]. intros Hall.
      assert (Some v = None) as Hv; [|discriminate Hv].
      apply IH. intros w' Hin. apply Hall. right. exact Hin.
    + destruct (Z.leb_spec 0 w.1) as [Hk|Hk]; simpl.
      * destruct (Nat.eqb_spec (Z.to_nat w.1) n) as [He|Hne].
        -- split; [discriminate|]. intros Hall.
           exfalso. apply (Hall w); [left; reflexivity | split; assumption].
        -- split; [|reflexivity]. intros _ w' [<-|Hin]; [tauto|].
           apply IH; [reflexivity | exact Hin].
      * split; [|reflexivity]. intros _ w' [<-|Hin]; [lia|].
        apply IH; [reflexivity | exact Hin].
Qed.

(** A sequence of stores hides every earlier store to one of its indices:
    last write wins. *)
Lemma apply_writes_overwrite ws1 ws2 buf :
  (forall k, In k (map fst ws1) -> In k (map fst ws2)) ->
  apply_writes ws2 (apply_writes ws1 buf) = apply_writes ws2 buf.
Proof.
  intros Hsub. apply list_eq. intros n.
  rewrite !apply_writes_lookup, apply_writes_length.
  destruct (last_write n ws2) as [v|] eqn:E2; [reflexivity|].
  destruct (last_write n ws1) as [v|] eqn:E1; [|reflexivity].
  exfalso.
  assert (last_write n ws1 = None) as Hn; [|congruence].
  apply last_write_None. intros w Hin Hw.
  destruct (proj1 (in_map_iff fst ws2 w.1)) as [w' [Hk Hin']].
  { apply Hsub. apply in_map. exact Hin. }
  apply (proj1 (last_write_None n ws2) E2 w' Hin'). rewrite Hk. exact Hw.
Qed.

Lemma last_write_Some n ws v :
  (exists w, In w ws /\ 0 <= w.1 /\ Z.to_nat w.1 = n) ->
  (forall w, In w ws -> 0 <= w.1 -> Z.to_nat w.1 = n -> w.2 = v) ->
  last_write n ws = Some v.
Proof.
  intros Hex Hall.
  destruct (last_write n ws) as [v'|] eqn:E.
  - f_equal. clear Hex. revert v' E.
    induction ws as [|w ws IH]; intros v' E; simpl in E; [discriminate|].
    destruct (last_write n ws) as [v''|].
    + apply IH; [|exact E]. intros w' Hin. apply Hall. right. exact Hin.
    + destruct (Z.leb_spec 0 w.1) as [Hk|Hk]; simpl in E; [|discriminate].
      destruct (Nat.eqb_spec (Z.to_nat w.1) n) as [He|Hne]; [|discriminate].
      injection E as <-. apply Hall; [left; reflexivity | exact Hk | exact He].
  - exfalso. destruct Hex as [w [Hin Hw]].
    exact (proj1 (last_write_None n ws) E w Hin Hw).
Qed.

(** *** The values of a loop variable *)

Lemma range_from_elem fuel i bound step x :
  In x (range_from fuel i bound step) ->
  exists n : nat, (n < fuel)%nat /\ x = i + Z.of_nat n * step /\ x < bound.
Proof.
  revert i. induction fuel as [|fuel IH]; intros i Hin; simpl in Hin; [tauto|].
  destruct (Z.ltb_spec i bound) as [Hlt|Hge]; [|destruct Hin].
  destruct Hin as [<-|Hin].
  - exists 0%nat. split; [lia|]. split; [lia | exact Hlt].
  - destruct (IH _ Hin) as [n [Hn [-> Hb]]].
    exists (S n). split; [lia|]. split; [lia | exact Hb].
Qed.

Lemma range_from_intro fuel i bound step (n : nat) :
  0 <= step -> (n < fuel)%nat -> i + Z.of_nat n * step < bound ->
  In (i + Z.of_nat n * step) (range_from fuel i bound step).
Proof.
  intros Hstep. revert i n.
  induction fuel as [|fuel IH]; intros i n Hn Hb; [lia|]. simpl.
  destruct (Z.ltb_spec i bound) as [Hlt|Hge]; [|nia].
  destruct n as [|n]; [left; lia|]. right.
  replace (i + Z.of_nat (S n) * step) with (i + step + Z.of_nat n * step)
    by lia.
  apply IH; [lia | lia].
Qed.

Lemma for_range_elem start bound step x :
  In x (for_range start bound step) ->
  exists n : nat, x = start + Z.of_nat n * step /\ x < bound.
Proof.
  intros Hin. destruct (range_from_elem _ _ _ _ _ Hin) as [n [_ Hn]].
  exists n. exact Hn.
Qed.

Lemma for_range_intro start bound step (n : nat) :
  0 < step -> start + Z.of_nat n * step < bound ->
  In (start + Z.of_nat n * step) (for_range start bound step).
Proof.
  intros Hstep Hb. apply range_from_intro; [lia | nia | exact Hb].
Qed.

(** The loop over the rows of a block in [pxfi] has the step [dy * 4]; when
    that step is not positive its bound is not positive either, and the
    loop does not start. *)
Lemma for_range_rows_nonpositive (z w : Z) :
  0 < z -> z * w <= 0 -> for_range 0 (z * (z * w) * 4) (z * w * 4) = [].
Proof.
  intros Hz Hw. unfold for_range.
  assert (z * (z * w) <= 0) as Hb by nia.
  replace (Z.to_nat (z * (z * w) * 4 - 0)) with 0%nat by lia.
  reflexivity.
Qed.

Lemma map_fst_flat_map {A B D : Type} (f : A -> list (B * D)) (l : list A) :
  map fst (flat_map f l) = flat_map (fun a => map fst (f a)) l.
Proof.
  induction l as [|a l IH]; simpl; [reflexivity|].
  rewrite map_app, IH. reflexivity.
Qed.

Lemma pxfi_writes_indices z w r g b p a r' g' b' a' :
  map fst (pxfi_writes z w r g b p a) = map fst (pxfi_writes z w r' g' b' p a').
Proof.
  unfold pxfi_writes. rewrite !map_fst_flat_map.
  apply flat_map_ext. intros i. rewrite !map_fst_flat_map. reflexivity.
Qed.

Lemma last_write_In n ws v :
  last_write n ws = Some v ->
  exists w, In w ws /\ 0 <= w.1 /\ Z.to_nat w.1 = n /\ w.2 = v.
Proof.
  induction ws as [|w ws IH]; simpl; [discriminate|].
  destruct (last_write n ws) as [v'|].
  - intros Hv. destruct (IH Hv) as [w' [Hin Hw]].
    exists w'. split; [right; exact Hin | exact Hw].
  - destruct (Z.leb_spec 0 w.1) as [Hk|Hk]; simpl; [|discriminate].
    destruct (Nat.eqb_spec (Z.to_nat w.1) n) as [He|Hne]; [|discriminate].
    intros [= <-]. exists w. split; [left; reflexivity|]. auto.
Qed.


Lemma pxfir_writes_rgba z w r g b p :
  Forall (rgba_write r g b) (pxfir_writes z w r g b p).
Proof.
  unfold pxfir_writes.
  repeat apply Forall_cons_2; [| | | |apply Forall_nil_2];
    exists (p.2 * (z * w) + p.1);
    [exists 0 | exists 1 | exists 2 | exists 3]; simpl;
    (split; [lia|]); (split; [lia | reflexivity]).
Qed.

Lemma Forall_flat_map_intro {A B : Type} (P : B -> Prop) (f : A -> list B)
    (l : list A) :
  (forall a, Forall P (f a)) -> Forall P (flat_map f l).
Proof.
  intros Hf. induction l as [|a l IH]; simpl; [apply Forall_nil_2|].
  apply Forall_app. split; [apply Hf | exact IH].
Qed.

Lemma border_writes_rgba m kind z w r g b p id :
  Forall (rgba_write r g b) (border_writes m kind z w r g b p id).
Proof.
  unfold border_writes, pxdrawl_writes, pxdrawr_writes, pxdrawd_writes,
    pxdrawu_writes.
  destruct ((kind <? 0) || (Model.cellKind m id =? kind));
    [|apply Forall_nil_2].
  repeat (apply Forall_app; split);
    match goal with
    | |- Forall _ (if ?c then _ else _) =>
        destruct c; [|apply Forall_nil_2];
        apply Forall_flat_map_intro; intros i; apply pxfir_writes_rgba
    end.
Qed.


Lemma ToUint8Clamp_of_Z (z : Z) :
  ToUint8Clamp (of_Z z) = Z.max 0 (Z.min 255 z).
Proof.
  unfold ToUint8Clamp, of_Z.
  destruct (Rle_dec (IZR z) 0) as [H0|H0].
  - apply le_IZR in H0. lia.
  - destruct (Rle_dec 255 (IZR z)) as [H1|H1].
    + apply le_IZR in H1. lia.
    + assert (0 < z) as Hz0.
      { apply Z.nle_gt. intros Hle. apply H0. apply IZR_le. exact Hle. }
      assert (z < 255) as Hz1.
      { apply Z.nle_gt. intros Hle. apply H1. apply IZR_le. exact Hle. }
      unfold round_half_even.
      rewrite <- (Int_part_spec (IZR z) z) by (split; lra).
      replace (IZR z - IZR z)%R with 0%R by lra.
      destruct (Rlt_dec 0 (1 / 2)) as [_|Hn]; [lia | exfalso; lra].
Qed.

(** Where every store puts the current colour in a channel, a byte of the
    array is a byte of that colour if some store hit it, and is unchanged
    otherwise. *)
Lemma apply_writes_rgba_lookup r g b W buf (n : nat) :
  Forall (rgba_write r g b) W ->
  apply_writes W buf !! n =
    if existsb (fun w => (0 <=? w.1) && (Z.to_nat w.1 =? n)%nat) W
    then (if decide (n < length buf)%nat
          then Some (ToUint8Clamp
                 (channel r g b (of_Z 255) (Z.of_nat n mod 4)))
          else None)
    else buf !! n.
Proof.
  intros Hrgba. rewrite apply_writes_lookup.
  destruct (existsb _ W) eqn:E.
  - apply existsb_exists in E as [w [Hin Hw]].
    apply andb_prop in Hw as [Hk Hn].
    apply Z.leb_le in Hk. apply Nat.eqb_eq in Hn.
    rewrite Forall_forall in Hrgba.
    rewrite (last_write_Some n W (channel r g b (of_Z 255) (Z.of_nat n mod 4)));
      [reflexivity | |].
    + exists w. auto.
    + intros w' Hin' Hk' Hn'.
      destruct (Hrgba w' (proj2 (list_elem_of_In _ _) Hin'))
        as [q [c [Hc [Hi ->]]]].
      f_equal. rewrite <- Hn', Z2Nat.id, Hi by lia.
      rewrite Z.add_comm, Z.mul_comm, Z.mod_add by lia.
      symmetry. apply Z.mod_small. lia.
  - assert (last_write n W = None) as ->; [|reflexivity].
    apply last_write_None. intros w Hin [Hk Hn].
    assert (existsb (fun w => (0 <=? w.1) && (Z.to_nat w.1 =? n)%nat) W = true)
      as E'; [|congruence].
    apply existsb_exists. exists w. split; [exact Hin|].
    apply andb_true_intro. split; [apply Z.leb_le; exact Hk|].
    apply Nat.eqb_eq. exact Hn.
Qed.

Lemma mul_of_Z (a b : Z) : mul (of_Z a) (of_Z b) = of_Z (a * b).
Proof. unfold mul, of_Z. rewrite mult_IZR. reflexivity. Qed.

(** *** The search for activity values *)

Lemma first_activity_none (cs : list constraint) :
  (forall c, In c cs -> is_activity c = false) -> first_activity cs = None.
Proof.
  induction cs as [|c cs IH]; intros Hall; simpl; [reflexivity|].
  rewrite (Hall c (or_introl eq_refl)).
  apply IH. intros c' Hin. apply Hall. right. exact Hin.
Qed.

Lemma first_activity_first (before after : list constraint) (c : constraint) :
  (forall c', In c' before -> is_activity c' = false) ->
  is_activity c = true ->
  first_activity (before ++ c :: after) = Some c.
Proof.
  intros Hbefore Hc. induction before as [|b before IH]; simpl.
  - rewrite Hc. reflexivity.
  - rewrite (Hbefore b (or_introl eq_refl)).
    apply IH. intros c' Hin. apply Hbefore. right. exact Hin.
Qed.

(** *** Numbers *)

Lemma sgn_pos (r : R) : (0 < r)%R -> sgn r = Gt.
Proof.
  intros Hr. unfold sgn.
  destruct (total_order_T r 0) as [[Hlt|Heq]|Hgt]; [lra | lra | reflexivity].
Qed.

Lemma sgn_zero : sgn 0 = Eq.
Proof.
  unfold sgn.
  destruct (total_order_T 0 0) as [[Hlt|Heq]|Hgt]; [lra | reflexivity | lra].
Qed.

Lemma sgn_neg (r : R) : (r < 0)%R -> sgn r = Lt.
Proof.
  intros Hr. unfold sgn.
  destruct (total_order_T r 0) as [[Hlt|Heq]|Hgt]; [reflexivity | lra | lra].
Qed.

Lemma log_Fin (r : R) : (0 < r)%R -> log (Fin r) = Fin (ln r).
Proof. intros Hr. unfold log. rewrite (sgn_pos r Hr). reflexivity. Qed.

Lemma ltb_Fin_true (x y : R) : (x < y)%R -> ltb (Fin x) (Fin y) = true.
Proof.
  intros Hlt. simpl. destruct (Rlt_dec x y); [reflexivity | contradiction].
Qed.

Lemma ltb_Fin_false (x y : R) : (y <= x)%R -> ltb (Fin x) (Fin y) = false.
Proof. intros Hle. simpl. destruct (Rlt_dec x y); [lra | reflexivity]. Qed.

Lemma div_Fin_pos (x y : R) : (0 < y)%R -> div (Fin x) (Fin y) = Fin (x / y).
Proof. intros Hy. unfold div. rewrite (sgn_pos y Hy). reflexivity. Qed.

Lemma ln_neg (x : R) : (0 < x < 1)%R -> (ln x < 0)%R.
Proof. intros [H0 H1]. rewrite <- ln_1. apply ln_increasing; assumption. Qed.

Lemma ln_pos (x : R) : (1 < x)%R -> (0 < ln x)%R.
Proof. intros H1. rewrite <- ln_1. apply ln_increasing; lra. Qed.

Lemma ln_le (x y : R) : (0 < x)%R -> (x <= y)%R -> (ln x <= ln y)%R.
Proof.
  intros H0 [Hlt | ->];
    [left; apply ln_increasing; assumption | right; reflexivity].
Qed.

(** The transform of a non-negative value is a real number. *)
Lemma transform_Fin (cc : Grid.t) (p : coord) (v : R) :
  Grid.pixt cc p = Fin v -> (0 <= v)%R ->
  transform cc p = Fin (ln (1 / 10 + v)).
Proof.
  intros Hp Hv. unfold transform. rewrite Hp. simpl add.
  apply log_Fin. lra.
Qed.

(** *** Loops over the cells *)

Lemma foldl_map {S A B : Type} (f : S -> B -> S) (g : A -> B) (s : S)
    (l : list A) :
  foldl f s (map g l) = foldl (fun s x => f s (g x)) s l.
Proof.
  revert s. induction l as [|x l IH]; intros s; simpl;
    [reflexivity | apply IH].
Qed.

Lemma foldl_cells {S : Type} (f : S -> coord -> S) (s0 : S) (li lj : list Z) :
  foldl (fun s i => foldl (fun s j => f s (i, j)) s lj) s0 li
  = foldl f s0 (flat_map (fun i => map (fun j => (i, j)) lj) li).
Proof.
  revert s0. induction li as [|i li IH]; intros s0; simpl; [reflexivity|].
  rewrite foldl_app, IH, foldl_map. reflexivity.
Qed.

Lemma cells_elem (cc : Grid.t) (p : coord) : In p (cells cc) <-> in_grid cc p.
Proof.
  unfold cells, in_grid. rewrite in_flat_map. split.
  - intros [i [Hi Hp]]. apply in_map_iff in Hp as [j [<- Hj]]. simpl.
    apply for_range_elem in Hi as [n1 [-> H1]].
    apply for_range_elem in Hj as [n2 [-> H2]]. lia.
  - intros [H1 H2]. exists p.1. split.
    + replace p.1 with (0 + Z.of_nat (Z.to_nat p.1) * 1) by lia.
      apply for_range_intro; lia.
    + apply in_map_iff. exists p.2. split; [destruct p; reflexivity|].
      replace p.2 with (0 + Z.of_nat (Z.to_nat p.2) * 1) by lia.
      apply for_range_intro; lia.
Qed.

Lemma field_max_cells (cc : Grid.t) :
  field_max cc
  = foldl (fun maxval p =>
      if ltb maxval (transform cc p) then transform cc p else maxval)
      (Fin 0) (cells cc).
Proof.
  unfold field_max, cells.
  apply (foldl_cells (fun maxval p =>
    if ltb maxval (transform cc p) then transform cc p else maxval)).
Qed.

(** The maximum of the first pass, on a field of non-negative values whose
    largest value [vmax] is above [0.9]. *)
Lemma field_max_value (cc : Grid.t) (pmax : coord) (vmax : R) :
  in_grid cc pmax -> Grid.pixt cc pmax = Fin vmax -> (9 / 10 < vmax)%R ->
  (forall q, in_grid cc q ->
     exists v, Grid.pixt cc q = Fin v /\ (0 <= v <= vmax)%R) ->
  field_max cc = Fin (ln (1 / 10 + vmax)).
Proof.
  intros Hin Hmax Hbig Hall. rewrite field_max_cells.
  set (T := ln (1 / 10 + vmax)).
  assert (0 < T)%R as HT by (apply ln_pos; lra).
  assert (forall L r, (0 <= r <= T)%R ->
            (forall q, In q L -> in_grid cc q) ->
            exists r', foldl (fun maxval p =>
                if ltb maxval (transform cc p) then transform cc p else maxval)
                (Fin r) L = Fin r'
              /\ (r <= r' <= T)%R /\ (In pmax L -> r' = T)) as Hfold.
  { induction L as [|q L IH]; intros r Hr HL; cbn [foldl].
    - exists r. split; [reflexivity|]. split; [lra | intros []].
    - destruct (Hall q (HL q (or_introl eq_refl))) as [v [Hq Hv]].
      rewrite (transform_Fin cc q v Hq) by lra.
      assert (ln (1 / 10 + v) <= T)%R as Hle by (apply ln_le; lra).
      destruct (Rlt_dec r (ln (1 / 10 + v))) as [Hlt|Hge].
      + rewrite ltb_Fin_true by exact Hlt.
        destruct (IH (ln (1 / 10 + v))) as [r' [E [Hr' Hp]]];
          [lra | intros q' Hq'; apply HL; right; exact Hq' |].
        exists r'. split; [exact E|]. split; [lra|].
        intros [->|Hin']; [|apply Hp; exact Hin'].
        rewrite Hmax in Hq. injection Hq as <-. fold T in Hr'. lra.
      + rewrite ltb_Fin_false by lra.
        destruct (IH r) as [r' [E [Hr' Hp]]];
          [lra | intros q' Hq'; apply HL; right; exact Hq' |].
        exists r'. split; [exact E|]. split; [lra|].
        intros [->|Hin']; [|apply Hp; exact Hin'].
        rewrite Hmax in Hq. injection Hq as <-. fold T in Hge. lra. }
  destruct (Hfold (cells cc) 0%R) as [r' [E [_ Hp]]];
    [lra | intros q Hq; apply cells_elem; exact Hq |].
  rewrite E, Hp; [reflexivity|]. apply cells_elem. exact Hin.
Qed.

Section CanvasFacts.
Context {Ctx : Type} `{Context2D Ctx}.

Lemma px_update_id (st : Canvas Ctx) : px_update (fun b => b) st = st.
Proof. destruct st. reflexivity. Qed.

(** A loop whose body only stores to the byte array is one sequence of
    stores. *)
Lemma foldl_px_update {A : Type} (body : Canvas Ctx -> A -> Canvas Ctx)
    (h : A -> list (Z * num)) (st : Canvas Ctx) (l : list A) :
  (forall f a, body (px_update f st) a
               = px_update (apply_writes (h a)) (px_update f st)) ->
  forall f, foldl body (px_update f st) l
            = px_update (apply_writes (flat_map h l)) (px_update f st).
Proof.
  intros Hbody. induction l as [|a l IH]; intros f; simpl.
  - reflexivity.
  - rewrite Hbody.
    change (px_update (apply_writes (h a)) (px_update f st))
      with (px_update (fun b => apply_writes (h a) (f b)) st).
    rewrite IH. unfold px_update. simpl. f_equal.
    rewrite apply_writes_app. reflexivity.
Qed.

Lemma pxfir_px (p : coord) (st : Canvas Ctx) (f : list Z -> list Z) :
  pxfir p (px_update f st)
  = px_update (apply_writes
      (pxfir_writes (zoom st) (width st) (col_r st) (col_g st) (col_b st) p))
      (px_update f st).
Proof. reflexivity. Qed.

Lemma pxfi_px_gen (p : coord) (alpha : num) (st : Canvas Ctx) f :
  pxfi p alpha (px_update f st)
  = px_update (apply_writes
      (pxfi_writes (zoom st) (width st) (col_r st) (col_g st) (col_b st)
         p alpha))
      (px_update f st).
Proof.
  unfold pxfi, pxfi_writes.
  apply (foldl_px_update
    (fun s i => foldl _ s
       (for_range 0
          (zoom s * (zoom (px_update f st) * width (px_update f st)) * 4)
          _))).
  intros f' i.
  apply (foldl_px_update (fun s j => store _ _ (store _ _ (store _ _ (store _ _ s))))).
  intros f'' j. reflexivity.
Qed.

Lemma pxfi_px (p : coord) (alpha : num) (st : Canvas Ctx) :
  pxfi p alpha st
  = px_update (apply_writes
      (pxfi_writes (zoom st) (width st) (col_r st) (col_g st) (col_b st)
         p alpha)) st.
Proof.
  rewrite <- (px_update_id st) at 1. rewrite pxfi_px_gen.
  rewrite px_update_id. reflexivity.
Qed.

Lemma col_px_update (hex : string) (st : Canvas Ctx) f :
  col hex (px_update f st) = px_update f (col hex st).
Proof. reflexivity. Qed.

Lemma pxfi_writes_elem z w r g b p alpha (wr : Z * num) :
  In wr (pxfi_writes z w r g b p alpha) ->
  exists (n1 n2 : nat) (c : Z),
    0 <= c < 4 /\
    wr.1 = (z * p.2 * (z * w) + z * p.1) * 4
           + 4 * Z.of_nat n1 + 4 * (z * w) * Z.of_nat n2 + c /\
    wr.2 = channel r g b (mul alpha (of_Z 255)) c.
Proof.
  unfold pxfi_writes. intros Hin.
  apply in_flat_map in Hin as [i [Hi Hin]].
  apply in_flat_map in Hin as [j [Hj Hin]].
  apply for_range_elem in Hi as [n1 [-> _]].
  apply for_range_elem in Hj as [n2 [-> _]].
  exists n1, n2. simpl in Hin.
  destruct Hin as [<-|[<-|[<-|[<-|[]]]]];
    [exists 0 | exists 1 | exists 2 | exists 3]; simpl;
    (split; [lia|]); (split; [lia | reflexivity]).
Qed.

(** What [pxfi] leaves in the byte array, for the byte of channel [c] of
    the pixel at column [a] and row [b] of the block of [p]. *)
Lemma pxfi_lookup (st : Canvas Ctx) (p : coord) (alpha : num)
    (a b c k : Z) :
  0 < width st -> 0 <= a < zoom st -> 0 <= b < zoom st -> 0 <= c < 4 ->
  k = (zoom st * p.2 * (zoom st * width st) + zoom st * p.1) * 4
      + 4 * a + 4 * (zoom st * width st) * b + c ->
  0 <= k -> (Z.to_nat k < length (px st))%nat ->
  px (pxfi p alpha st) !! Z.to_nat k
  = Some (ToUint8Clamp
      (channel (col_r st) (col_g st) (col_b st) (mul alpha (of_Z 255)) c)).
Proof.
  intros Hw Ha Hb Hc Hk Hk0 Hlen.
  rewrite pxfi_px. simpl. rewrite apply_writes_lookup.
  rewrite (last_write_Some _ _
    (channel (col_r st) (col_g st) (col_b st) (mul alpha (of_Z 255)) c)).
  - destruct (decide (Z.to_nat k < length (px st))%nat); [reflexivity|lia].
  - exists (k, channel (col_r st) (col_g st) (col_b st)
                 (mul alpha (of_Z 255)) c).
    split; [|simpl; split; [exact Hk0 | reflexivity]].
    unfold pxfi_writes. apply in_flat_map. exists (0 + Z.of_nat (Z.to_nat a) * 4).
    split; [apply for_range_intro; lia|].
    apply in_flat_map.
    exists (0 + Z.of_nat (Z.to_nat b) * (zoom st * width st * 4)).
    assert (0 < zoom st * width st) as HD by (apply Z.mul_pos_pos; lia).
    split.
    { apply for_range_intro; rewrite ?Z2Nat.id by lia; [lia|].
      set (D := zoom st * width st) in *.
      assert (b * D <= (zoom st - 1) * D) by (apply Z.mul_le_mono_nonneg_r; lia).
      lia. }
    rewrite !Z2Nat.id by lia. subst k.
    assert (c = 0 \/ c = 1 \/ c = 2 \/ c = 3) as Hcases by lia.
    destruct Hcases as [-> | [-> | [-> | ->]]]; simpl;
      [left | right; left | right; right; left | right; right; right; left];
      f_equal; lia.
  - intros wr Hin Hp Hn.
    apply pxfi_writes_elem in Hin as [n1 [n2 [c' [Hc' [Hi ->]]]]].
    assert (wr.1 = k) as Hwk by lia.
    assert (c' = c) as ->; [|reflexivity].
    rewrite Hi in Hwk. subst k.
    set (X := zoom st * width st * Z.of_nat n2) in *.
    set (Y := zoom st * width st * b) in *.
    lia.
Qed.

(** *** Lines along the sides of a pixel *)

Lemma pxdrawl_px (p : coord) (st : Canvas Ctx) f :
  pxdrawl p (px_update f st)
  = px_update (apply_writes
      (pxdrawl_writes (zoom st) (width st) (col_r st) (col_g st) (col_b st) p))
      (px_update f st).
Proof.
  unfold pxdrawl, pxdrawl_writes.
  apply (foldl_px_update (fun s i => pxfir (zoom s * p.1, i) s)).
  intros f' i. reflexivity.
Qed.

Lemma pxdrawr_px (p : coord) (st : Canvas Ctx) f :
  pxdrawr p (px_update f st)
  = px_update (apply_writes
      (pxdrawr_writes (zoom st) (width st) (col_r st) (col_g st) (col_b st) p))
      (px_update f st).
Proof.
  unfold pxdrawr, pxdrawr_writes.
  apply (foldl_px_update (fun s i => pxfir (zoom s * (p.1 + 1), i) s)).
  intros f' i. reflexivity.
Qed.

Lemma pxdrawd_px (p : coord) (st : Canvas Ctx) f :
  pxdrawd p (px_update f st)
  = px_update (apply_writes
      (pxdrawd_writes (zoom st) (width st) (col_r st) (col_g st) (col_b st) p))
      (px_update f st).
Proof.
  unfold pxdrawd, pxdrawd_writes.
  apply (foldl_px_update (fun s i => pxfir (i, zoom s * (p.2 + 1)) s)).
  intros f' i. reflexivity.
Qed.

Lemma pxdrawu_px (p : coord) (st : Canvas Ctx) f :
  pxdrawu p (px_update f st)
  = px_update (apply_writes
      (pxdrawu_writes (zoom st) (width st) (col_r st) (col_g st) (col_b st) p))
      (px_update f st).
Proof.
  unfold pxdrawu, pxdrawu_writes.
  apply (foldl_px_update (fun s i => pxfir (i, zoom s * p.2) s)).
  intros f' i. reflexivity.
Qed.

Lemma border_step_px (m : Model.t) (kind : Z) (x : coord * Z)
    (st : Canvas Ctx) f :
  border_step m kind x (px_update f st)
  = px_update (apply_writes
      (border_writes m kind (zoom st) (width st)
         (col_r st) (col_g st) (col_b st) (p2pdraw x.1 st) x.2))
      (px_update f st).
Proof.
  unfold border_step, border_writes.
  change (p2pdraw x.1 (px_update f st)) with (p2pdraw x.1 st).
  destruct ((kind <? 0) || (Model.cellKind m x.2 =? kind)); [|reflexivity].
  cbv zeta.
  repeat match goal with
         | |- context [negb (?a =? ?b)] => destruct (negb (a =? b))
         end;
    rewrite ?pxdrawl_px, ?pxdrawr_px, ?pxdrawd_px, ?pxdrawu_px;
    unfold px_update; simpl; f_equal;
    rewrite ?apply_writes_app, ?app_nil_r; reflexivity.
Qed.

Lemma px_update_fix (f : list Z -> list Z) (st : Canvas Ctx) :
  f (px st) = px st -> px_update f st = st.
Proof.
  destruct st. unfold px_update. simpl. intros E. rewrite E. reflexivity.
Qed.





(** What [drawCellBorders] stores, all in all. *)
Lemma drawCellBorders_px (kind : Z) (c : option string) (st : Canvas Ctx)
    (m : Model.t) :
  C st = Some m ->
  let st1 := getImageData (col (or_black c) st) in
  drawCellBorders kind c st
  = Normal (putImageData (px_update (apply_writes
      (flat_map (fun x =>
         border_writes m kind (zoom st) (width st)
           (col_r st1) (col_g st1) (col_b st1) (p2pdraw x.1 st) x.2)
         (Model.cellBorderPixels m))) st1)).
Proof.
  intros HC. unfold drawCellBorders. simpl. rewrite HC. do 2 f_equal.
  unfold getImageData at 1.
  rewrite (foldl_px_update (fun s x => border_step m kind x s)
    (fun x => border_writes m kind (zoom st) (width st)
       (parseInt16 (substr (or_black c) 0 2))
       (parseInt16 (substr (or_black c) 2 2))
       (parseInt16 (substr (or_black c) 4 2)) (p2pdraw x.1 st) x.2)).
  - reflexivity.
  - intros f x. apply border_step_px.
Qed.

(** C6.  [pxfi] overwrites: after two writes to the pixel [p], with the
    alphas [a1] and then [a2], the canvas is what the second write alone
    leaves, also when the colour is changed between the two; and every
    byte of the block of [p] that lies in the array holds the current
    channel, the alpha byte holding [a2 * 255] as the array converts it.
    Nothing of the first write is left. *)
Theorem pxfi_last_write_wins (st : Canvas Ctx) (p : coord) (a1 a2 : num) :
  pxfi p a2 (pxfi p a1 st) = pxfi p a2 st
  /\ (forall hex, pxfi p a2 (col hex (pxfi p a1 st)) = pxfi p a2 (col hex st))
  /\ (forall a b c k : Z,
        0 < width st -> 0 <= a < zoom st -> 0 <= b < zoom st -> 0 <= c < 4 ->
        k = (zoom st * p.2 * (zoom st * width st) + zoom st * p.1) * 4
            + 4 * a + 4 * (zoom st * width st) * b + c ->
        0 <= k -> (Z.to_nat k < length (px st))%nat ->
        px (pxfi p a2 (pxfi p a1 st)) !! Z.to_nat k
        = Some (ToUint8Clamp
            (channel (col_r st) (col_g st) (col_b st)
               (mul a2 (of_Z 255)) c))).
Proof.
  assert (forall s : Canvas Ctx, pxfi p a2 (pxfi p a1 s) = pxfi p a2 s) as Hover.
  { intros s. rewrite (pxfi_px p a1 s), pxfi_px_gen, (pxfi_px p a2 s).
    unfold px_update. simpl. f_equal.
    apply apply_writes_overwrite. intros k Hk.
    rewrite (pxfi_writes_indices _ _ _ _ _ _ _ (col_r s) (col_g s) (col_b s) a1).
    exact Hk. }
  split; [apply Hover|]. split.
  - intros hex.
    rewrite (pxfi_px p a1 st), col_px_update, pxfi_px_gen,
      (pxfi_px p a2 (col hex st)).
    unfold px_update. simpl. f_equal.
    apply apply_writes_overwrite. intros k Hk.
    erewrite pxfi_writes_indices. exact Hk.
  - intros a b c k Hw Ha Hb Hc Hk Hk0 Hlen. rewrite Hover.
    apply (pxfi_lookup st p a2 a b c k); assumption.
Qed.

(** C10.  [clear] works on the drawing context alone: it sets the fill
    style and fills the rectangle of the whole canvas, and leaves the three
    channels and the byte array as they are.  So a [pxfi] after
    [col( hex )] and [clear( c )] stores the channels parsed from [hex],
    whatever the colour [c] is. *)
Theorem clear_keeps_channels (st : Canvas Ctx) (hex : string)
    (c : option string) (p : coord) (alpha : num) :
  ctx (clear c st)
    = ctx_fillRect (ctx_set_fillStyle (ctx st) (String.append "#" (or_black c)))
        0 0 (width st * zoom st) (height st * zoom st)
  /\ col_r (clear c st) = col_r st
  /\ col_g (clear c st) = col_g st
  /\ col_b (clear c st) = col_b st
  /\ px (clear c st) = px st
  /\ pxfi p alpha (clear c st) = clear c (pxfi p alpha st)
  /\ px (pxfi p alpha (clear c (col hex st)))
     = apply_writes
         (pxfi_writes (zoom st) (width st)
            (parseInt16 (substr hex 0 2)) (parseInt16 (substr hex 2 2))
            (parseInt16 (substr hex 4 2)) p alpha)
         (px st).
Proof.
  repeat (split; [reflexivity|]). split.
  - rewrite (pxfi_px p alpha (clear c st)).
    rewrite (pxfi_px p alpha st). reflexivity.
  - rewrite pxfi_px. reflexivity.
Qed.

(** [drawField] is its first pass followed by one [pxfi] per cell. *)
Lemma drawField_run (st : Canvas Ctx) (cc : Grid.t) (c : option string) :
  drawField (Some cc) c st
  = ctx_update (fun x => ctx_set_globalAlpha x (Fin 1))
      (putImageData
         (foldl (fun s pa => pxfi pa.1 pa.2 s)
            (getImageData (col (default "0000FF"%string c) st))
            (drawField_calls cc))).
Proof.
  unfold drawField, drawField_calls, cells. simpl default.
  rewrite (foldl_cells
    (fun s p => pxfi p (div (transform cc p) (field_max cc)) s)).
  rewrite foldl_map. reflexivity.
Qed.

(** C3.  On a field of two cells with the values [0] and [10], the
    maximum of the first pass is [log(10.1)]; [drawField] calls [pxfi]
    for the two cells and no other, with alpha [1] for the cell of value
    [10] and alpha [log(0.1) / log(10.1)] for the cell of value [0]. *)
Theorem drawField_two_values (st : Canvas Ctx) (cc : Grid.t)
    (c : option string) (pz pm : coord) :
  Grid.extents cc = (2, 1) \/ Grid.extents cc = (1, 2) ->
  in_grid cc pz -> in_grid cc pm ->
  Grid.pixt cc pz = Fin 0 -> Grid.pixt cc pm = Fin 10 ->
  field_max cc = Fin (ln (101 / 10))
  /\ (forall p a, In (p, a) (drawField_calls cc) <->
        (p = pm /\ a = Fin 1)
        \/ (p = pz /\ a = Fin (ln (1 / 10) / ln (101 / 10))))
  /\ drawField (Some cc) c st
     = ctx_update (fun x => ctx_set_globalAlpha x (Fin 1))
         (putImageData
            (foldl (fun s pa => pxfi pa.1 pa.2 s)
               (getImageData (col (default "0000FF"%string c) st))
               (drawField_calls cc))).
Proof.
  intros Hext Hz Hm Hvz Hvm.
  assert (forall q, in_grid cc q -> q = pz \/ q = pm) as Hcells.
  { assert (pz <> pm) as Hne.
    { intros ->. rewrite Hvz in Hvm. injection Hvm as E. lra. }
    intros q Hq. unfold in_grid in *.
    destruct pz as [z1 z2], pm as [m1 m2], q as [q1 q2]. simpl in *.
    assert (z1 <> m1 \/ z2 <> m2) as Hd.
    { destruct (Z.eq_dec z1 m1) as [->|]; [|left; assumption].
      destruct (Z.eq_dec z2 m2) as [->|]; [|right; assumption].
      contradiction. }
    assert ((q1 = z1 /\ q2 = z2) \/ (q1 = m1 /\ q2 = m2)) as [[-> ->]|[-> ->]];
      [|left; reflexivity | right; reflexivity].
    destruct Hext as [E|E]; rewrite E in *; simpl in *; lia. }
  assert (field_max cc = Fin (ln (101 / 10))) as Hmax.
  { rewrite (field_max_value cc pm 10 Hm Hvm).
    - do 2 f_equal. lra.
    - lra.
    - intros q Hq. destruct (Hcells q Hq) as [->| ->];
        [exists 0%R | exists 10%R]; (split; [assumption | lra]). }
  assert (0 < ln (101 / 10))%R as Hpos by (apply ln_pos; lra).
  split; [exact Hmax|]. split; [|apply drawField_run].
  intros p a. unfold drawField_calls. rewrite in_map_iff, Hmax. split.
  - intros [q [E Hq]]. apply cells_elem in Hq. injection E as <- <-.
    destruct (Hcells q Hq) as [->| ->]; [right | left]; (split; [reflexivity|]).
    + rewrite (transform_Fin cc pz 0 Hvz) by lra.
      rewrite div_Fin_pos by exact Hpos. do 3 f_equal. lra.
    + rewrite (transform_Fin cc pm 10 Hvm) by lra.
      rewrite div_Fin_pos by exact Hpos. f_equal.
      replace (1 / 10 + 10)%R with (101 / 10)%R by lra.
      apply Rdiv_diag. lra.
  - intros [[-> ->]|[-> ->]]; [exists pm | exists pz];
      (split; [|apply cells_elem; assumption]); f_equal.
    + rewrite (transform_Fin cc pm 10 Hvm) by lra.
      rewrite div_Fin_pos by exact Hpos. f_equal.
      replace (1 / 10 + 10)%R with (101 / 10)%R by lra.
      apply Rdiv_diag. lra.
    + rewrite (transform_Fin cc pz 0 Hvz) by lra.
      rewrite div_Fin_pos by exact Hpos. do 3 f_equal. lra.
Qed.

(** *** Contours *)

Lemma foldl_fixed {S A : Type} (f : S -> A -> S) (s : S) (l : list A) :
  (forall s x, f s x = s) -> foldl f s l = s.
Proof.
  intros Hf. induction l as [|x l IH]; simpl; [reflexivity|].
  rewrite Hf. exact IH.
Qed.

(** The first pass of [drawFieldContour] on a field of non-negative
    values: [minval] stays at [log(0.1)] and [maxval] is not negative. *)
Lemma field_range_nonneg (cc : Grid.t) :
  (forall p, exists v, Grid.pixt cc p = Fin v /\ (0 <= v)%R) ->
  exists M, field_range cc = (Fin M, Fin (ln (1 / 10))) /\ (0 <= M)%R.
Proof.
  intros Hall. unfold field_range.
  rewrite (foldl_cells (fun mm p =>
    (if ltb mm.1 (transform cc p) then transform cc p else mm.1,
     if gtb mm.2 (transform cc p) then transform cc p else mm.2))).
  rewrite log_Fin by lra.
  fold (cells cc). generalize (cells cc). intros L.
  assert (forall M0, (0 <= M0)%R ->
    exists M, foldl (fun mm p =>
        (if ltb mm.1 (transform cc p) then transform cc p else mm.1,
         if gtb mm.2 (transform cc p) then transform cc p else mm.2))
        (Fin M0, Fin (ln (1 / 10))) L = (Fin M, Fin (ln (1 / 10)))
      /\ (0 <= M)%R) as Hfold; [|apply Hfold; lra].
  induction L as [|q L IH]; intros M0 HM0; cbn [foldl].
  - exists M0. split; [reflexivity | exact HM0].
  - destruct (Hall q) as [v [Hq Hv]].
    rewrite (transform_Fin cc q v Hq Hv). cbn [fst snd].
    assert (ln (1 / 10) <= ln (1 / 10 + v))%R as Hle by (apply ln_le; lra).
    unfold gtb.
    rewrite (ltb_Fin_false (ln (1 / 10 + v)) (ln (1 / 10))) by exact Hle.
    destruct (Rlt_dec M0 (ln (1 / 10 + v))) as [Hlt|Hge].
    + rewrite ltb_Fin_true by exact Hlt. apply IH. lra.
    + rewrite ltb_Fin_false by lra. apply IH. exact HM0.
Qed.

(** No neighbour is strictly below the level [log(0.1)]. *)
Lemma crossing_floor (g cc : Grid.t) (ns : list Z) (above : bool) :
  (forall p, exists v, Grid.pixt cc p = Fin v /\ (0 <= v)%R) ->
  crossing g cc (Fin (ln (1 / 10))) ns false above = false.
Proof.
  intros Hall. revert above.
  induction ns as [|n ns IH]; intros above; cbn [crossing]; [reflexivity|].
  destruct (Hall (Grid.i2p g n)) as [v [Hq Hv]].
  fold (transform cc (Grid.i2p g n)).
  rewrite (transform_Fin cc _ v Hq Hv).
  rewrite ltb_Fin_false by (apply ln_le; lra).
  rewrite andb_false_r. apply IH.
Qed.

(** With [nsteps = 1] the only level is [log(0.1)], and nothing is drawn
    for it, whatever the neighbourhoods are. *)
Lemma contour_one_step (st : Canvas Ctx) (cc : Grid.t) (c : option string)
    (fuel : nat) :
  (forall p, exists v, Grid.pixt cc p = Fin v /\ (0 <= v)%R) ->
  (2 <= fuel)%nat ->
  drawFieldContour fuel (Some cc) (Some (Fin 1)) c st
  = Some (putImageData (getImageData (col (default "FFFF00"%string c) st))).
Proof.
  intros Hall Hfuel. unfold drawFieldContour. simpl default.
  destruct (field_range_nonneg cc Hall) as [M [-> HM]].
  assert (ln (1 / 10) < 0)%R as Hneg by (apply ln_neg; lra).
  destruct fuel as [|[|fuel]]; [lia | lia |]. cbn [level_loop].
  rewrite ltb_Fin_true by lra.
  assert (forall s : Canvas Ctx,
            contour_level cc (Fin M) (Fin (ln (1 / 10))) (Fin (ln (1 / 10))) s
            = s) as ->.
  { intros s. unfold contour_level.
    apply foldl_fixed. intros s1 i. apply foldl_fixed. intros s2 j.
    rewrite (crossing_floor _ _ _ _ Hall).
    destruct (ltb _ _); reflexivity. }
  cbn [sub neg add]. rewrite div_Fin_pos by lra. cbn [add].
  rewrite ltb_Fin_false by lra. reflexivity.
Qed.

(** C2, as the code has it.  On the step field ([0] where [x < 5], [100]
    elsewhere) and with [nsteps = 1], [drawFieldContour] returns, given
    fuel for two tests of its loop, and has called [pxfi] for no cell: the
    canvas is what [col], [getImageData] and [putImageData] alone leave. *)
Theorem drawFieldContour_step_field (st : Canvas Ctx) (cc : Grid.t)
    (c : option string) (fuel : nat) :
  (2 <= fuel)%nat ->
  (forall x y, Grid.pixt cc (x, y) = if x <? 5 then Fin 0 else Fin 100) ->
  drawFieldContour fuel (Some cc) (Some (Fin 1)) c st
  = Some (putImageData (getImageData (col (default "FFFF00"%string c) st))).
Proof.
  intros Hfuel Hstep. apply contour_one_step; [|exact Hfuel].
  intros [x y]. rewrite Hstep.
  destruct (x <? 5); [exists 0%R | exists 100%R]; (split; [reflexivity | lra]).
Qed.

Lemma crossing_as_exists (g cc : Grid.t) (v : num) (ns : list Z)
    (below above : bool) :
  above && below = false ->
  crossing g cc v ns below above
  = (below || existsb (fun n => ltb (transform cc (Grid.i2p g n)) v) ns)
    && (above || existsb (fun n => geb (transform cc (Grid.i2p g n)) v) ns).
Proof.
  revert below above.
  induction ns as [|n ns IH]; intros below above Hab; cbn [crossing existsb].
  - rewrite !orb_false_r, andb_comm. symmetry. exact Hab.
  - fold (transform cc (Grid.i2p g n)).
    destruct (ltb (transform cc (Grid.i2p g n)) v) eqn:Eb;
      destruct (geb (transform cc (Grid.i2p g n)) v) eqn:Ea;
      destruct below, above; try discriminate Hab; cbn [andb orb];
      try reflexivity; rewrite IH by reflexivity; cbn [andb orb];
      reflexivity.
Qed.

Lemma foldl_ext_inv {S A : Type} (P : S -> Prop) (f f' : S -> A -> S)
    (s : S) (l : list A) :
  P s ->
  (forall s x, P s -> f s x = f' s x) ->
  (forall s x, P s -> P (f' s x)) ->
  foldl f s l = foldl f' s l /\ P (foldl f' s l).
Proof.
  intros Hs Hext Hinv. revert s Hs.
  induction l as [|x l IH]; intros s Hs; simpl; [split; [reflexivity|exact Hs]|].
  rewrite (Hext s x Hs). apply IH. apply Hinv. exact Hs.
Qed.

Lemma pxfi_grid (p : coord) (alpha : num) (st : Canvas Ctx) :
  grid (pxfi p alpha st) = grid st.
Proof. rewrite pxfi_px. reflexivity. Qed.

(** One level of [drawFieldContour] is one level of the rendering on the
    grid that mixes the values of [cc] with the neighbourhoods and
    conversions of the grid of the canvas. *)
Lemma contour_level_mix (cc : Grid.t) (maxval minval v : num)
    (st : Canvas Ctx) :
  contour_level cc maxval minval v st
  = spec_level (mix_grid (grid st) cc) maxval minval v st
  /\ grid (spec_level (mix_grid (grid st) cc) maxval minval v st) = grid st.
Proof.
  unfold contour_level, spec_level.
  rewrite (foldl_cells (fun s p =>
    if ltb (abs (sub v (transform cc p))) (mul (Fin (5 / 100)) maxval)
    then if crossing (grid s) cc v
              (Grid.neighNeumanni (grid s) (Grid.p2i (grid s) p)) false false
         then pxfi p
                (add (mul (Fin (7 / 10))
                        (div (sub v minval) (sub maxval minval)))
                     (Fin (3 / 10))) s
         else s
    else s)).
  change (cells (mix_grid (grid st) cc)) with (cells cc).
  fold (cells cc).
  apply (foldl_ext_inv (fun s => grid s = grid st)).
  - reflexivity.
  - intros s p Hs. rewrite Hs.
    rewrite crossing_as_exists by reflexivity.
    unfold spec_crossing. cbn [orb].
    destruct (ltb (abs _) _); reflexivity.
  - intros s p Hs. destruct (_ && _); [|exact Hs].
    rewrite pxfi_grid. exact Hs.
Qed.

Lemma level_loop_mix (cc : Grid.t) (maxval minval step : num) (fuel : nat)
    (v : num) (st : Canvas Ctx) (g : Grid.t) :
  grid st = g ->
  level_loop fuel (contour_level cc maxval minval) maxval step v st
  = level_loop fuel (spec_level (mix_grid g cc) maxval minval)
      maxval step v st.
Proof.
  revert v st. induction fuel as [|fuel IH]; intros v st Hg; cbn [level_loop];
    [reflexivity|].
  destruct (ltb v maxval); [|reflexivity].
  destruct (contour_level_mix cc maxval minval v st) as [-> Hgrid].
  rewrite Hg in *. apply IH. exact Hgrid.
Qed.

(** C9.  [drawFieldContour( cc )] on a canvas made for another grid is the
    contour rendering of the grid that has the extents and the values of
    [cc] and the neighbourhoods and index conversions of the grid of the
    canvas.  The neighbourhoods and conversions of [cc] itself are never
    used: a grid [cc'] with the extents and values of [cc] gives the same
    result. *)
Theorem drawFieldContour_mixes_grids (st : Canvas Ctx) (cc cc' : Grid.t)
    (fuel : nat) (nsteps : option num) (c : option string) :
  Grid.extents cc' = Grid.extents cc ->
  (forall p, Grid.pixt cc' p = Grid.pixt cc p) ->
  drawFieldContour fuel (Some cc) nsteps c st
  = drawContours_spec fuel (mix_grid (grid st) cc) nsteps c st
  /\ drawFieldContour fuel (Some cc') nsteps c st
     = drawFieldContour fuel (Some cc) nsteps c st.
Proof.
  intros Hext Hpix.
  assert (forall d : Grid.t,
    drawFieldContour fuel (Some d) nsteps c st
    = drawContours_spec fuel (mix_grid (grid st) d) nsteps c st) as Hmix.
  { intros d. unfold drawFieldContour, drawContours_spec. simpl default.
    change (field_range (mix_grid (grid st) d)) with (field_range d).
    destruct (field_range d) as [maxval minval]. cbn [fst snd].
    rewrite (level_loop_mix d maxval minval _ fuel _ _ (grid st));
      reflexivity. }
  split; [apply Hmix|].
  rewrite !Hmix. f_equal. unfold mix_grid. rewrite Hext. f_equal.
  apply functional_extensionality. exact Hpix.
Qed.

(** C8.  Without a constraint argument [drawActivityValues] throws its
    message when no constraint of the model holds activity values.
    Otherwise it completes normally, and what it leaves is the run of its
    loop with the first such constraint of [soft_constraints]: that
    constraint gives the activity and the [MAX_ACT] of every cell pixel,
    the later ones are never read, and the call is the call with that
    constraint as argument. *)
Theorem drawActivityValues_provider (st : Canvas Ctx) (m : Model.t)
    (kind : Z) (colf : option (num -> num * num * num)) :
  C st = Some m ->
  ((forall c, In c (Model.soft_constraints m) -> is_activity c = false) ->
   drawActivityValues kind None colf st
   = Throw "Cannot find activity values to draw!")
  /\ (forall before c after,
        Model.soft_constraints m = before ++ c :: after ->
        (forall c', In c' before -> is_activity c' = false) ->
        is_activity c = true ->
        drawActivityValues kind None colf st
        = Normal (putImageData
            (foldl (fun s x =>
               activity_step m kind c (default default_gradient colf) x s)
               (let s1 := getImageData (col "FF0000" st) in
                set_rgb (col_r s1) (col_g s1) (of_Z 0) s1)
               (Model.cellPixels m)))
        /\ drawActivityValues kind None colf st
           = drawActivityValues kind (Some c) colf st).
Proof.
  intros HC. unfold drawActivityValues. rewrite HC. split.
  - intros Hnone. rewrite (first_activity_none _ Hnone). reflexivity.
  - intros before c after Hcs Hbefore Hc.
    rewrite Hcs, (first_activity_first _ _ _ Hbefore Hc).
    split; reflexivity.
Qed.

End CanvasFacts.

(** ** Export *)

(** C7 at a failing input.  An error of the write whose code is [ENOENT]
    is replaced by a message with the path; an error with any other code is
    caught and dropped, and [writePNG] returns as if the file had been
    written. *)
Theorem writePNG_drops_other_errors (fname : string) (err : js_error) :
  (code err = Some "ENOENT"%string ->
   writePNG fname (Raised err) = Throw (writePNG_message fname))
  /\ (code err <> Some "ENOENT"%string ->
      writePNG fname (Raised err) = Normal tt).
Proof.
  unfold writePNG. destruct (code err) as [c|]; split; intros Hc.
  - injection Hc as ->. reflexivity.
  - destruct (String.eqb_spec c "ENOENT") as [->|Hne];
      [contradiction | reflexivity].
  - discriminate Hc.
  - reflexivity.
Qed.

(** The write fails for want of permission: [writePNG] returns. *)
Lemma writePNG_drops_other_errors_witness :
  code permission_denied <> Some "ENOENT"%string
  /\ writePNG "output/img/frame.png" (Raised permission_denied) = Normal tt.
Proof.
  assert (code permission_denied <> Some "ENOENT"%string) as Hc
    by discriminate.
  split; [exact Hc|].
  exact (proj2 (writePNG_drops_other_errors "output/img/frame.png"
                  permission_denied) Hc).
Defined.

(** ** Runs on concrete canvases *)

Ltac compute_term t :=
  let v := eval vm_compute in t in change t with v.



(** Two half-transparent writes to the pixel [(1, 0)] of a canvas at zoom
    2: the alpha byte of the first pixel of the block. *)
Lemma pxfi_last_write_wins_witness :
  let st := getImageData (col "FF0000" two_cells_canvas) in
  0 < width st /\ 0 <= 0 < zoom st /\ 0 <= 3 < 4
  /\ 11 = (zoom st * 0 * (zoom st * width st) + zoom st * 1) * 4
          + 4 * 0 + 4 * (zoom st * width st) * 0 + 3
  /\ (Z.to_nat 11 < length (px st))%nat
  /\ px (pxfi (1, 0) (Fin (1 / 4)) (pxfi (1, 0) (Fin (1 / 2)) st))
       !! Z.to_nat 11
     = Some (ToUint8Clamp
         (channel (col_r st) (col_g st) (col_b st)
            (mul (Fin (1 / 4)) (of_Z 255)) 3)).
Proof.
  intros st.
  assert (0 < width st) as H1 by reflexivity.
  assert (0 <= 0 < zoom st) as H2 by (split; [lia | reflexivity]).
  assert (0 <= 3 < 4) as H3 by lia.
  assert (11 = (zoom st * 0 * (zoom st * width st) + zoom st * 1) * 4
               + 4 * 0 + 4 * (zoom st * width st) * 0 + 3) as H4
    by reflexivity.
  assert (Z.to_nat 11 < length (px st))%nat as H5 by (vm_compute; lia).
  split; [exact H1|]. split; [exact H2|]. split; [exact H3|].
  split; [exact H4|]. split; [exact H5|].
  refine (proj2 (proj2 (pxfi_last_write_wins st (1, 0) (Fin (1 / 2))
                          (Fin (1 / 4)))) 0 0 3 11 H1 H2 H2 H3 H4 _ H5).
  lia.
Defined.

(** C5 at the input of the claim.  With [wrap = [200, 0]], [p2pdraw] takes
    the pixel [(201, 5)] to [(1, 5)], but [drawCells] hands the pixel to
    [pxfi] as it is: the buffer pixel [(1, 5)] stays as it was and the
    block is stored 201 pixels into row 5 of a buffer 200 pixels wide, that
    is at the buffer pixel [(1, 6)]. *)
Theorem drawCells_does_not_wrap :
  p2pdraw (201, 5) wrapped_canvas = (1, 5)
  /\ exists st', drawCells (-1) None wrapped_canvas = Normal st'
       /\ alpha_at st' 1 5 = Some 0
       /\ alpha_at st' 1 6 = Some 255.
Proof.
  split; [reflexivity|].
  eexists. split; [reflexivity|].
  set (st1 := getImageData (col_if_string None wrapped_canvas)).
  unfold alpha_at.
  change (px (putImageData ?s)) with (px s).
  change (zoom (putImageData _)) with 1.
  change (width (putImageData _)) with 200.
  split.
  - simpl foldl. rewrite pxfi_px.
    change (px (px_update ?f ?s)) with (f (px s)).
    rewrite apply_writes_lookup.
    match goal with
    | |- context [Z.to_nat ?k] => compute_term (Z.to_nat k)
    end.
    match goal with
    | |- context [last_write ?n ?l] => compute_term (last_write n l)
    end.
    vm_compute. reflexivity.
  - simpl foldl.
    match goal with |- context [Z.to_nat ?k] => compute_term k end.
    rewrite (pxfi_lookup st1 (201, 5) (of_Z 1) 0 0 3 4807).
    + change (channel _ _ _ ?a 3) with a.
      rewrite mul_of_Z, ToUint8Clamp_of_Z. reflexivity.
    + reflexivity.
    + split; [lia|reflexivity].
    + split; [lia|reflexivity].
    + lia.
    + reflexivity.
    + lia.
    + apply Nat.ltb_lt. vm_compute. reflexivity.
Qed.

(** C4, as it is stated, fails.  The field with the single value [0]: the
    maximum of the first pass stays at its initial [0], the alpha of the
    cell is [log(0.1) / 0], that is [-Infinity], and the array stores it
    as [0]: after [drawField] the cell of the largest value is fully
    transparent. *)
Lemma drawField_zero_field :
  in_grid zero_field (0, 0)
  /\ Grid.pixt zero_field (0, 0) = Fin 0
  /\ drawField_calls zero_field = [((0, 0), NInf)]
  /\ ~ In ((0, 0), Fin 1) (drawField_calls zero_field)
  /\ alpha_at (drawField (Some zero_field) None zero_canvas) 0 0 = Some 0.
Proof.
  assert (ln (1 / 10 + 0) < 0)%R as Hneg by (apply ln_neg; lra).
  assert (drawField_calls zero_field = [((0, 0), NInf)]) as Hcalls.
  { unfold drawField_calls. rewrite field_max_cells.
    change (cells zero_field) with [(0, 0)]. cbn [map foldl].
    rewrite (transform_Fin zero_field (0, 0) 0 eq_refl) by lra.
    rewrite ltb_Fin_false by lra.
    unfold div. rewrite sgn_zero. rewrite (sgn_neg _ Hneg). reflexivity. }
  split; [unfold in_grid; simpl; lia|]. split; [reflexivity|].
  split; [exact Hcalls|]. split.
  - rewrite Hcalls. intros [E|[]]. discriminate E.
  - rewrite drawField_run, Hcalls. cbn [foldl fst snd].
    unfold alpha_at.
    change (px (ctx_update ?f (putImageData ?s))) with (px s).
    change (zoom (ctx_update _ _)) with 1.
    change (width (ctx_update _ _)) with 1.
    match goal with |- context [Z.to_nat ?k] => compute_term k end.
    rewrite (pxfi_lookup _ (0, 0) NInf 0 0 3 3).
    + change (channel _ _ _ ?a 3) with a.
      unfold mul, of_Z. rewrite sgn_pos by lra. reflexivity.
    + reflexivity.
    + split; [lia|reflexivity].
    + split; [lia|reflexivity].
    + lia.
    + reflexivity.
    + lia.
    + apply Nat.ltb_lt. vm_compute. reflexivity.
Qed.

Lemma two_values_field_values (q : coord) :
  in_grid two_values_field q ->
  exists v, Grid.pixt two_values_field q = Fin v /\ (0 <= v <= 10)%R.
Proof.
  intros _. simpl.
  destruct (q.1 =? 0); [exists 0%R | exists 10%R];
    (split; [reflexivity | lra]).
Defined.

(** The same field, as the two cells of C3. *)
Lemma drawField_two_values_witness :
  (Grid.extents two_values_field = (2, 1)
   \/ Grid.extents two_values_field = (1, 2))
  /\ in_grid two_values_field (0, 0)
  /\ in_grid two_values_field (1, 0)
  /\ Grid.pixt two_values_field (0, 0) = Fin 0
  /\ Grid.pixt two_values_field (1, 0) = Fin 10
  /\ field_max two_values_field = Fin (ln (101 / 10))
  /\ In ((1, 0), Fin 1) (drawField_calls two_values_field)
  /\ In ((0, 0), Fin (ln (1 / 10) / ln (101 / 10)))
       (drawField_calls two_values_field).
Proof.
  assert (Grid.extents two_values_field = (2, 1)
          \/ Grid.extents two_values_field = (1, 2)) as H0
    by (left; reflexivity).
  assert (in_grid two_values_field (0, 0)) as H1
    by (unfold in_grid; simpl; lia).
  assert (in_grid two_values_field (1, 0)) as H2
    by (unfold in_grid; simpl; lia).
  assert (Grid.pixt two_values_field (0, 0) = Fin 0) as H3 by reflexivity.
  assert (Grid.pixt two_values_field (1, 0) = Fin 10) as H4 by reflexivity.
  destruct (drawField_two_values two_cells_canvas two_values_field None
              (0, 0) (1, 0) H0 H1 H2 H3 H4) as [Hmax [Hcalls _]].
  split; [exact H0|]. split; [exact H1|]. split; [exact H2|].
  split; [exact H3|]. split; [exact H4|]. split; [exact Hmax|].
  split; apply Hcalls; [left | right]; split; reflexivity.
Defined.

Lemma step_value_nonneg (p : coord) :
  exists v, Grid.pixt step_field p = Fin v /\ (0 <= v)%R.
Proof.
  simpl. unfold step_value.
  destruct (p.1 <? 5); [exists 0%R | exists 100%R];
    (split; [reflexivity | lra]).
Qed.

(** C2, as it is stated, fails.  On a step field of 10 by 1 pixels
    [drawFieldContour] with [nsteps = 1] leaves every byte of the buffer at
    its initial [0]: neither the pixel at [x = 4] nor the one at [x = 5] is
    painted. *)
Lemma drawFieldContour_step_unmarked :
  exists st',
    drawFieldContour 2 (Some step_field) (Some (Fin 1)) None step_canvas
    = Some st'
    /\ px st' = replicate 40 0
    /\ alpha_at st' 4 0 = Some 0 /\ alpha_at st' 5 0 = Some 0.
Proof.
  eexists. split.
  - apply contour_one_step; [exact step_value_nonneg | lia].
  - split; [reflexivity|]. split; reflexivity.
Qed.

(** The step field on its own canvas, with fuel for two tests. *)
Lemma drawFieldContour_step_field_witness :
  (2 <= 2)%nat
  /\ (forall x y, Grid.pixt step_field (x, y)
                  = if x <? 5 then Fin 0 else Fin 100)
  /\ drawFieldContour 2 (Some step_field) (Some (Fin 1)) None step_canvas
     = Some (putImageData (getImageData (col "FFFF00" step_canvas))).
Proof.
  assert (2 <= 2)%nat as H1 by lia.
  assert (forall x y, Grid.pixt step_field (x, y)
                      = if x <? 5 then Fin 0 else Fin 100) as H2
    by (intros x y; reflexivity).
  split; [exact H1|]. split; [exact H2|].
  exact (drawFieldContour_step_field step_canvas step_field None 2 H1 H2).
Defined.


(** * Further properties of the renderer *)

Section ExtraFacts.
Context {Ctx : Type} `{Context2D Ctx}.

(** ** The constructor *)

(** X1.  The canvas the constructor makes is never wider or higher than
    the grid: along an axis with a positive [wrap] its size is the smaller
    of [wrap] and the extent of the grid, along an axis with [wrap = 0] it
    is that extent.  Its zoom factor is never [0]. *)
Theorem new_Canvas_size (c : drawable) (oz : option Z)
    (ow : option (Z * Z)) :
  let st : Canvas Ctx := new_Canvas c oz ow in
  zoom st <> 0
  /\ width st <= (extents st).1 /\ height st <= (extents st).2
  /\ (0 < (wrap st).1 -> width st = Z.min (wrap st).1 (extents st).1)
  /\ (0 < (wrap st).2 -> height st = Z.min (wrap st).2 (extents st).2)
  /\ ((wrap st).1 = 0 -> width st = (extents st).1)
  /\ ((wrap st).2 = 0 -> height st = (extents st).2).
Proof.
  unfold new_Canvas. cbn [zoom width height extents wrap].
  set (ext := match c with
              | OfModel m => Model.extents m
              | OfGrid g => Grid.extents g
              end).
  set (wr := default (0, 0) ow).
  split.
  { destruct oz as [z|]; [|lia]. destruct (Z.eqb_spec z 0); lia. }
  destruct (Z.eqb_spec wr.1 0) as [E1|E1], (Z.eqb_spec wr.2 0) as [E2|E2],
    (Z.ltb_spec ext.1 wr.1), (Z.ltb_spec ext.2 wr.2); cbn [orb];
    repeat split; intros; lia.
Qed.

(** ** Wrapping *)

(** X2.  [p2pdraw] is idempotent.  Along an axis with [wrap = 0] the
    coordinate is left as it is.  Along an axis with a non-zero [wrap] the
    result is smaller than [wrap] in absolute value and keeps the sign of
    the coordinate: a coordinate from [0] up to [wrap - 1] is left as it
    is, and a negative coordinate gives a result that is not positive.
    That result is [0], the first column or row of the canvas, exactly
    when the coordinate is a multiple of [wrap]; for every other negative
    coordinate it is negative, off the canvas. *)
Theorem p2pdraw_range (st : Canvas Ctx) (p : coord) :
  p2pdraw (p2pdraw p st) st = p2pdraw p st
  /\ ((wrap st).1 <> 0 -> Z.abs (p2pdraw p st).1 < Z.abs (wrap st).1)
  /\ ((wrap st).2 <> 0 -> Z.abs (p2pdraw p st).2 < Z.abs (wrap st).2)
  /\ (0 <= p.1 < (wrap st).1 -> (p2pdraw p st).1 = p.1)
  /\ (0 <= p.2 < (wrap st).2 -> (p2pdraw p st).2 = p.2)
  /\ (p.1 < 0 -> (p2pdraw p st).1 <= 0)
  /\ (p.2 < 0 -> (p2pdraw p st).2 <= 0)
  /\ ((wrap st).1 = 0 -> (p2pdraw p st).1 = p.1)
  /\ ((wrap st).2 = 0 -> (p2pdraw p st).2 = p.2)
  /\ ((wrap st).1 <> 0 ->
      ((p2pdraw p st).1 = 0 <-> ((wrap st).1 | p.1)))
  /\ ((wrap st).2 <> 0 ->
      ((p2pdraw p st).2 = 0 <-> ((wrap st).2 | p.2)))
  /\ (p.1 < 0 -> (wrap st).1 <> 0 -> ~ ((wrap st).1 | p.1) ->
      (p2pdraw p st).1 < 0)
  /\ (p.2 < 0 -> (wrap st).2 <> 0 -> ~ ((wrap st).2 | p.2) ->
      (p2pdraw p st).2 < 0).
Proof.
  assert (forall x w : Z, w <> 0 -> x < 0 -> ~ (w | x) -> Z.rem x w < 0)
    as Hneg.
  { intros x w Hw Hx Hdiv.
    assert (Z.rem x w <> 0) by (rewrite Z.rem_divide by exact Hw; exact Hdiv).
    assert (Z.rem x w <= 0) by (apply Z.rem_nonpos; lia).
    lia. }
  unfold p2pdraw. cbn [fst snd].
  destruct (Z.eqb_spec (wrap st).1 0) as [E1|E1],
    (Z.eqb_spec (wrap st).2 0) as [E2|E2];
    rewrite ?Z.rem_rem by assumption;
    (split; [reflexivity|]);
    repeat match goal with |- _ /\ _ => split end; intros;
    try contradiction; try reflexivity; try lia;
    try (apply Z.rem_bound_abs; assumption);
    try (apply Z.rem_small; assumption);
    try (apply Z.rem_divide; assumption);
    try (apply Hneg; assumption);
    try (apply Z.rem_nonpos; lia).
Qed.

Lemma p2pdraw_idem (st : Canvas Ctx) (p : coord) :
  p2pdraw (p2pdraw p st) st = p2pdraw p st.
Proof.
  unfold p2pdraw. cbn [fst snd].
  destruct (Z.eqb_spec (wrap st).1 0), (Z.eqb_spec (wrap st).2 0);
    rewrite ?Z.rem_rem by assumption; reflexivity.
Qed.

(** X3.  [drawCellBorders] reads the labels where it draws.  [p2pdraw]
    changes the coordinate of the border pixel in place, so the round of
    the loop for the pixel [p] is the round for its wrapped image: the
    labels of [p] itself and of its own neighbours play no part. *)
Theorem border_step_wrapped (st : Canvas Ctx) (m : Model.t) (kind : Z)
    (p : coord) (id : Z) :
  border_step m kind (p, id) st = border_step m kind (p2pdraw p st, id) st.
Proof.
  unfold border_step. cbn [fst snd]. rewrite p2pdraw_idem. reflexivity.
Qed.

(** ** Blocks of pixels *)

Lemma apply_writes_lookup_other (ws : list (Z * num)) (buf : list Z)
    (n : nat) :
  (forall w, In w ws -> w.1 <> Z.of_nat n) ->
  apply_writes ws buf !! n = buf !! n.
Proof.
  intros Hno. rewrite apply_writes_lookup.
  assert (last_write n ws = None) as ->; [|reflexivity].
  apply last_write_None. intros w Hin [Hk Hn].
  apply (Hno w Hin). lia.
Qed.

Lemma for_range_nonempty (start bound step x : Z) :
  In x (for_range start bound step) -> start < bound.
Proof.
  unfold for_range. intros Hin.
  destruct (Z.to_nat (bound - start)) eqn:E; [destruct Hin | lia].
Qed.

Lemma pxfi_writes_in_block z w r g b p alpha (wr : Z * num) :
  In wr (pxfi_writes z w r g b p alpha) -> in_block z w p wr.1.
Proof.
  unfold pxfi_writes, in_block. intros Hin.
  apply in_flat_map in Hin as [i [Hi Hin]].
  apply in_flat_map in Hin as [j [Hj Hin]].
  assert (0 < z) as Hz by (apply for_range_nonempty in Hi; lia).
  assert (0 < z * w) as Hd by (apply for_range_nonempty in Hj; nia).
  apply for_range_elem in Hi as [n1 [-> H1]].
  apply for_range_elem in Hj as [n2 [-> H2]].
  exists (Z.of_nat n1), (Z.of_nat n2).
  assert (Z.of_nat n2 < z) as Hn2 by nia.
  simpl in Hin.
  destruct Hin as [<-|[<-|[<-|[<-|[]]]]];
    [exists 0 | exists 1 | exists 2 | exists 3]; simpl;
    repeat split; lia.
Qed.

Lemma pxfi_outside (st : Canvas Ctx) (p : coord) (alpha : num) (n : nat) :
  ~ in_block (zoom st) (width st) p (Z.of_nat n) ->
  px (pxfi p alpha st) !! n = px st !! n.
Proof.
  intros Hout. rewrite pxfi_px. simpl px.
  apply apply_writes_lookup_other. intros wr Hin E.
  apply Hout. rewrite <- E. exact (pxfi_writes_in_block _ _ _ _ _ _ _ _ Hin).
Qed.

(** X4.  [pxfi] changes the byte array and nothing else, keeps its length,
    and leaves every byte outside of the block of the pixel as it was. *)
Theorem pxfi_frame (st : Canvas Ctx) (p : coord) (alpha : num) :
  length (px (pxfi p alpha st)) = length (px st)
  /\ ctx (pxfi p alpha st) = ctx st
  /\ (col_r (pxfi p alpha st), col_g (pxfi p alpha st),
      col_b (pxfi p alpha st)) = (col_r st, col_g st, col_b st)
  /\ forall n : nat,
       ~ in_block (zoom st) (width st) p (Z.of_nat n) ->
       px (pxfi p alpha st) !! n = px st !! n.
Proof.
  split; [|split; [|split]].
  - rewrite pxfi_px. simpl px. apply apply_writes_length.
  - rewrite pxfi_px. reflexivity.
  - rewrite pxfi_px. reflexivity.
  - intros n. apply pxfi_outside.
Qed.

(** The block of a pixel on the canvas lies within a buffer of the size of
    the zoomed canvas. *)
Lemma block_on_canvas (z w h : Z) (p : coord) (k : Z) :
  0 < z -> 0 <= p.1 < w -> 0 <= p.2 < h ->
  in_block z w p k -> 0 <= k < z * w * (z * h) * 4.
Proof.
  intros Hz Hx Hy [a [b [c [Ha [Hb [Hc ->]]]]]].
  set (D := z * w).
  assert (0 < D) as HD by (apply Z.mul_pos_pos; lia).
  assert (0 <= z * p.1 + a < D) as Hu by (unfold D; nia).
  assert (0 <= z * p.2 + b <= z * h - 1) as Hv by nia.
  assert (0 <= (z * p.2 + b) * D <= (z * h - 1) * D) as Hvd by nia.
  split; [nia|].
  replace (D * (z * h) * 4) with (((z * h - 1) * D + D) * 4) by ring.
  replace ((z * p.2 * D + z * p.1) * 4 + 4 * a + 4 * D * b + c)
    with (((z * p.2 + b) * D + (z * p.1 + a)) * 4 + c) by ring.
  lia.
Qed.

(** X5.  For a pixel on the canvas, [pxfi] stores the whole block of [zoom]
    by [zoom] pixels: every byte of the block holds the current channel,
    the alpha byte holding [alpha * 255], when the byte array has the size
    of the zoomed canvas. *)
Theorem pxfi_paints_block (st : Canvas Ctx) (p : coord) (alpha : num)
    (a b c : Z) :
  0 < zoom st -> on_canvas st p -> buffer_sized st ->
  0 <= a < zoom st -> 0 <= b < zoom st -> 0 <= c < 4 ->
  px (pxfi p alpha st)
    !! Z.to_nat ((zoom st * p.2 * (zoom st * width st) + zoom st * p.1) * 4
                 + 4 * a + 4 * (zoom st * width st) * b + c)
  = Some (ToUint8Clamp
      (channel (col_r st) (col_g st) (col_b st) (mul alpha (of_Z 255)) c)).
Proof.
  intros Hz [Hx Hy] Hsize Ha Hb Hc.
  assert (0 <= (zoom st * p.2 * (zoom st * width st) + zoom st * p.1) * 4
               + 4 * a + 4 * (zoom st * width st) * b + c
          < zoom st * width st * (zoom st * height st) * 4) as Hk.
  { apply (block_on_canvas _ _ _ p); [assumption..|].
    exists a, b, c. repeat split; lia. }
  apply (pxfi_lookup st p alpha a b c); try assumption; try lia.
  unfold buffer_sized in Hsize. lia.
Qed.

(** Two pixels of the canvas have no byte in common. *)
Lemma blocks_disjoint (z w : Z) (p q : coord) (k : Z) :
  0 < z -> 0 <= p.1 < w -> 0 <= q.1 < w ->
  in_block z w p k -> in_block z w q k -> p = q.
Proof.
  intros Hz Hp Hq [a [b [c [Ha [Hb [Hc ->]]]]]]
    [a' [b' [c' [Ha' [Hb' [Hc' E]]]]]].
  set (D := z * w) in *.
  assert (0 < D) as HD by (apply Z.mul_pos_pos; lia).
  assert (0 <= z * p.1 + a < D) as Hu by (unfold D; nia).
  assert (0 <= z * q.1 + a' < D) as Hu' by (unfold D; nia).
  assert (c = c') as -> by lia.
  assert (D * (z * p.2 + b) + (z * p.1 + a)
          = D * (z * q.2 + b') + (z * q.1 + a')) as E2 by lia.
  apply Z.div_mod_unique in E2 as [Ev Eu]; [|left; lia|left; lia].
  assert (z * p.2 + b = z * q.2 + b') as Ev' by lia.
  apply Z.div_mod_unique in Ev' as [Ey _]; [|left; lia|left; lia].
  assert (z * p.1 + a = z * q.1 + a') as Eu' by lia.
  apply Z.div_mod_unique in Eu' as [Ex _]; [|left; lia|left; lia].
  destruct p, q. simpl in *. congruence.
Qed.

(** X6.  Painting one pixel of the canvas never touches the block of
    another: [pxfi( q )] leaves every byte of the block of [p] as it was,
    for two different pixels of the canvas. *)
Theorem pxfi_other_pixel (st : Canvas Ctx) (p q : coord) (alpha : num)
    (n : nat) :
  0 < zoom st -> 0 <= p.1 < width st -> 0 <= q.1 < width st -> p <> q ->
  in_block (zoom st) (width st) p (Z.of_nat n) ->
  px (pxfi q alpha st) !! n = px st !! n.
Proof.
  intros Hz Hp Hq Hne Hin. apply pxfi_outside. intros Hin'.
  apply Hne. exact (blocks_disjoint _ _ _ _ _ Hz Hp Hq Hin Hin').
Qed.

(** ** The edges of the canvas *)

Lemma pxfir_next_row (st : Canvas Ctx) (X Y : Z) :
  pxfir (X + zoom st * width st, Y) st = pxfir (X, Y + 1) st.
Proof.
  unfold pxfir. cbn [fst snd].
  replace ((Y * (zoom st * width st) + (X + zoom st * width st)) * 4)
    with (((Y + 1) * (zoom st * width st) + X) * 4) by ring.
  reflexivity.
Qed.

Lemma pxfir_fields (p : coord) (st : Canvas Ctx) :
  zoom (pxfir p st) = zoom st /\ width (pxfir p st) = width st.
Proof. split; reflexivity. Qed.

(** X7.  [pxfir] does not check the column: a pixel beyond the end of a
    buffer row is the pixel as far into the next row.  So the line
    [pxdrawr] draws to the right of a pixel of the last column of the
    canvas is a line in the buffer column [0], one buffer row lower. *)
Theorem pxdrawr_last_column (st : Canvas Ctx) (X Y y : Z) :
  pxfir (X + zoom st * width st, Y) st = pxfir (X, Y + 1) st
  /\ pxdrawr (width st - 1, y) st
     = foldl (fun s i => pxfir (0, i + 1) s) st
         (for_range (zoom st * y) (zoom st * (y + 1)) 1).
Proof.
  split; [apply pxfir_next_row|].
  unfold pxdrawr. cbn [fst snd].
  apply (foldl_ext_inv
    (fun s => zoom s = zoom st /\ width s = width st)).
  - split; reflexivity.
  - intros s i [Hz Hw].
    replace (zoom s * (width st - 1 + 1)) with (0 + zoom s * width s)
      by (rewrite Hw; ring).
    apply pxfir_next_row.
  - intros s i Hs. exact Hs.
Qed.

Lemma write_beyond (k : Z) (v : num) (buf : list Z) :
  k < 0 \/ Z.of_nat (length buf) <= k -> write k v buf = buf.
Proof.
  intros Hk. unfold write.
  destruct (Z.ltb_spec k 0); [reflexivity|].
  apply list_insert_ge. lia.
Qed.

Lemma apply_writes_beyond (ws : list (Z * num)) (buf : list Z) :
  (forall w, In w ws -> w.1 < 0 \/ Z.of_nat (length buf) <= w.1) ->
  apply_writes ws buf = buf.
Proof.
  induction ws as [|w ws IH]; intros Hall; [reflexivity|].
  change (apply_writes (w :: ws) buf)
    with (apply_writes ws (write w.1 w.2 buf)).
  rewrite write_beyond by (apply Hall; left; reflexivity).
  apply IH. intros w' Hin. apply Hall. right. exact Hin.
Qed.

(** X8.  The line [pxdrawd] draws below a pixel of the last row of the
    canvas lies beyond the end of the byte array: nothing is stored and
    the canvas is left as it was. *)
Theorem pxdrawd_last_row (st : Canvas Ctx) (x : Z) :
  0 < zoom st -> 0 < width st -> 0 <= x -> buffer_sized st ->
  pxdrawd (x, height st - 1) st = st.
Proof.
  intros Hz Hw Hx Hsize.
  pose proof (pxdrawd_px (x, height st - 1) st (fun b => b)) as E.
  rewrite px_update_id in E. rewrite E. apply px_update_fix.
  apply apply_writes_beyond. intros wr Hin. right.
  unfold pxdrawd_writes in Hin. cbn [fst snd] in Hin.
  apply in_flat_map in Hin as [i [Hi Hin]].
  apply for_range_elem in Hi as [n [-> _]].
  unfold buffer_sized in Hsize. rewrite Hsize.
  assert (0 <= zoom st * x) as Hzx by nia.
  set (D := zoom st * width st) in *.
  replace (zoom st * (height st - 1 + 1)) with (zoom st * height st) in Hin
    by ring.
  unfold pxfir_writes in Hin. cbn [fst snd] in Hin. fold D in Hin.
  destruct Hin as [<-|[<-|[<-|[<-|[]]]]]; cbn [fst]; nia.
Qed.

(** X9.  A pixel above or below the canvas, in a column of the canvas, is
    not drawn at all: every store of [pxfi] falls outside of the byte
    array and the canvas is left as it was. *)
Theorem pxfi_off_canvas (st : Canvas Ctx) (p : coord) (alpha : num) :
  buffer_sized st -> 0 <= p.1 < width st ->
  p.2 < 0 \/ height st <= p.2 ->
  pxfi p alpha st = st.
Proof.
  intros Hsize Hx Hy. rewrite pxfi_px. apply px_update_fix.
  apply apply_writes_beyond. intros wr Hin.
  apply pxfi_writes_in_block in Hin as [a [b [c [Ha [Hb [Hc ->]]]]]].
  unfold buffer_sized in Hsize. rewrite Hsize.
  set (D := zoom st * width st).
  assert (0 < zoom st) as Hzoom by lia.
  assert (0 < D) as HD by (apply Z.mul_pos_pos; lia).
  assert (0 <= zoom st * p.1 + a < D) as Hu by (unfold D; nia).
  replace ((zoom st * p.2 * D + zoom st * p.1) * 4 + 4 * a + 4 * D * b + c)
    with (((zoom st * p.2 + b) * D + (zoom st * p.1 + a)) * 4 + c) by ring.
  destruct Hy as [Hy|Hy].
  - left. assert (zoom st * p.2 + b <= -1) as Hv by nia.
    assert ((zoom st * p.2 + b) * D <= -1 * D) as Hvd
      by (apply Z.mul_le_mono_nonneg_r; lia).
    lia.
  - right. assert (zoom st * height st <= zoom st * p.2 + b) as Hv by nia.
    assert (zoom st * height st * D <= (zoom st * p.2 + b) * D) as Hvd
      by (apply Z.mul_le_mono_nonneg_r; lia).
    replace (D * (zoom st * height st) * 4)
      with (zoom st * height st * D * 4) by ring.
    lia.
Qed.

(** ** Sets of pixels *)

Lemma channel_write_agree r g b a w1 w2 :
  channel_write r g b a w1 -> channel_write r g b a w2 ->
  w1.1 = w2.1 -> w1.2 = w2.2.
Proof.
  intros [q1 [c1 [Hc1 [Hk1 ->]]]] [q2 [c2 [Hc2 [Hk2 ->]]]] Heq.
  assert (c1 = c2) as -> by lia. reflexivity.
Qed.

Lemma pxfi_writes_channel z w r g b p alpha :
  Forall (channel_write r g b (mul alpha (of_Z 255)))
    (pxfi_writes z w r g b p alpha).
Proof.
  apply Forall_forall. intros wr Hin. apply list_elem_of_In in Hin.
  apply pxfi_writes_elem in Hin as [n1 [n2 [c [Hc [Hi Hv]]]]].
  exists ((z * p.2 * (z * w) + z * p.1) + Z.of_nat n1
          + (z * w) * Z.of_nat n2), c.
  split; [exact Hc|]. split; [lia | exact Hv].
Qed.

(** Stores of one colour to the same indices leave the same array. *)
Lemma apply_writes_same_indices r g b a (W W' : list (Z * num))
    (buf : list Z) :
  Forall (channel_write r g b a) W -> Forall (channel_write r g b a) W' ->
  (forall k, In k (map fst W) <-> In k (map fst W')) ->
  apply_writes W buf = apply_writes W' buf.
Proof.
  intros HW HW' Hidx.
  assert (forall (V V' : list (Z * num)) n v,
            Forall (channel_write r g b a) V ->
            Forall (channel_write r g b a) V' ->
            (forall k, In k (map fst V) -> In k (map fst V')) ->
            last_write n V = Some v -> last_write n V' = Some v) as Hone.
  { intros V V' n v HV HV' Hsub E.
    apply last_write_In in E as [w1 [Hin1 [Hk1 [Hn1 <-]]]].
    destruct (proj1 (in_map_iff fst V' w1.1)) as [w2 [Hk2 Hin2]].
    { apply Hsub. apply in_map. exact Hin1. }
    rewrite Forall_forall in HV, HV'.
    apply last_write_Some.
    - exists w2. split; [exact Hin2|]. rewrite Hk2. split; assumption.
    - intros w Hin Hk Hn.
      apply (channel_write_agree r g b a).
      + apply HV'. apply list_elem_of_In. exact Hin.
      + apply HV. apply list_elem_of_In. exact Hin1.
      + lia. }
  apply list_eq. intros n. rewrite !apply_writes_lookup.
  destruct (last_write n W) as [v|] eqn:E.
  - rewrite (Hone W W' n v HW HW' (fun k => proj1 (Hidx k)) E). reflexivity.
  - destruct (last_write n W') as [v'|] eqn:E'; [|reflexivity].
    rewrite (Hone W' W n v' HW' HW (fun k => proj2 (Hidx k)) E') in E.
    discriminate E.
Qed.

(** The stores of a loop of [pxfi] over a list of pixels. *)
Lemma foldl_pxfi_px (st : Canvas Ctx) (l : list coord) (alpha : num) f :
  foldl (fun s p => pxfi p alpha s) (px_update f st) l
  = px_update (apply_writes
      (flat_map (fun p =>
         pxfi_writes (zoom st) (width st) (col_r st) (col_g st) (col_b st)
           p alpha) l))
      (px_update f st).
Proof.
  apply (foldl_px_update (fun s p => pxfi p alpha s)).
  intros f' p. apply pxfi_px_gen.
Qed.

Lemma flat_map_indices_incl {A : Type} (h : A -> list (Z * num))
    (l l' : list A) (k : Z) :
  (forall x, In x l -> In x l') ->
  In k (map fst (flat_map h l)) -> In k (map fst (flat_map h l')).
Proof.
  intros Hsub Hin.
  apply in_map_iff in Hin as [w [<- Hw]].
  apply in_flat_map in Hw as [x [Hx Hw]].
  apply in_map. apply in_flat_map. exists x. split; [apply Hsub; exact Hx|].
  exact Hw.
Qed.

(** X10.  What [drawPixelSet] leaves depends on the set of the pixels
    alone: their order in the array and repetitions play no part. *)
Theorem drawPixelSet_set (st : Canvas Ctx) (l l' : list coord)
    (c : option color) :
  (forall p, In p l <-> In p l') ->
  drawPixelSet l c st = drawPixelSet l' c st.
Proof.
  intros Hset. unfold drawPixelSet.
  set (st0 := col_if_string c st).
  unfold getImageData. rewrite !foldl_pxfi_px.
  unfold putImageData, ctx_update, px_update. cbn [px ctx C grid extents
    zoom wrap width height col_r col_g col_b]. f_equal; [f_equal|];
    apply (apply_writes_same_indices (col_r st0) (col_g st0) (col_b st0)
             (mul (of_Z 1) (of_Z 255)));
    try (apply Forall_flat_map_intro; intros p; apply pxfi_writes_channel);
    intros k; split; apply flat_map_indices_incl; intros p; apply Hset.
Qed.

Lemma foldl_filtered {S A B : Type} (g : S -> B -> S) (cond : A -> bool)
    (items : A -> list B) (s : S) (L : list A) :
  foldl (fun s e => if cond e then foldl g s (items e) else s) s L
  = foldl g s (flat_map (fun e => if cond e then items e else []) L).
Proof.
  revert s. induction L as [|e L IH]; intros s; simpl; [reflexivity|].
  rewrite foldl_app, IH. destruct (cond e); reflexivity.
Qed.

(** X11.  With a hex colour or none, [drawCells( kind )] is
    [drawPixelSet] on the pixels of the cells of that kind (of all cells
    when [kind] is negative): cells of another kind are not painted. *)
Theorem drawCells_as_pixel_set (st : Canvas Ctx) (m : Model.t) (kind : Z)
    (c : option color) :
  C st = Some m ->
  (forall f, c <> Some (ByCell f)) ->
  drawCells kind c st = Normal (drawPixelSet (pixels_of_kind m kind) c st).
Proof.
  intros HC Hc. unfold drawCells, drawPixelSet, pixels_of_kind.
  assert (C (col_if_string c st) = Some m) as ->.
  { destruct c as [[s|f]|]; exact HC. }
  do 2 f_equal.
  rewrite <- (foldl_filtered (fun s cp => pxfi cp (of_Z 1) s)
    (fun e : Z * list coord =>
       (kind <? 0) || (Model.cellKind m e.1 =? kind))
    (fun e => e.2)).
  destruct c as [[s|f]|]; [reflexivity | | reflexivity].
  exfalso. exact (Hc f eq_refl).
Qed.

Lemma pxfi_writes_intro z w r g b p alpha (a b' c : Z) :
  0 < z * w -> 0 <= a < z -> 0 <= b' < z -> 0 <= c < 4 ->
  In ((z * p.2 * (z * w) + z * p.1) * 4 + 4 * a + 4 * (z * w) * b' + c,
      channel r g b (mul alpha (of_Z 255)) c)
     (pxfi_writes z w r g b p alpha).
Proof.
  intros HD Ha Hb Hc. unfold pxfi_writes.
  apply in_flat_map. exists (0 + Z.of_nat (Z.to_nat a) * 4).
  split; [apply for_range_intro; lia|].
  apply in_flat_map. exists (0 + Z.of_nat (Z.to_nat b') * (z * w * 4)).
  split.
  { apply for_range_intro; rewrite ?Z2Nat.id by lia; [lia|].
    set (D := z * w) in *.
    assert (b' * D <= (z - 1) * D) by (apply Z.mul_le_mono_nonneg_r; lia).
    lia. }
  rewrite !Z2Nat.id by lia.
  assert (c = 0 \/ c = 1 \/ c = 2 \/ c = 3) as Hcases by lia.
  destruct Hcases as [-> | [-> | [-> | ->]]]; simpl;
    [left | right; left | right; right; left | right; right; right; left];
    f_equal; lia.
Qed.

(** The byte array after a loop whose rounds store to it and keep the zoom
    factor and the width. *)
Lemma foldl_px_writes {A : Type} (body : Canvas Ctx -> A -> Canvas Ctx)
    (h : A -> list (Z * num)) (z w : Z) (s0 : Canvas Ctx) (L : list A) :
  zoom s0 = z -> width s0 = w ->
  (forall s e, zoom s = z -> width s = w ->
     px (body s e) = apply_writes (h e) (px s)
     /\ zoom (body s e) = z /\ width (body s e) = w) ->
  px (foldl body s0 L) = apply_writes (flat_map h L) (px s0).
Proof.
  intros Hz Hw Hbody. revert s0 Hz Hw.
  induction L as [|e L IH]; intros s0 Hz Hw; simpl; [reflexivity|].
  destruct (Hbody s0 e Hz Hw) as [Hpx [Hz' Hw']].
  rewrite (IH _ Hz' Hw'), Hpx, apply_writes_app. reflexivity.
Qed.

(** The stores of [drawCells] for one cell, with a colour function. *)
Lemma cell_round_px (st : Canvas Ctx) (hex : string) (ps : list coord) :
  foldl (fun s cp => pxfi cp (of_Z 1) s) (col hex st) ps
  = px_update (apply_writes
      (flat_map (fun q =>
         pxfi_writes (zoom st) (width st)
           (parseInt16 (substr hex 0 2)) (parseInt16 (substr hex 2 2))
           (parseInt16 (substr hex 4 2)) q (of_Z 1)) ps))
      (col hex st).
Proof.
  pose proof (foldl_pxfi_px (col hex st) ps (of_Z 1) (fun b => b)) as E.
  rewrite px_update_id in E. exact E.
Qed.

(** X12.  With a colour function [f], [drawCells] paints every pixel of a
    cell in the colour [f] gives for the cell, when every pixel the
    statistic lists lies in a column of the canvas (a pixel beyond the last
    column is stored on the block of another pixel): for a pixel [p] of
    the canvas that the statistic lists for the cell [cid] (and for no cell
    of another colour), every byte of the block of [p] holds the channel
    parsed from [f cid], the alpha byte holding [255]. *)
Theorem drawCells_cell_color (st : Canvas Ctx) (m : Model.t) (kind : Z)
    (f : Z -> string) (cid : Z) (ps : list coord) (p : coord) (a b c : Z) :
  C st = Some m ->
  0 < zoom st -> on_canvas st p -> buffer_sized (getImageData st) ->
  (forall e q, In e (Model.PixelsByCell m) -> In q e.2 ->
     0 <= q.1 < width st) ->
  In (cid, ps) (Model.PixelsByCell m) -> In p ps ->
  kind < 0 \/ Model.cellKind m cid = kind ->
  (forall cid' ps', In (cid', ps') (Model.PixelsByCell m) -> In p ps' ->
     f cid' = f cid) ->
  0 <= a < zoom st -> 0 <= b < zoom st -> 0 <= c < 4 ->
  exists st',
    drawCells kind (Some (ByCell f)) st = Normal st'
    /\ px st'
         !! Z.to_nat ((zoom st * p.2 * (zoom st * width st)
                       + zoom st * p.1) * 4
                      + 4 * a + 4 * (zoom st * width st) * b + c)
       = Some (ToUint8Clamp
           (channel (parseInt16 (substr (f cid) 0 2))
              (parseInt16 (substr (f cid) 2 2))
              (parseInt16 (substr (f cid) 4 2))
              (mul (of_Z 1) (of_Z 255)) c)).
Proof.
  intros HC Hz Hp Hsize Hcols Hcell Hpin Hkind Hsame Ha Hb Hc.
  unfold drawCells. cbn [col_if_string]. rewrite HC.
  eexists. split; [reflexivity|].
  change (px (putImageData ?s)) with (px s).
  set (cond := fun e : Z * list coord =>
                 (kind <? 0) || (Model.cellKind m e.1 =? kind)).
  set (h := fun e : Z * list coord =>
    if cond e then
      flat_map (fun q =>
        pxfi_writes (zoom st) (width st)
          (parseInt16 (substr (f e.1) 0 2)) (parseInt16 (substr (f e.1) 2 2))
          (parseInt16 (substr (f e.1) 4 2)) q (of_Z 1)) e.2
    else []).
  rewrite (foldl_px_writes _ h (zoom st) (width st));
    [|reflexivity|reflexivity|].
  2:{ intros s e Hzs Hws. unfold h, cond. cbn [col_if_function].
      destruct ((kind <? 0) || (Model.cellKind m e.1 =? kind));
        [|repeat split; assumption].
      rewrite cell_round_px, Hzs, Hws. repeat split; assumption. }
  set (k := (zoom st * p.2 * (zoom st * width st) + zoom st * p.1) * 4
            + 4 * a + 4 * (zoom st * width st) * b + c).
  destruct Hp as [Hx Hy].
  assert (in_block (zoom st) (width st) p k) as Hblock.
  { exists a, b, c. repeat split; lia. }
  pose proof (block_on_canvas _ _ (height st) p k Hz Hx Hy Hblock) as Hk.
  assert (cond (cid, ps) = true) as Hcond.
  { unfold cond. cbn [fst]. destruct Hkind as [Hneg | ->].
    - destruct (Z.ltb_spec kind 0); [reflexivity | lia].
    - rewrite Z.eqb_refl. apply orb_true_r. }
  rewrite apply_writes_lookup.
  rewrite (last_write_Some _ _
    (channel (parseInt16 (substr (f cid) 0 2))
       (parseInt16 (substr (f cid) 2 2)) (parseInt16 (substr (f cid) 4 2))
       (mul (of_Z 1) (of_Z 255)) c)).
  - rewrite decide_True; [reflexivity|].
    unfold buffer_sized in Hsize.
    change (zoom (getImageData st)) with (zoom st) in Hsize.
    change (width (getImageData st)) with (width st) in Hsize.
    change (height (getImageData st)) with (height st) in Hsize.
    lia.
  - exists (k, channel (parseInt16 (substr (f cid) 0 2))
                 (parseInt16 (substr (f cid) 2 2))
                 (parseInt16 (substr (f cid) 4 2))
                 (mul (of_Z 1) (of_Z 255)) c).
    split; [|split; [cbn [fst]; lia | reflexivity]].
    apply in_flat_map. exists (cid, ps). split; [exact Hcell|].
    unfold h. rewrite Hcond. cbn [fst snd].
    apply in_flat_map. exists p. split; [exact Hpin|].
    apply pxfi_writes_intro; try assumption.
    apply Z.mul_pos_pos; lia.
  - intros wr Hin Hk0 Hn.
    apply in_flat_map in Hin as [[cid' ps'] [He Hin]].
    unfold h in Hin. destruct (cond (cid', ps')); [|destruct Hin].
    cbn [fst snd] in Hin.
    apply in_flat_map in Hin as [q [Hq Hin]].
    assert (wr.1 = k) as Hwk by lia.
    pose proof (pxfi_writes_in_block _ _ _ _ _ _ _ _ Hin) as Hblock'.
    rewrite Hwk in Hblock'.
    assert (q = p) as ->.
    { apply (blocks_disjoint (zoom st) (width st) q p k); try assumption.
      exact (Hcols (cid', ps') q He Hq). }
    rewrite (Hsame cid' ps' He Hq) in Hin.
    apply pxfi_writes_elem in Hin as [n1 [n2 [c' [Hc' [Hi ->]]]]].
    assert (c' = c) as ->; [|reflexivity].
    rewrite Hi in Hwk. unfold k in Hwk.
    set (X := zoom st * width st * Z.of_nat n2) in *.
    set (Y := zoom st * width st * b) in *.
    lia.
Qed.

(** ** The heat map on the buffer *)

(** The stores of the second pass of [drawField]. *)
Lemma drawField_px (st : Canvas Ctx) (cc : Grid.t) (c : option string) :
  let st0 := getImageData (col (default "0000FF"%string c) st) in
  px (drawField (Some cc) c st)
  = apply_writes
      (flat_map (fun pa : coord * num =>
         pxfi_writes (zoom st) (width st) (col_r st0) (col_g st0) (col_b st0)
           pa.1 pa.2)
         (drawField_calls cc))
      (px st0).
Proof.
  intros st0. rewrite drawField_run. fold st0.
  change (px (ctx_update ?F (putImageData ?s))) with (px s).
  pose proof (foldl_px_update (fun s (pa : coord * num) => pxfi pa.1 pa.2 s)
    (fun pa : coord * num =>
       pxfi_writes (zoom st0) (width st0) (col_r st0) (col_g st0) (col_b st0)
         pa.1 pa.2)
    st0 (drawField_calls cc)
    (fun f pa => pxfi_px_gen pa.1 pa.2 st0 f) (fun b => b)) as E.
  rewrite px_update_id in E. rewrite E. reflexivity.
Qed.

(** C4, as the code has it.  On a field of non-negative values whose
    largest value is above [0.9], drawn on a canvas that is at least as
    wide and as high as the field, [drawField] calls [pxfi] for the cell of
    the largest value with alpha [1], and after [drawField] every byte of
    the block of that cell holds the channel of the chosen colour, the
    alpha byte holding [255]: no other cell stores to this block. *)
Theorem drawField_max_opaque (st : Canvas Ctx) (cc : Grid.t)
    (c : option string) (pmax : coord) (vmax : R) (a b ch : Z) :
  in_grid cc pmax -> Grid.pixt cc pmax = Fin vmax -> (9 / 10 < vmax)%R ->
  (forall q, in_grid cc q ->
     exists v, Grid.pixt cc q = Fin v /\ (0 <= v <= vmax)%R) ->
  0 < zoom st ->
  (Grid.extents cc).1 <= width st -> (Grid.extents cc).2 <= height st ->
  buffer_sized (getImageData (col (default "0000FF"%string c) st)) ->
  0 <= a < zoom st -> 0 <= b < zoom st -> 0 <= ch < 4 ->
  In (pmax, Fin 1) (drawField_calls cc)
  /\ ToUint8Clamp (mul (Fin 1) (of_Z 255)) = 255
  /\ drawField (Some cc) c st
     = ctx_update (fun x => ctx_set_globalAlpha x (Fin 1))
         (putImageData
            (foldl (fun s pa => pxfi pa.1 pa.2 s)
               (getImageData (col (default "0000FF"%string c) st))
               (drawField_calls cc)))
  /\ px (drawField (Some cc) c st)
       !! Z.to_nat ((zoom st * pmax.2 * (zoom st * width st)
                     + zoom st * pmax.1) * 4
                    + 4 * a + 4 * (zoom st * width st) * b + ch)
     = Some (ToUint8Clamp
         (channel
            (parseInt16 (substr (default "0000FF"%string c) 0 2))
            (parseInt16 (substr (default "0000FF"%string c) 2 2))
            (parseInt16 (substr (default "0000FF"%string c) 4 2))
            (mul (Fin 1) (of_Z 255)) ch))
  /\ px (drawField (Some cc) c st)
       !! Z.to_nat ((zoom st * pmax.2 * (zoom st * width st)
                     + zoom st * pmax.1) * 4
                    + 4 * a + 4 * (zoom st * width st) * b + 3)
     = Some 255.
Proof.
  intros Hin Hmax Hbig Hall Hz Hwide Hhigh Hsize Ha Hb Hc.
  assert (In (pmax, Fin 1) (drawField_calls cc)) as Hcall.
  { unfold drawField_calls. apply in_map_iff. exists pmax.
    split; [|apply cells_elem; exact Hin].
    rewrite (field_max_value cc pmax vmax Hin Hmax Hbig Hall).
    rewrite (transform_Fin cc pmax vmax Hmax) by lra.
    assert (0 < ln (1 / 10 + vmax))%R as Hpos by (apply ln_pos; lra).
    rewrite div_Fin_pos by exact Hpos. do 2 f_equal.
    apply Rdiv_diag. lra. }
  assert (ToUint8Clamp (mul (Fin 1) (of_Z 255)) = 255) as Hbyte.
  { change (Fin 1) with (of_Z 1). rewrite mul_of_Z, ToUint8Clamp_of_Z.
    reflexivity. }
  set (st0 := getImageData (col (default "0000FF"%string c) st)) in *.
  assert (forall c' : Z, 0 <= c' < 4 ->
    px (drawField (Some cc) c st)
      !! Z.to_nat ((zoom st * pmax.2 * (zoom st * width st)
                    + zoom st * pmax.1) * 4
                   + 4 * a + 4 * (zoom st * width st) * b + c')
    = Some (ToUint8Clamp
        (channel (col_r st0) (col_g st0) (col_b st0)
           (mul (Fin 1) (of_Z 255)) c'))) as Hpx.
  { intros c' Hc'.
    pose proof (drawField_px st cc c) as E. cbv zeta in E. fold st0 in E.
    rewrite E. clear E.
    set (k := (zoom st * pmax.2 * (zoom st * width st) + zoom st * pmax.1) * 4
              + 4 * a + 4 * (zoom st * width st) * b + c').
    destruct Hin as [Hx Hy].
    assert (in_block (zoom st) (width st) pmax k) as Hblock.
    { exists a, b, c'. repeat split; lia. }
    assert (0 <= k < zoom st * width st * (zoom st * height st) * 4) as Hk.
    { apply (block_on_canvas _ _ (height st) pmax k Hz); [lia | lia |].
      exact Hblock. }
    rewrite apply_writes_lookup.
    rewrite (last_write_Some _ _
      (channel (col_r st0) (col_g st0) (col_b st0)
         (mul (Fin 1) (of_Z 255)) c')).
    - rewrite decide_True; [reflexivity|].
      unfold buffer_sized in Hsize.
      change (zoom st0) with (zoom st) in Hsize.
      change (width st0) with (width st) in Hsize.
      change (height st0) with (height st) in Hsize.
      lia.
    - exists (k, channel (col_r st0) (col_g st0) (col_b st0)
                   (mul (Fin 1) (of_Z 255)) c').
      split; [|split; [cbn [fst]; lia | reflexivity]].
      apply in_flat_map. exists (pmax, Fin 1). split; [exact Hcall|].
      cbn [fst snd].
      apply pxfi_writes_intro; try assumption.
      apply Z.mul_pos_pos; lia.
    - intros wr Hwr Hk0 Hn.
      apply in_flat_map in Hwr as [[q al] [Hq Hwr]].
      cbn [fst snd] in Hwr.
      assert (wr.1 = k) as Hwk by lia.
      pose proof (pxfi_writes_in_block _ _ _ _ _ _ _ _ Hwr) as Hblock'.
      rewrite Hwk in Hblock'.
      unfold drawField_calls in Hq, Hcall.
      apply in_map_iff in Hq as [q' [E Hq']]. injection E as -> <-.
      apply in_map_iff in Hcall as [p' [E _]]. injection E as -> E.
      apply cells_elem in Hq'. destruct Hq' as [Hqx Hqy].
      assert (q = pmax) as ->.
      { apply (blocks_disjoint (zoom st) (width st) q pmax k);
          try assumption; lia. }
      rewrite E in Hwr.
      apply pxfi_writes_elem in Hwr as [n1 [n2 [c'' [Hc'' [Hi ->]]]]].
      assert (c'' = c') as ->; [|reflexivity].
      rewrite Hi in Hwk. unfold k in Hwk.
      set (X := zoom st * width st * Z.of_nat n2) in *.
      set (Y := zoom st * width st * b) in *.
      lia. }
  split; [exact Hcall|]. split; [exact Hbyte|].
  split; [apply drawField_run|]. split.
  - exact (Hpx ch Hc).
  - rewrite (Hpx 3) by lia.
    change (channel (col_r st0) (col_g st0) (col_b st0)
              (mul (Fin 1) (of_Z 255)) 3)
      with (mul (Fin 1) (of_Z 255)).
    rewrite Hbyte. reflexivity.
Qed.

(** ** Contour levels *)

Lemma geb_Fin_true (x y : R) : (y <= x)%R -> geb (Fin x) (Fin y) = true.
Proof. intros Hxy. unfold geb. destruct (Rle_dec y x); [reflexivity|lra]. Qed.

Lemma geb_Fin_false (x y : R) : (x < y)%R -> geb (Fin x) (Fin y) = false.
Proof. intros Hxy. unfold geb. destruct (Rle_dec y x); [lra|reflexivity]. Qed.

(** The level [log(0.1)], the first of every run on a field of
    non-negative values, marks nothing. *)
Lemma contour_level_floor (cc : Grid.t) (M : num) (s : Canvas Ctx) :
  (forall p, exists v, Grid.pixt cc p = Fin v /\ (0 <= v)%R) ->
  contour_level cc M (Fin (ln (1 / 10))) (Fin (ln (1 / 10))) s = s.
Proof.
  intros Hall. unfold contour_level.
  apply foldl_fixed. intros s1 i. apply foldl_fixed. intros s2 j.
  rewrite (crossing_floor _ _ _ _ Hall).
  destruct (ltb _ _); reflexivity.
Qed.

Lemma round_half_even_above (r : R) (z : Z) :
  (IZR z + 1 / 2 < r < IZR z + 1)%R -> round_half_even r = z + 1.
Proof.
  intros Hr. unfold round_half_even.
  assert (Int_part r = z) as ->.
  { symmetry. apply Int_part_spec. lra. }
  destruct (Rlt_dec (r - IZR z) (1 / 2)); [lra|].
  destruct (Rlt_dec (1 / 2) (r - IZR z)); [reflexivity|lra].
Qed.

(** *** Scalar fields *)

Lemma div_Fin_neg (x y : R) : (y < 0)%R -> div (Fin x) (Fin y) = Fin (x / y).
Proof. intros Hy. unfold div. rewrite sgn_neg by exact Hy. reflexivity. Qed.

Lemma div_Fin_zero (x : R) : div (Fin x) (Fin 0) = signed_inf (sgn x).
Proof. unfold div. rewrite sgn_zero. reflexivity. Qed.

(** X13.  The alpha [drawField] gives a cell, on a field of non-negative
    values whose largest value [vmax] is above [0.9]: a cell of value [v]
    goes to [pxfi] with alpha [log(0.1 + v) / log(0.1 + vmax)].  This alpha
    is at most [1], below [1] for a value below the largest, and not
    positive for a value up to [0.9], which the array stores as the alpha
    byte [0]: such a cell is painted fully transparent. *)
Theorem drawField_alpha (cc : Grid.t) (pmax p : coord) (vmax v : R) :
  in_grid cc pmax -> Grid.pixt cc pmax = Fin vmax -> (9 / 10 < vmax)%R ->
  (forall q, in_grid cc q ->
     exists u, Grid.pixt cc q = Fin u /\ (0 <= u <= vmax)%R) ->
  in_grid cc p -> Grid.pixt cc p = Fin v ->
  In (p, Fin (ln (1 / 10 + v) / ln (1 / 10 + vmax))) (drawField_calls cc)
  /\ (ln (1 / 10 + v) / ln (1 / 10 + vmax) <= 1)%R
  /\ ((v < vmax)%R -> (ln (1 / 10 + v) / ln (1 / 10 + vmax) < 1)%R)
  /\ ((v <= 9 / 10)%R ->
      ToUint8Clamp
        (mul (Fin (ln (1 / 10 + v) / ln (1 / 10 + vmax))) (of_Z 255)) = 0).
Proof.
  intros Hin Hmax Hbig Hall Hp Hv.
  destruct (Hall p Hp) as [u [Hu Hrange]].
  rewrite Hv in Hu. injection Hu as <-.
  set (T := ln (1 / 10 + vmax)).
  assert (0 < T)%R as HT by (apply ln_pos; lra).
  assert (ln (1 / 10 + v) <= T)%R as Hle by (apply ln_le; lra).
  split; [|split; [|split]].
  - unfold drawField_calls. apply in_map_iff. exists p.
    split; [|apply cells_elem; exact Hp].
    rewrite (field_max_value cc pmax vmax Hin Hmax Hbig Hall).
    rewrite (transform_Fin cc p v Hv) by lra.
    fold T. rewrite div_Fin_pos by exact HT. reflexivity.
  - apply (Rmult_le_reg_r T); [exact HT|].
    unfold Rdiv. rewrite Rmult_assoc, Rinv_l by lra. lra.
  - intros Hlt.
    assert (ln (1 / 10 + v) < T)%R as Hl by (apply ln_increasing; lra).
    apply (Rmult_lt_reg_r T); [exact HT|].
    unfold Rdiv. rewrite Rmult_assoc, Rinv_l by lra. lra.
  - intros Hsmall.
    assert (ln (1 / 10 + v) <= 0)%R as Hneg.
    { rewrite <- ln_1. apply ln_le; lra. }
    assert (ln (1 / 10 + v) / T <= 0)%R as Hq.
    { apply (Rmult_le_reg_r T); [exact HT|].
      unfold Rdiv. rewrite Rmult_assoc, Rinv_l by lra. lra. }
    cbn [mul of_Z ToUint8Clamp].
    destruct (Rle_dec (ln (1 / 10 + v) / T * 255) 0) as [_|Hn];
      [reflexivity|].
    exfalso. apply Hn. lra.
Qed.

(** The first pass of [drawField] on a field without a value above [0.9]:
    no logarithm is above the initial [0] of [maxval]. *)
Lemma field_max_faint (cc : Grid.t) :
  (forall q, in_grid cc q ->
     exists v, Grid.pixt cc q = Fin v /\ (0 <= v <= 9 / 10)%R) ->
  field_max cc = Fin 0.
Proof.
  intros Hall. rewrite field_max_cells.
  assert (forall L, (forall q, In q L -> in_grid cc q) ->
            foldl (fun maxval p =>
              if ltb maxval (transform cc p) then transform cc p else maxval)
              (Fin 0) L = Fin 0) as Hfold.
  { induction L as [|q L IH]; intros HL; [reflexivity|]. cbn [foldl].
    destruct (Hall q (HL q (or_introl eq_refl))) as [v [Hq Hv]].
    rewrite (transform_Fin cc q v Hq) by lra.
    rewrite ltb_Fin_false.
    - apply IH. intros q' Hq'. apply HL. right. exact Hq'.
    - rewrite <- ln_1. apply ln_le; lra. }
  apply Hfold. intros q Hq. apply cells_elem. exact Hq.
Qed.

(** X14.  On a field of non-negative values none of which is above [0.9],
    [maxval] keeps its initial [0]; every alpha is then a division by zero
    ([-Infinity], or [NaN] for a value of exactly [0.9]) and every cell is
    stored with the alpha byte [0]: [drawField] paints the whole field
    fully transparent. *)
Theorem drawField_faint_field (cc : Grid.t) :
  (forall q, in_grid cc q ->
     exists v, Grid.pixt cc q = Fin v /\ (0 <= v <= 9 / 10)%R) ->
  field_max cc = Fin 0
  /\ (forall p a, In (p, a) (drawField_calls cc) ->
        (a = NInf \/ a = NaN)
        /\ ToUint8Clamp (mul a (of_Z 255)) = 0).
Proof.
  intros Hall. pose proof (field_max_faint cc Hall) as Hmax.
  split; [exact Hmax|].
  intros p a Hin. unfold drawField_calls in Hin.
  apply in_map_iff in Hin as [q [E Hq]]. injection E as -> <-.
  apply cells_elem in Hq.
  destruct (Hall p Hq) as [v [Hp Hv]].
  rewrite Hmax, (transform_Fin cc p v Hp) by lra.
  rewrite div_Fin_zero.
  assert (ln (1 / 10 + v) <= 0)%R as Hneg.
  { rewrite <- ln_1. apply ln_le; lra. }
  destruct (Rle_lt_or_eq_dec _ _ Hneg) as [Hlt|Heq].
  - rewrite sgn_neg by exact Hlt. cbn [signed_inf].
    split; [left; reflexivity|].
    cbn [mul of_Z]. rewrite sgn_pos by lra. reflexivity.
  - rewrite Heq, sgn_zero. cbn [signed_inf].
    split; [right; reflexivity | reflexivity].
Qed.

(** The loop over the levels never ends when the step is not positive and
    the first level is below [maxval]. *)
Lemma level_loop_stuck (fuel : nat) (body : num -> Canvas Ctx -> Canvas Ctx)
    (M s v : R) (st : Canvas Ctx) :
  (s <= 0)%R -> (v < M)%R ->
  level_loop fuel body (Fin M) (Fin s) (Fin v) st = None.
Proof.
  intros Hs. revert v st.
  induction fuel as [|fuel IH]; intros v st Hv; cbn [level_loop];
    [reflexivity|].
  rewrite ltb_Fin_true by exact Hv. cbn [add]. apply IH. lra.
Qed.

(** X15.  With a negative number of steps [drawFieldContour] never
    returns, on any field of non-negative values: the step is negative,
    the level starts below [maxval] and only falls.  No amount of fuel
    gives a result. *)
Theorem drawFieldContour_negative_steps (st : Canvas Ctx) (cc : Grid.t)
    (c : option string) (n : R) (fuel : nat) :
  (forall p, exists v, Grid.pixt cc p = Fin v /\ (0 <= v)%R) ->
  (n < 0)%R ->
  drawFieldContour fuel (Some cc) (Some (Fin n)) c st = None.
Proof.
  intros Hall Hn. unfold drawFieldContour. simpl default.
  destruct (field_range_nonneg cc Hall) as [M [-> HM]].
  assert (ln (1 / 10) < 0)%R as Hneg by (apply ln_neg; lra).
  cbn [sub neg add]. rewrite div_Fin_neg by exact Hn.
  rewrite level_loop_stuck; [reflexivity | | lra].
  assert (0 < (M + - ln (1 / 10)) * / - n)%R as Hpos.
  { apply Rmult_lt_0_compat; [lra|]. apply Rinv_0_lt_compat. lra. }
  unfold Rdiv. replace (/ n)%R with (- / - n)%R; [lra|].
  rewrite Rinv_opp. lra.
Qed.

(** *** Activity values *)

(** The stores of one round of the loop of [drawActivityValues]. *)
Lemma activity_step_px (m : Model.t) (kind : Z) (A : constraint)
    (colf : num -> num * num * num) (x : coord * Z) (st : Canvas Ctx) :
  let a := div (pxact A (Grid.p2i (Model.grid m) x.1))
               (MAX_ACT A (Model.cellKind m x.2)) in
  px (activity_step m kind A colf x st)
  = apply_writes
      (if activity_drawn m kind A x
       then pxfi_writes (zoom st) (width st)
              (colf a).1.1 (colf a).1.2 (colf a).2 x.1 (of_Z 1)
       else [])
      (px st)
  /\ zoom (activity_step m kind A colf x st) = zoom st
  /\ width (activity_step m kind A colf x st) = width st.
Proof.
  intros a. unfold activity_step, activity_drawn. fold a.
  destruct ((kind <? 0) && gtb (MAX_ACT A (Model.cellKind m x.2)) (of_Z 0)
            || (Model.cellKind m x.2 =? kind));
    [|repeat split; reflexivity].
  cbn [andb]. destruct (gtb a (of_Z 0)); [|repeat split; reflexivity].
  rewrite pxfi_px. repeat split; reflexivity.
Qed.

Lemma drawActivityValues_px (st : Canvas Ctx) (m : Model.t) (kind : Z)
    (A : constraint) (colf : option (num -> num * num * num)) :
  C st = Some m ->
  exists st',
    drawActivityValues kind (Some A) colf st = Normal st'
    /\ px st'
       = apply_writes
           (flat_map (fun x : coord * Z =>
              let a := div (pxact A (Grid.p2i (Model.grid m) x.1))
                           (MAX_ACT A (Model.cellKind m x.2)) in
              let r := default default_gradient colf a in
              if activity_drawn m kind A x
              then pxfi_writes (zoom st) (width st) r.1.1 r.1.2 r.2 x.1
                     (of_Z 1)
              else [])
              (Model.cellPixels m))
           (px (getImageData (col "FF0000" st))).
Proof.
  intros HC. unfold drawActivityValues. rewrite HC.
  eexists. split; [reflexivity|].
  change (px (putImageData ?s)) with (px s).
  rewrite (foldl_px_writes
    (fun s x => activity_step m kind A (default default_gradient colf) x s)
    (fun x : coord * Z =>
       let a := div (pxact A (Grid.p2i (Model.grid m) x.1))
                    (MAX_ACT A (Model.cellKind m x.2)) in
       let r := default default_gradient colf a in
       if activity_drawn m kind A x
       then pxfi_writes (zoom st) (width st) r.1.1 r.1.2 r.2 x.1 (of_Z 1)
       else [])
    (zoom st) (width st)); [reflexivity | reflexivity | reflexivity |].
  intros s x Hz Hw.
  destruct (activity_step_px m kind A (default default_gradient colf) x s)
    as [Hpx [Hz' Hw']].
  rewrite Hpx, Hz', Hw', Hz, Hw. repeat split; reflexivity.
Qed.

(** The bytes of a cell pixel that [drawActivityValues] paints, when no
    other listed pixel stores on its block. *)
Lemma drawActivityValues_pixel (st : Canvas Ctx) (m : Model.t)
    (kind : Z) (A : constraint) (colf : option (num -> num * num * num))
    (p : coord) (sigma : Z) (a b c : Z) :
  C st = Some m ->
  0 < zoom st -> on_canvas st p ->
  buffer_sized (getImageData (col "FF0000" st)) ->
  In (p, sigma) (Model.cellPixels m) ->
  (forall x, In x (Model.cellPixels m) -> 0 <= x.1.1 < width st) ->
  (forall x, In x (Model.cellPixels m) -> x.1 = p -> x.2 = sigma) ->
  Model.cellKind m sigma = kind
  \/ (kind < 0
      /\ gtb (MAX_ACT A (Model.cellKind m sigma)) (of_Z 0) = true) ->
  gtb (div (pxact A (Grid.p2i (Model.grid m) p))
           (MAX_ACT A (Model.cellKind m sigma))) (of_Z 0) = true ->
  0 <= a < zoom st -> 0 <= b < zoom st -> 0 <= c < 4 ->
  exists st',
    drawActivityValues kind (Some A) colf st = Normal st'
    /\ px st'
         !! Z.to_nat ((zoom st * p.2 * (zoom st * width st)
                       + zoom st * p.1) * 4
                      + 4 * a + 4 * (zoom st * width st) * b + c)
       = Some (ToUint8Clamp
           (let rgb :=
              default default_gradient colf
                (div (pxact A (Grid.p2i (Model.grid m) p))
                     (MAX_ACT A (Model.cellKind m sigma))) in
            channel rgb.1.1 rgb.1.2 rgb.2 (mul (of_Z 1) (of_Z 255)) c)).
Proof.
  intros HC Hz Hp Hsize Hin Hcols Hone Hkind Hact Ha Hb Hc.
  destruct (drawActivityValues_px st m kind A colf HC) as [st' [Hrun Hpx]].
  exists st'. split; [exact Hrun|]. rewrite Hpx. clear Hrun Hpx st'.
  set (act := div (pxact A (Grid.p2i (Model.grid m) p))
                  (MAX_ACT A (Model.cellKind m sigma))) in *.
  set (rgb := default default_gradient colf act).
  set (k := (zoom st * p.2 * (zoom st * width st) + zoom st * p.1) * 4
            + 4 * a + 4 * (zoom st * width st) * b + c).
  destruct Hp as [Hx Hy].
  assert (in_block (zoom st) (width st) p k) as Hblock.
  { exists a, b, c. repeat split; lia. }
  pose proof (block_on_canvas _ _ (height st) p k Hz Hx Hy Hblock) as Hk.
  assert (activity_drawn m kind A (p, sigma) = true) as Hdrawn.
  { unfold activity_drawn. cbn [fst snd]. fold act. rewrite Hact.
    rewrite andb_true_r. destruct Hkind as [-> | [Hneg ->]].
    - rewrite Z.eqb_refl. apply orb_true_r.
    - destruct (Z.ltb_spec kind 0); [reflexivity | lia]. }
  rewrite apply_writes_lookup.
  rewrite (last_write_Some _ _
    (channel rgb.1.1 rgb.1.2 rgb.2 (mul (of_Z 1) (of_Z 255)) c)).
  - rewrite decide_True; [reflexivity|].
    unfold buffer_sized in Hsize.
    change (zoom (getImageData (col "FF0000" st))) with (zoom st) in Hsize.
    change (width (getImageData (col "FF0000" st))) with (width st) in Hsize.
    change (height (getImageData (col "FF0000" st))) with (height st)
      in Hsize.
    lia.
  - exists (k, channel rgb.1.1 rgb.1.2 rgb.2 (mul (of_Z 1) (of_Z 255)) c).
    split; [|split; [cbn [fst]; lia | reflexivity]].
    apply in_flat_map. exists (p, sigma). split; [exact Hin|].
    cbv zeta. rewrite Hdrawn. cbn [fst snd].
    apply pxfi_writes_intro; try assumption.
    apply Z.mul_pos_pos; lia.
  - intros wr Hwr Hk0 Hn.
    apply in_flat_map in Hwr as [[q sigma'] [Hq Hwr]].
    cbv zeta in Hwr.
    destruct (activity_drawn m kind A (q, sigma')); [|destruct Hwr].
    cbn [fst snd] in Hwr.
    assert (wr.1 = k) as Hwk by lia.
    pose proof (pxfi_writes_in_block _ _ _ _ _ _ _ _ Hwr) as Hblock'.
    rewrite Hwk in Hblock'.
    assert (q = p) as ->.
    { apply (blocks_disjoint (zoom st) (width st) q p k); try assumption.
      exact (Hcols (q, sigma') Hq). }
    assert (sigma' = sigma) as -> by exact (Hone (p, sigma') Hq eq_refl).
    fold act in Hwr. fold rgb in Hwr.
    apply pxfi_writes_elem in Hwr as [n1 [n2 [c' [Hc' [Hi ->]]]]].
    assert (c' = c) as ->; [|reflexivity].
    rewrite Hi in Hwk. unfold k in Hwk.
    set (X := zoom st * width st * Z.of_nat n2) in *.
    set (Y := zoom st * width st * b) in *.
    lia.
Qed.

(** X17.  The colour of a pixel in [drawActivityValues], when every cell
    pixel lies in a column of the canvas (a pixel beyond the last column
    is stored on the block of another pixel) and the pixel is listed with
    one cell id: a cell pixel [p] of the canvas whose kind passes the test
    and whose activity, divided by the [MAX_ACT] of its kind, is a positive
    [act], holds in every byte of its block the channel that the colour
    function (the gradient from green to red when none is given) returns
    for [act], the alpha byte holding [255]. *)
Theorem drawActivityValues_gradient (st : Canvas Ctx) (m : Model.t)
    (kind : Z) (A : constraint) (colf : option (num -> num * num * num))
    (p : coord) (sigma : Z) (a b c : Z) :
  C st = Some m ->
  0 < zoom st -> on_canvas st p ->
  buffer_sized (getImageData (col "FF0000" st)) ->
  In (p, sigma) (Model.cellPixels m) ->
  (forall x, In x (Model.cellPixels m) -> 0 <= x.1.1 < width st) ->
  (forall x, In x (Model.cellPixels m) -> x.1 = p -> x.2 = sigma) ->
  Model.cellKind m sigma = kind
  \/ (kind < 0
      /\ gtb (MAX_ACT A (Model.cellKind m sigma)) (of_Z 0) = true) ->
  gtb (div (pxact A (Grid.p2i (Model.grid m) p))
           (MAX_ACT A (Model.cellKind m sigma))) (of_Z 0) = true ->
  0 <= a < zoom st -> 0 <= b < zoom st -> 0 <= c < 4 ->
  exists st',
    drawActivityValues kind (Some A) colf st = Normal st'
    /\ px st'
         !! Z.to_nat ((zoom st * p.2 * (zoom st * width st)
                       + zoom st * p.1) * 4
                      + 4 * a + 4 * (zoom st * width st) * b + c)
       = Some (ToUint8Clamp
           (let rgb :=
              default default_gradient colf
                (div (pxact A (Grid.p2i (Model.grid m) p))
                     (MAX_ACT A (Model.cellKind m sigma))) in
            channel rgb.1.1 rgb.1.2 rgb.2 (mul (of_Z 1) (of_Z 255)) c)).
Proof.
  apply drawActivityValues_pixel.
Qed.

(** X18.  [drawActivityValues] changes no byte outside the blocks of the
    cell pixels that pass its two tests (the kind, and a positive activity
    ratio); when no cell pixel passes them, the buffer it puts back is the
    one it read. *)
Theorem drawActivityValues_frame (st : Canvas Ctx) (m : Model.t) (kind : Z)
    (A : constraint) (colf : option (num -> num * num * num)) :
  C st = Some m ->
  exists st',
    drawActivityValues kind (Some A) colf st = Normal st'
    /\ (forall n : nat,
          (forall x, In x (Model.cellPixels m) ->
             activity_drawn m kind A x = true ->
             ~ in_block (zoom st) (width st) x.1 (Z.of_nat n)) ->
          px st' !! n = px (getImageData (col "FF0000" st)) !! n)
    /\ ((forall x, In x (Model.cellPixels m) ->
           activity_drawn m kind A x = false) ->
        px st' = px (getImageData (col "FF0000" st))).
Proof.
  intros HC.
  destruct (drawActivityValues_px st m kind A colf HC) as [st' [Hrun Hpx]].
  exists st'. split; [exact Hrun|]. rewrite Hpx. split.
  - intros n Hout. apply apply_writes_lookup_other.
    intros wr Hwr Hn.
    apply in_flat_map in Hwr as [x [Hx Hwr]]. cbv zeta in Hwr.
    destruct (activity_drawn m kind A x) eqn:Hd; [|destruct Hwr].
    apply (Hout x Hx Hd). rewrite <- Hn.
    exact (pxfi_writes_in_block _ _ _ _ _ _ _ _ Hwr).
  - intros Hnone.
    assert (forall L : list (coord * Z),
              (forall x, In x L -> activity_drawn m kind A x = false) ->
              flat_map (fun x : coord * Z =>
                let a := div (pxact A (Grid.p2i (Model.grid m) x.1))
                             (MAX_ACT A (Model.cellKind m x.2)) in
                let r := default default_gradient colf a in
                if activity_drawn m kind A x
                then pxfi_writes (zoom st) (width st) r.1.1 r.1.2 r.2 x.1
                       (of_Z 1)
                else []) L = []) as Hempty.
    { induction L as [|x L IH]; intros HL; [reflexivity|].
      cbn [flat_map]. cbv zeta. rewrite (HL x (or_introl eq_refl)).
      apply IH. intros y Hy. apply HL. right. exact Hy. }
    rewrite (Hempty _ Hnone). reflexivity.
Qed.

(** X19.  The gradient from green to red that [drawActivityValues] uses
    when no colour function is given, as the array stores it.  For a ratio
    in (0, 1] the red and green bytes are within [0, 255], one of them is
    [255], and blue is [0]; a ratio above [1] is stored as pure red, and so
    is the [Infinity] that a positive activity gives for a kind whose
    [MAX_ACT] is [0]. *)
Theorem default_gradient_bytes (r : R) :
  (0 < r)%R ->
  let rgb := default_gradient (Fin r) in
  ToUint8Clamp rgb.2 = 0
  /\ 0 <= ToUint8Clamp rgb.1.1 <= 255 /\ 0 <= ToUint8Clamp rgb.1.2 <= 255
  /\ ((r <= 1 / 2)%R -> ToUint8Clamp rgb.1.2 = 255)
  /\ ((1 / 2 < r)%R -> ToUint8Clamp rgb.1.1 = 255)
  /\ ((1 <= r)%R -> ToUint8Clamp rgb.1.2 = 0)
  /\ (forall x, (0 < x)%R ->
        let inf := default_gradient (div (Fin x) (Fin 0)) in
        (ToUint8Clamp inf.1.1, ToUint8Clamp inf.1.2, ToUint8Clamp inf.2)
        = (255, 0, 0)).
Proof.
  intros Hr rgb.
  assert (forall z : Z, 0 <= ToUint8Clamp (of_Z z) <= 255) as HZ.
  { intros z. rewrite ToUint8Clamp_of_Z. lia. }
  assert (forall x : R, 0 <= ToUint8Clamp (Fin x) <= 255) as HR.
  { intros x. unfold ToUint8Clamp.
    destruct (Rle_dec x 0); [lia|]. destruct (Rle_dec 255 x); [lia|].
    assert (0 < x < 255)%R as Hx by lra.
    unfold round_half_even.
    pose proof (base_Int_part x) as [Hb1 Hb2].
    assert (0 <= Int_part x < 255) as Hint.
    { split.
      - apply le_IZR. apply Rnot_lt_le. intros Hneg.
        assert (IZR (Int_part x) <= -1)%R.
        { apply IZR_le. apply lt_IZR in Hneg. lia. }
        lra.
      - apply lt_IZR. lra. }
    repeat match goal with
           | |- context [Rlt_dec ?u ?v] => destruct (Rlt_dec u v)
           end; try lia.
    destruct (Z.even (Int_part x)); lia. }
  subst rgb. unfold default_gradient, gtb.
  split; [|split; [|split; [|split; [|split; [|split]]]]].
  - destruct (ltb _ _); cbn [fst snd]; rewrite ToUint8Clamp_of_Z; reflexivity.
  - destruct (ltb _ _); cbn [fst snd mul of_Z sub add neg]; [apply HZ|apply HR].
  - destruct (ltb _ _); cbn [fst snd mul of_Z sub add neg]; [apply HR|apply HZ].
  - intros Hle. rewrite ltb_Fin_false by exact Hle. cbn [fst snd].
    rewrite ToUint8Clamp_of_Z. reflexivity.
  - intros Hlt. rewrite ltb_Fin_true by exact Hlt. cbn [fst snd].
    rewrite ToUint8Clamp_of_Z. reflexivity.
  - intros Hone. rewrite ltb_Fin_true by lra.
    cbn [fst snd mul of_Z sub add neg ToUint8Clamp].
    destruct (Rle_dec _ 0) as [_|Hn]; [reflexivity|].
    exfalso. apply Hn. lra.
  - intros x Hx. cbv zeta. rewrite div_Fin_zero, sgn_pos by exact Hx.
    cbn [signed_inf ltb fst snd mul of_Z sub add neg].
    assert (sgn 2 = Gt) as -> by (apply sgn_pos; lra).
    cbn [signed_inf neg mul of_Z].
    assert (sgn 255 = Gt) as -> by (apply sgn_pos; lra).
    cbn [signed_inf CompOpp ToUint8Clamp].
    fold (of_Z 255). fold (of_Z 0). rewrite !ToUint8Clamp_of_Z.
    reflexivity.
Qed.

(** *** Colours *)

Lemma hex_digit_facts (ch : ascii) (d : Z) :
  hex_digit ch = Some d ->
  0 <= d < 16 /\ is_space ch = false
  /\ ch <> "-"%char /\ ch <> "+"%char /\ ch <> "x"%char /\ ch <> "X"%char.
Proof.
  destruct ch as [[] [] [] [] [] [] [] []]; vm_compute; intros E;
    try discriminate E; injection E as <-;
    repeat split; try discriminate; reflexivity.
Qed.

(** [parseInt( s, 16 )] on two hex digits. *)
Lemma parseInt16_two_digits (c1 c2 : ascii) (d1 d2 : Z) :
  hex_digit c1 = Some d1 -> hex_digit c2 = Some d2 ->
  parseInt16 (String c1 (String c2 EmptyString)) = of_Z (16 * d1 + d2).
Proof.
  intros H1 H2.
  destruct (hex_digit_facts c1 d1 H1) as [_ [Hs1 [Hm [Hp _]]]].
  destruct (hex_digit_facts c2 d2 H2) as [_ [_ [_ [_ [Hx HX]]]]].
  unfold parseInt16. cbn [skip_spaces]. rewrite Hs1.
  assert (match String c1 (String c2 EmptyString) with
          | String "-" s' => (true, s')
          | String "+" s' => (false, s')
          | _ => (false, String c1 (String c2 EmptyString))
          end = (false, String c1 (String c2 EmptyString))) as ->.
  { destruct c1 as [[] [] [] [] [] [] [] []];
      first [ reflexivity
            | exfalso; apply Hp; reflexivity
            | exfalso; apply Hm; reflexivity ]. }
  assert (strip_0x (String c1 (String c2 EmptyString))
          = String c1 (String c2 EmptyString)) as ->.
  { unfold strip_0x.
    destruct c1 as [[] [] [] [] [] [] [] []]; try reflexivity.
    destruct c2 as [[] [] [] [] [] [] [] []];
      first [ reflexivity
            | exfalso; apply Hx; reflexivity
            | exfalso; apply HX; reflexivity ]. }
  cbn [hex_prefix]. rewrite H1. cbn [hex_prefix]. rewrite H2.
  cbn [hex_prefix default]. reflexivity.
Qed.

(** X20.  [col( hex )] on a string that starts with six hex digits: each
    channel is the number its two digits write in base 16, a whole number
    from [0] to [255], which the array stores as it is.  The case of the
    letters does not matter, and what follows the six digits is not read.
    *)
Theorem col_six_digits (st : Canvas Ctx) (c1 c2 c3 c4 c5 c6 : ascii)
    (rest : string) (d1 d2 d3 d4 d5 d6 : Z) :
  hex_digit c1 = Some d1 -> hex_digit c2 = Some d2 ->
  hex_digit c3 = Some d3 -> hex_digit c4 = Some d4 ->
  hex_digit c5 = Some d5 -> hex_digit c6 = Some d6 ->
  let hex :=
    String c1 (String c2 (String c3 (String c4 (String c5 (String c6 rest)))))
  in
  col_r (col hex st) = of_Z (16 * d1 + d2)
  /\ col_g (col hex st) = of_Z (16 * d3 + d4)
  /\ col_b (col hex st) = of_Z (16 * d5 + d6)
  /\ ToUint8Clamp (col_r (col hex st)) = 16 * d1 + d2
  /\ ToUint8Clamp (col_g (col hex st)) = 16 * d3 + d4
  /\ ToUint8Clamp (col_b (col hex st)) = 16 * d5 + d6
  /\ 0 <= 16 * d1 + d2 <= 255 /\ 0 <= 16 * d3 + d4 <= 255
  /\ 0 <= 16 * d5 + d6 <= 255
  /\ px (col hex st) = px st.
Proof.
  intros H1 H2 H3 H4 H5 H6 hex.
  pose proof (hex_digit_facts c1 d1 H1) as [R1 _].
  pose proof (hex_digit_facts c2 d2 H2) as [R2 _].
  pose proof (hex_digit_facts c3 d3 H3) as [R3 _].
  pose proof (hex_digit_facts c4 d4 H4) as [R4 _].
  pose proof (hex_digit_facts c5 d5 H5) as [R5 _].
  pose proof (hex_digit_facts c6 d6 H6) as [R6 _].
  assert (col_r (col hex st) = of_Z (16 * d1 + d2)) as Er.
  { change (col_r (col hex st))
      with (parseInt16 (String c1 (String c2 EmptyString))).
    apply parseInt16_two_digits; assumption. }
  assert (col_g (col hex st) = of_Z (16 * d3 + d4)) as Eg.
  { change (col_g (col hex st))
      with (parseInt16 (String c3 (String c4 EmptyString))).
    apply parseInt16_two_digits; assumption. }
  assert (col_b (col hex st) = of_Z (16 * d5 + d6)) as Eb.
  { unfold hex. destruct rest;
      (change (col_b (col ?h st))
         with (parseInt16 (String c5 (String c6 EmptyString)));
       apply parseInt16_two_digits; assumption). }
  rewrite Er, Eg, Eb, !ToUint8Clamp_of_Z.
  repeat split; try reflexivity; lia.
Qed.

(** *** Loops of [pxfi] in one colour *)

(** A store of one colour is read back, whatever other stores of that
    colour were made. *)
Lemma apply_writes_channel_lookup r g b a (W : list (Z * num))
    (buf : list Z) (k : Z) (v : num) :
  Forall (channel_write r g b a) W -> In (k, v) W ->
  0 <= k -> (Z.to_nat k < length buf)%nat ->
  apply_writes W buf !! Z.to_nat k = Some (ToUint8Clamp v).
Proof.
  intros HW Hin Hk Hlen. rewrite apply_writes_lookup.
  rewrite (last_write_Some _ _ v).
  - rewrite decide_True by exact Hlen. reflexivity.
  - exists (k, v). split; [exact Hin|]. split; [exact Hk | reflexivity].
  - intros w Hw Hk' Hn. rewrite Forall_forall in HW.
    apply (channel_write_agree r g b a w (k, v)).
    + apply HW. apply list_elem_of_In. exact Hw.
    + apply HW. apply list_elem_of_In. exact Hin.
    + cbn [fst]. lia.
Qed.

Lemma pxfi_loop_lookup (st : Canvas Ctx) (l : list coord) (alpha : num)
    (f : list Z -> list Z) (p : coord) (a b c : Z) :
  0 < zoom st -> on_canvas st p ->
  Z.of_nat (length (f (px st)))
  = zoom st * width st * (zoom st * height st) * 4 ->
  In p l ->
  0 <= a < zoom st -> 0 <= b < zoom st -> 0 <= c < 4 ->
  px (foldl (fun s q => pxfi q alpha s) (px_update f st) l)
    !! Z.to_nat ((zoom st * p.2 * (zoom st * width st) + zoom st * p.1) * 4
                 + 4 * a + 4 * (zoom st * width st) * b + c)
  = Some (ToUint8Clamp
      (channel (col_r st) (col_g st) (col_b st) (mul alpha (of_Z 255)) c)).
Proof.
  intros Hz [Hx Hy] Hlen Hin Ha Hb Hc.
  rewrite foldl_pxfi_px.
  change (px (px_update ?F (px_update f st))) with (F (f (px st))).
  set (k := (zoom st * p.2 * (zoom st * width st) + zoom st * p.1) * 4
            + 4 * a + 4 * (zoom st * width st) * b + c).
  assert (in_block (zoom st) (width st) p k) as Hblock.
  { exists a, b, c. repeat split; lia. }
  pose proof (block_on_canvas _ _ (height st) p k Hz Hx Hy Hblock) as Hk.
  apply (apply_writes_channel_lookup (col_r st) (col_g st) (col_b st)
           (mul alpha (of_Z 255))).
  - apply Forall_flat_map_intro. intros q. apply pxfi_writes_channel.
  - apply in_flat_map. exists p. split; [exact Hin|].
    apply pxfi_writes_intro; try assumption. apply Z.mul_pos_pos; lia.
  - lia.
  - lia.
Qed.

Lemma pxfi_loop_frame (st : Canvas Ctx) (l : list coord) (alpha : num)
    (f : list Z -> list Z) (n : nat) :
  (forall q, In q l -> ~ in_block (zoom st) (width st) q (Z.of_nat n)) ->
  px (foldl (fun s q => pxfi q alpha s) (px_update f st) l) !! n
  = f (px st) !! n.
Proof.
  intros Hout. rewrite foldl_pxfi_px.
  change (px (px_update ?F (px_update f st))) with (F (f (px st))).
  apply apply_writes_lookup_other. intros wr Hwr Hn.
  apply in_flat_map in Hwr as [q [Hq Hwr]].
  apply (Hout q Hq). rewrite <- Hn.
  exact (pxfi_writes_in_block _ _ _ _ _ _ _ _ Hwr).
Qed.

Lemma foldl_if_flat_map {S A B : Type} (g : S -> B -> S) (cond : A -> bool)
    (h : A -> B) (s : S) (L : list A) :
  foldl (fun s e => if cond e then g s (h e) else s) s L
  = foldl g s (flat_map (fun e => if cond e then [h e] else []) L).
Proof.
  revert s. induction L as [|e L IH]; intros s; simpl; [reflexivity|].
  rewrite IH. destruct (cond e); reflexivity.
Qed.

(** X21.  [drawPixelSet] paints every listed pixel of the canvas in one
    colour, the one [col] parses from a hex string (black without an
    argument), and changes no byte outside the blocks of the listed
    pixels.  A colour function is never called: the listed pixels are
    painted in the colour the canvas had. *)
Theorem drawPixelSet_paints (st : Canvas Ctx) (l : list coord)
    (c : option color) :
  let st0 := col_if_string c st in
  (forall (p : coord) (a b ch : Z),
     0 < zoom st -> on_canvas st p -> buffer_sized (getImageData st0) ->
     In p l ->
     0 <= a < zoom st -> 0 <= b < zoom st -> 0 <= ch < 4 ->
     px (drawPixelSet l c st)
       !! Z.to_nat ((zoom st * p.2 * (zoom st * width st)
                     + zoom st * p.1) * 4
                    + 4 * a + 4 * (zoom st * width st) * b + ch)
     = Some (ToUint8Clamp
         (channel (col_r st0) (col_g st0) (col_b st0)
            (mul (of_Z 1) (of_Z 255)) ch)))
  /\ (forall n : nat,
        (forall q, In q l ->
           ~ in_block (zoom st) (width st) q (Z.of_nat n)) ->
        px (drawPixelSet l c st) !! n = px (getImageData st0) !! n)
  /\ (forall f, col_if_string (Some (ByCell f)) st = st).
Proof.
  intros st0.
  assert (zoom st0 = zoom st /\ width st0 = width st
          /\ height st0 = height st) as [Ez [Ew Eh]].
  { unfold st0. destruct c as [[s|f]|]; repeat split; reflexivity. }
  split; [|split; [|reflexivity]].
  - intros p a b ch Hz Hp Hsize Hin Ha Hb Hc.
    unfold drawPixelSet. fold st0.
    change (px (putImageData ?s)) with (px s).
    unfold getImageData at 1. rewrite <- Ez, <- Ew.
    apply pxfi_loop_lookup; rewrite ?Ez, ?Ew, ?Eh; try assumption.
    + destruct Hp as [Hx Hy]. split; [rewrite Ew | rewrite Eh]; assumption.
    + unfold buffer_sized, getImageData, px_update in Hsize.
      cbn [px zoom width height] in Hsize.
      rewrite ?Ez, ?Ew, ?Eh in Hsize. exact Hsize.
  - intros n Hout. unfold drawPixelSet. fold st0.
    change (px (putImageData ?s)) with (px s).
    unfold getImageData at 1.
    rewrite pxfi_loop_frame; [reflexivity|].
    rewrite Ez, Ew. exact Hout.
Qed.

Lemma getImageData_px_update (st : Canvas Ctx) (f : list Z -> list Z) :
  getImageData (px_update f st) = getImageData st.
Proof. reflexivity. Qed.

Lemma px_update_compose (st : Canvas Ctx) (f g : list Z -> list Z) :
  px_update g (px_update f st) = px_update (fun b => g (f b)) st.
Proof. reflexivity. Qed.

Lemma col_getImageData (hex : string) (st : Canvas Ctx) :
  col hex (getImageData st)
  = px_update (fun _ => px (getImageData st)) (col hex st).
Proof. reflexivity. Qed.

(** X22.  [drawOnCellBorders] with a hex colour (black without one) paints
    the border pixels of the cells of the kind, of all cells when [kind] is
    negative: every byte of the block of such a pixel of the canvas holds
    the channel of the colour, the alpha byte [255], and no byte outside
    these blocks is changed.  With a colour function it throws before it
    paints anything, since [col] is called on the function itself. *)
Theorem drawOnCellBorders_paints (st : Canvas Ctx) (m : Model.t) (kind : Z)
    (c : option string) :
  C st = Some m ->
  exists st',
    drawOnCellBorders kind (option_map Hex c) st = Normal st'
    /\ (forall (p : coord) (id a b ch : Z),
          0 < zoom st -> on_canvas st p -> buffer_sized (getImageData st) ->
          In (p, id) (Model.cellBorderPixels m) ->
          kind < 0 \/ Model.cellKind m id = kind ->
          0 <= a < zoom st -> 0 <= b < zoom st -> 0 <= ch < 4 ->
          px st'
            !! Z.to_nat ((zoom st * p.2 * (zoom st * width st)
                          + zoom st * p.1) * 4
                         + 4 * a + 4 * (zoom st * width st) * b + ch)
          = Some (ToUint8Clamp
              (channel (parseInt16 (substr (or_black c) 0 2))
                 (parseInt16 (substr (or_black c) 2 2))
                 (parseInt16 (substr (or_black c) 4 2))
                 (mul (of_Z 1) (of_Z 255)) ch)))
    /\ (forall n : nat,
          (forall q id, In (q, id) (Model.cellBorderPixels m) ->
             kind < 0 \/ Model.cellKind m id = kind ->
             ~ in_block (zoom st) (width st) q (Z.of_nat n)) ->
          px st' !! n = px (getImageData st) !! n)
    /\ (forall f,
          drawOnCellBorders kind (Some (ByCell f)) st = Throw not_a_string).
Proof.
  intros HC.
  set (cond := fun x : coord * Z =>
                 (kind <? 0) || (Model.cellKind m x.2 =? kind)).
  assert (forall x, cond x = true <->
            (kind < 0 \/ Model.cellKind m x.2 = kind)) as Hcond.
  { intros x. unfold cond. rewrite orb_true_iff, Z.ltb_lt, Z.eqb_eq.
    reflexivity. }
  set (L := flat_map (fun x : coord * Z => if cond x then [x.1] else [])
              (Model.cellBorderPixels m)).
  assert (forall q, In q L <->
            exists id, In (q, id) (Model.cellBorderPixels m)
                       /\ cond (q, id) = true) as HL.
  { intros q. unfold L. rewrite in_flat_map. split.
    - intros [[q' id] [Hin Hq]]. destruct (cond (q', id)) eqn:E;
        [|destruct Hq].
      destruct Hq as [<- | []]. exists id. split; assumption.
    - intros [id [Hin E]]. exists (q, id). split; [exact Hin|].
      rewrite E. left. reflexivity. }
  set (hex := or_black c).
  assert (drawOnCellBorders kind (option_map Hex c) st
          = Normal (putImageData
              (foldl (fun s q => pxfi q (of_Z 1) s)
                 (col hex (getImageData st)) L))) as Hrun.
  { unfold drawOnCellBorders, L, hex.
    destruct c as [s|]; cbn [option_map];
      change (C (col ?h (getImageData st))) with (C st); rewrite HC;
      do 2 f_equal;
      apply (foldl_if_flat_map (fun s q => pxfi q (of_Z 1) s) cond
               (fun x : coord * Z => x.1)). }
  eexists. split; [exact Hrun|].
  change (px (putImageData ?s)) with (px s).
  rewrite col_getImageData.
  split; [|split; [|reflexivity]].
  - intros p id a b ch Hz Hp Hsize Hin Hkind Ha Hb Hc.
    apply (pxfi_loop_lookup (col hex st)); try assumption;
      try exact Hsize.
    apply HL. exists id. split; [exact Hin|].
    apply Hcond. exact Hkind.
  - intros n Hout.
    rewrite (pxfi_loop_frame (col hex st)); [reflexivity|].
    intros q Hq. apply HL in Hq as [id [Hin E]].
    apply (Hout q id Hin). apply (Hcond (q, id)). exact E.
Qed.

(** X23.  A canvas made from a grid has no model: the methods that draw
    cells throw on it, whatever their arguments, while [drawField] without
    a grid argument draws the grid the canvas was made from.  On a canvas
    made from a model, that grid is the grid of the model. *)
Theorem grid_canvas_methods (g : Grid.t) (m : Model.t) (oz : option Z)
    (ow : option (Z * Z)) :
  let gc : Canvas Ctx := new_Canvas (OfGrid g) oz ow in
  let mc : Canvas Ctx := new_Canvas (OfModel m) oz ow in
  (forall kind c, drawCells kind c gc = Throw no_model)
  /\ (forall kind c, drawCellBorders kind c gc = Throw no_model)
  /\ (forall kind c,
        drawOnCellBorders kind (option_map Hex c) gc = Throw no_model)
  /\ (forall kind A colf, drawActivityValues kind A colf gc = Throw no_model)
  /\ (forall c, drawField None c gc = drawField (Some g) c gc)
  /\ (forall fuel n c,
        drawFieldContour fuel None n c gc
        = drawFieldContour fuel (Some g) n c gc)
  /\ (forall c, drawField None c mc = drawField (Some (Model.grid m)) c mc)
  /\ (forall kind c, exists st', drawCells kind c mc = Normal st')
  /\ (forall kind c, exists st', drawCellBorders kind c mc = Normal st').
Proof.
  intros gc mc. repeat split.
  - intros kind [[s|f]|]; reflexivity.
  - intros kind [s|]; reflexivity.
  - intros kind c; eexists; unfold drawCells;
      destruct c as [[s|f]|]; reflexivity.
  - intros kind c; eexists; reflexivity.
Qed.

(** X24.  Every drawing method starts from the bytes it reads from the
    drawing context: stores made to the byte array by [pxfi], [pxfir] or
    the line helpers and not put back with [putImageData] are lost at the
    next call of a drawing method. *)
Theorem stores_not_put_back (st : Canvas Ctx) (f : list Z -> list Z)
    (p : coord) (alpha : num) :
  (forall l c, drawPixelSet l c (px_update f st) = drawPixelSet l c st)
  /\ (forall kind c, drawCells kind c (px_update f st) = drawCells kind c st)
  /\ (forall kind c,
        drawCellBorders kind c (px_update f st) = drawCellBorders kind c st)
  /\ (forall kind c,
        drawOnCellBorders kind c (px_update f st)
        = drawOnCellBorders kind c st)
  /\ (forall kind A colf,
        drawActivityValues kind A colf (px_update f st)
        = drawActivityValues kind A colf st)
  /\ (forall cc c, drawField cc c (px_update f st) = drawField cc c st)
  /\ (forall fuel cc n c,
        drawFieldContour fuel cc n c (px_update f st)
        = drawFieldContour fuel cc n c st)
  /\ (forall l c, drawPixelSet l c (pxfi p alpha st) = drawPixelSet l c st)
  /\ (forall l c, drawPixelSet l c (pxfir p st) = drawPixelSet l c st)
  /\ (forall l c,
        drawPixelSet l c (pxdrawl p (pxdrawr p (pxdrawd p (pxdrawu p st))))
        = drawPixelSet l c st).
Proof.
  assert (forall l c g, drawPixelSet l c (px_update g st)
                        = drawPixelSet l c st) as Hset.
  { intros l c g. unfold drawPixelSet. destruct c as [[s|h]|]; reflexivity. }
  split; [intros l c; apply Hset|].
  split; [intros kind c; unfold drawCells;
          destruct c as [[s|h]|]; reflexivity|].
  split; [reflexivity|].
  split; [intros kind c; unfold drawOnCellBorders;
          destruct c as [[s|h]|]; reflexivity|].
  split; [reflexivity|].
  split; [reflexivity|].
  split; [reflexivity|].
  split; [intros l c; rewrite pxfi_px; apply Hset|].
  split.
  { intros l c. pose proof (pxfir_px p st (fun b => b)) as E.
    rewrite px_update_id in E. rewrite E. apply Hset. }
  intros l c.
  pose proof (pxdrawu_px p st (fun b => b)) as E.
  rewrite px_update_id in E. rewrite E.
  rewrite pxdrawd_px, px_update_compose, pxdrawr_px, px_update_compose,
    pxdrawl_px, px_update_compose.
  apply Hset.
Qed.

(** *** Cell borders *)

(** X25.  [drawCellBorders] writes nothing but the line colour: each byte
    of the buffer it puts back is the byte it read or the channel of the
    colour for that position, with [255] for alpha, and the buffer keeps
    its length.  When no listed border pixel is of the kind, the buffer it
    puts back is the one it read. *)
Theorem drawCellBorders_bytes (st : Canvas Ctx) (m : Model.t) (kind : Z)
    (c : option string) :
  C st = Some m ->
  let st1 := getImageData (col (or_black c) st) in
  exists st',
    drawCellBorders kind c st = Normal st'
    /\ length (px st') = length (px st1)
    /\ (forall n : nat,
          px st' !! n = px st1 !! n
          \/ px st' !! n
             = Some (ToUint8Clamp
                 (channel (parseInt16 (substr (or_black c) 0 2))
                    (parseInt16 (substr (or_black c) 2 2))
                    (parseInt16 (substr (or_black c) 4 2))
                    (of_Z 255) (Z.of_nat n mod 4))))
    /\ ((forall x, In x (Model.cellBorderPixels m) ->
           0 <= kind /\ Model.cellKind m x.2 <> kind) ->
        px st' = px st1).
Proof.
  intros HC st1.
  pose proof (drawCellBorders_px kind c st m HC) as Hrun.
  cbv zeta in Hrun. fold st1 in Hrun.
  eexists. split; [exact Hrun|].
  change (px (putImageData (px_update ?F st1))) with (F (px st1)).
  split; [apply apply_writes_length|]. split.
  - intros n.
    rewrite (apply_writes_rgba_lookup (col_r st1) (col_g st1) (col_b st1)).
    + destruct (existsb _ _); [|left; reflexivity].
      destruct (decide (n < length (px st1))%nat) as [Hlt|Hge];
        [right; reflexivity|].
      left. symmetry. apply lookup_ge_None. lia.
    + apply Forall_flat_map_intro. intros x. apply border_writes_rgba.
  - intros Hnone.
    assert (forall L : list (coord * Z),
              (forall x, In x L ->
                 0 <= kind /\ Model.cellKind m x.2 <> kind) ->
              flat_map (fun x : coord * Z =>
                border_writes m kind (zoom st) (width st)
                  (col_r st1) (col_g st1) (col_b st1) (p2pdraw x.1 st) x.2)
                L = []) as Hempty.
    { induction L as [|x L IH]; intros HL; [reflexivity|].
      cbn [flat_map]. rewrite IH by (intros y Hy; apply HL; right; exact Hy).
      destruct (HL x (or_introl eq_refl)) as [Hk Hne].
      unfold border_writes.
      destruct (Z.ltb_spec kind 0); [lia|].
      destruct (Z.eqb_spec (Model.cellKind m x.2) kind); [contradiction|].
      reflexivity. }
    rewrite (Hempty _ Hnone). reflexivity.
Qed.

End ExtraFacts.

(** ** The further properties on concrete canvases *)

(** The canvas of the two cells, its buffer read: 12 by 6 pixels at zoom
    2, that is 288 bytes. *)
Lemma two_cells_buffer (hex : string) :
  buffer_sized (getImageData (col hex two_cells_canvas)).
Proof. unfold buffer_sized. vm_compute. reflexivity. Qed.

(** A half-transparent write to the pixel [(1, 0)]: the red byte of the
    last pixel of its block. *)
Lemma pxfi_paints_block_witness :
  let st := getImageData (col "FF0000" two_cells_canvas) in
  0 < zoom st /\ on_canvas st (1, 0) /\ buffer_sized st
  /\ 0 <= 1 < zoom st /\ 0 <= 0 < 4
  /\ px (pxfi (1, 0) (Fin (1 / 2)) st)
       !! Z.to_nat ((zoom st * 0 * (zoom st * width st) + zoom st * 1) * 4
                    + 4 * 1 + 4 * (zoom st * width st) * 1 + 0)
     = Some (ToUint8Clamp
         (channel (col_r st) (col_g st) (col_b st)
            (mul (Fin (1 / 2)) (of_Z 255)) 0)).
Proof.
  intros st.
  assert (0 < zoom st) as H1 by reflexivity.
  assert (on_canvas st (1, 0)) as H2 by (unfold on_canvas; simpl; lia).
  assert (buffer_sized st) as H3 by apply two_cells_buffer.
  assert (0 <= 1 < zoom st) as H4 by (split; [lia | reflexivity]).
  assert (0 <= 0 < 4) as H5 by lia.
  split; [exact H1|]. split; [exact H2|]. split; [exact H3|].
  split; [exact H4|]. split; [exact H5|].
  exact (pxfi_paints_block st (1, 0) (Fin (1 / 2)) 1 1 0 H1 H2 H3 H4 H4 H5).
Defined.

(** A write to the pixel [(1, 0)] leaves the first byte of the block of
    the pixel [(0, 0)] as it was. *)
Lemma pxfi_other_pixel_witness :
  let st := getImageData (col "FF0000" two_cells_canvas) in
  0 < zoom st /\ 0 <= 0 < width st /\ 0 <= 1 < width st
  /\ (0, 0) <> (1, 0)
  /\ in_block (zoom st) (width st) (0, 0) (Z.of_nat 0)
  /\ px (pxfi (1, 0) (Fin 1) st) !! 0%nat = px st !! 0%nat.
Proof.
  intros st.
  assert (0 < zoom st) as H1 by reflexivity.
  assert (0 <= 0 < width st) as H2 by (split; [lia | reflexivity]).
  assert (0 <= 1 < width st) as H3 by (split; [lia | reflexivity]).
  assert ((0, 0) <> (1, 0)) as H4 by discriminate.
  assert (in_block (zoom st) (width st) (0, 0) (Z.of_nat 0)) as H5.
  { exists 0, 0, 0. repeat split; try lia; reflexivity. }
  split; [exact H1|]. split; [exact H2|]. split; [exact H3|].
  split; [exact H4|]. split; [exact H5|].
  exact (pxfi_other_pixel st (0, 0) (1, 0) (Fin 1) 0 H1 H2 H3 H4 H5).
Defined.

(** The line below the pixel [(1, 2)] of the last row of the canvas. *)
Lemma pxdrawd_last_row_witness :
  let st := getImageData (col "000000" two_cells_canvas) in
  0 < zoom st /\ 0 < width st /\ 0 <= 1 /\ buffer_sized st
  /\ pxdrawd (1, height st - 1) st = st.
Proof.
  intros st.
  assert (0 < zoom st) as H1 by reflexivity.
  assert (0 < width st) as H2 by reflexivity.
  assert (0 <= 1) as H3 by lia.
  assert (buffer_sized st) as H4 by apply two_cells_buffer.
  split; [exact H1|]. split; [exact H2|]. split; [exact H3|].
  split; [exact H4|].
  exact (pxdrawd_last_row st 1 H1 H2 H3 H4).
Defined.

(** The pixel [(1, 3)], one row below the canvas of three rows. *)
Lemma pxfi_off_canvas_witness :
  let st := getImageData (col "000000" two_cells_canvas) in
  buffer_sized st /\ 0 <= 1 < width st
  /\ (3 < 0 \/ height st <= 3)
  /\ pxfi (1, 3) (Fin 1) st = st.
Proof.
  intros st.
  assert (buffer_sized st) as H1 by apply two_cells_buffer.
  assert (0 <= 1 < width st) as H2 by (split; [lia | reflexivity]).
  assert (3 < 0 \/ height st <= 3) as H3 by (right; discriminate).
  split; [exact H1|]. split; [exact H2|]. split; [exact H3|].
  exact (pxfi_off_canvas st (1, 3) (Fin 1) H1 H2 H3).
Defined.

(** Two pixels, listed in two orders and one of them twice. *)
Lemma drawPixelSet_set_witness :
  (forall p, In p [(1, 0); (2, 0); (1, 0)] <-> In p [(2, 0); (1, 0)])
  /\ drawPixelSet [(1, 0); (2, 0); (1, 0)] (Some (Hex "FF0000"))
       two_cells_canvas
     = drawPixelSet [(2, 0); (1, 0)] (Some (Hex "FF0000")) two_cells_canvas.
Proof.
  assert (forall p : coord,
            In p [(1, 0); (2, 0); (1, 0)] <-> In p [(2, 0); (1, 0)]) as H1
    by (intros p; simpl; tauto).
  split; [exact H1|].
  exact (drawPixelSet_set two_cells_canvas _ _ (Some (Hex "FF0000")) H1).
Defined.

(** The cells of kind 1 of the two cells, in green. *)
Lemma drawCells_as_pixel_set_witness :
  C two_cells_canvas = Some two_cells
  /\ (forall f, Some (Hex "00FF00") <> Some (ByCell f))
  /\ drawCells 1 (Some (Hex "00FF00")) two_cells_canvas
     = Normal (drawPixelSet (pixels_of_kind two_cells 1)
                 (Some (Hex "00FF00")) two_cells_canvas).
Proof.
  assert (C two_cells_canvas = Some two_cells) as H1 by reflexivity.
  assert (forall f, Some (Hex "00FF00") <> Some (ByCell f)) as H2
    by discriminate.
  split; [exact H1|]. split; [exact H2|].
  exact (drawCells_as_pixel_set two_cells_canvas two_cells 1
           (Some (Hex "00FF00")) H1 H2).
Defined.

(** Cell 1 in red and every other cell in blue: the blue byte of the
    pixel [(3, 1)] of cell 2. *)
Lemma drawCells_cell_color_witness :
  let st := two_cells_canvas in
  let f := fun cid : Z => if cid =? 1 then "FF0000"%string
                          else "0000FF"%string in
  C st = Some two_cells
  /\ 0 < zoom st /\ on_canvas st (3, 1) /\ buffer_sized (getImageData st)
  /\ (forall e q, In e (Model.PixelsByCell two_cells) -> In q e.2 ->
        0 <= q.1 < width st)
  /\ In (2, [(3, 0); (3, 1); (3, 2); (4, 1)]) (Model.PixelsByCell two_cells)
  /\ In (3, 1) [(3, 0); (3, 1); (3, 2); (4, 1)]
  /\ (1 < 0 \/ Model.cellKind two_cells 2 = 1)
  /\ (forall cid' ps', In (cid', ps') (Model.PixelsByCell two_cells) ->
        In (3, 1) ps' -> f cid' = f 2)
  /\ 0 <= 0 < zoom st /\ 0 <= 2 < 4
  /\ exists st',
       drawCells 1 (Some (ByCell f)) st = Normal st'
       /\ px st'
            !! Z.to_nat ((zoom st * 1 * (zoom st * width st)
                          + zoom st * 3) * 4
                         + 4 * 0 + 4 * (zoom st * width st) * 0 + 2)
          = Some (ToUint8Clamp
              (channel (parseInt16 (substr (f 2) 0 2))
                 (parseInt16 (substr (f 2) 2 2))
                 (parseInt16 (substr (f 2) 4 2))
                 (mul (of_Z 1) (of_Z 255)) 2)).
Proof.
  intros st f.
  assert (C st = Some two_cells) as H1 by reflexivity.
  assert (0 < zoom st) as H2 by reflexivity.
  assert (on_canvas st (3, 1)) as H3 by (unfold on_canvas; simpl; lia).
  assert (buffer_sized (getImageData st)) as H4
    by (unfold buffer_sized; vm_compute; reflexivity).
  assert (forall e q, In e (Model.PixelsByCell two_cells) -> In q e.2 ->
            0 <= q.1 < width st) as H5.
  { intros e q [<- | [<- | []]]; simpl; intros Hq;
      repeat (destruct Hq as [<- | Hq]; [simpl; lia|]); destruct Hq. }
  assert (In (2, [(3, 0); (3, 1); (3, 2); (4, 1)])
            (Model.PixelsByCell two_cells)) as H6
    by (right; left; reflexivity).
  assert (In (3, 1) [(3, 0); (3, 1); (3, 2); (4, 1)]) as H7
    by (right; left; reflexivity).
  assert (1 < 0 \/ Model.cellKind two_cells 2 = 1) as H8
    by (right; reflexivity).
  assert (forall cid' ps', In (cid', ps') (Model.PixelsByCell two_cells) ->
            In (3, 1) ps' -> f cid' = f 2) as H9.
  { intros cid' ps' [E | [E | []]]; injection E as <- <-; intros Hin.
    - destruct Hin as [E | []]. discriminate E.
    - reflexivity. }
  assert (0 <= 0 < zoom st) as H10 by (split; [lia | reflexivity]).
  assert (0 <= 2 < 4) as H11 by lia.
  split; [exact H1|]. split; [exact H2|]. split; [exact H3|].
  split; [exact H4|]. split; [exact H5|]. split; [exact H6|].
  split; [exact H7|]. split; [exact H8|]. split; [exact H9|].
  split; [exact H10|]. split; [exact H11|].
  exact (drawCells_cell_color st two_cells 1 f 2
           [(3, 0); (3, 1); (3, 2); (4, 1)] (3, 1) 0 0 2
           H1 H2 H3 H4 H5 H6 H7 H8 H9 H10 H10 H11).
Defined.

(** The field of the values [0] and [10]: the cell of value [0] gets a
    negative alpha and is stored fully transparent. *)
Lemma drawField_alpha_witness :
  in_grid two_values_field (1, 0)
  /\ Grid.pixt two_values_field (1, 0) = Fin 10
  /\ (9 / 10 < 10)%R
  /\ (forall q, in_grid two_values_field q ->
        exists u, Grid.pixt two_values_field q = Fin u /\ (0 <= u <= 10)%R)
  /\ in_grid two_values_field (0, 0)
  /\ Grid.pixt two_values_field (0, 0) = Fin 0
  /\ In ((0, 0), Fin (ln (1 / 10 + 0) / ln (1 / 10 + 10)))
       (drawField_calls two_values_field)
  /\ ToUint8Clamp
       (mul (Fin (ln (1 / 10 + 0) / ln (1 / 10 + 10))) (of_Z 255)) = 0.
Proof.
  assert (in_grid two_values_field (1, 0)) as H1
    by (unfold in_grid; simpl; lia).
  assert (Grid.pixt two_values_field (1, 0) = Fin 10) as H2 by reflexivity.
  assert (9 / 10 < 10)%R as H3 by lra.
  assert (in_grid two_values_field (0, 0)) as H5
    by (unfold in_grid; simpl; lia).
  assert (Grid.pixt two_values_field (0, 0) = Fin 0) as H6 by reflexivity.
  destruct (drawField_alpha two_values_field (1, 0) (0, 0) 10 0
              H1 H2 H3 two_values_field_values H5 H6)
    as [Hcall [_ [_ Hzero]]].
  split; [exact H1|]. split; [exact H2|]. split; [exact H3|].
  split; [exact two_values_field_values|].
  split; [exact H5|]. split; [exact H6|]. split; [exact Hcall|].
  apply Hzero. lra.
Defined.

(** The field with the single value [0]. *)
Lemma drawField_faint_field_witness :
  (forall q, in_grid zero_field q ->
     exists v, Grid.pixt zero_field q = Fin v /\ (0 <= v <= 9 / 10)%R)
  /\ field_max zero_field = Fin 0
  /\ (forall p a, In (p, a) (drawField_calls zero_field) ->
        (a = NInf \/ a = NaN)
        /\ ToUint8Clamp (mul a (of_Z 255)) = 0).
Proof.
  assert (forall q, in_grid zero_field q ->
            exists v, Grid.pixt zero_field q = Fin v
                      /\ (0 <= v <= 9 / 10)%R) as H1.
  { intros q _. exists 0%R. split; [reflexivity | lra]. }
  split; [exact H1|].
  exact (drawField_faint_field zero_field H1).
Defined.

(** The step field with [nsteps = -1]. *)
Lemma drawFieldContour_negative_steps_witness :
  (forall p, exists v, Grid.pixt step_field p = Fin v /\ (0 <= v)%R)
  /\ (-1 < 0)%R
  /\ drawFieldContour 100 (Some step_field) (Some (Fin (-1))) None
       step_canvas = None.
Proof.
  assert (-1 < 0)%R as H2 by lra.
  split; [exact step_value_nonneg|]. split; [exact H2|].
  exact (drawFieldContour_negative_steps step_canvas step_field None (-1)
           100 step_value_nonneg H2).
Defined.

(** The pixel [(2, 1)] of cell 1, of kind 1, with the activity 40 of a
    maximum of 80. *)
Lemma drawActivityValues_gradient_witness :
  let st := activity_canvas in
  let m := activity_model in
  let A := activity_constraint in
  C st = Some m
  /\ 0 < zoom st /\ on_canvas st (2, 1)
  /\ buffer_sized (getImageData (col "FF0000" st))
  /\ In ((2, 1), 1) (Model.cellPixels m)
  /\ (forall x, In x (Model.cellPixels m) -> 0 <= x.1.1 < width st)
  /\ (forall x, In x (Model.cellPixels m) -> x.1 = (2, 1) -> x.2 = 1)
  /\ (Model.cellKind m 1 = 1
      \/ (1 < 0 /\ gtb (MAX_ACT A (Model.cellKind m 1)) (of_Z 0) = true))
  /\ gtb (div (pxact A (Grid.p2i (Model.grid m) (2, 1)))
              (MAX_ACT A (Model.cellKind m 1))) (of_Z 0) = true
  /\ 0 <= 0 < zoom st /\ 0 <= 1 < 4
  /\ exists st',
       drawActivityValues 1 (Some A) None st = Normal st'
       /\ px st'
            !! Z.to_nat ((zoom st * 1 * (zoom st * width st)
                          + zoom st * 2) * 4
                         + 4 * 0 + 4 * (zoom st * width st) * 0 + 1)
          = Some (ToUint8Clamp
              (let rgb :=
                 default default_gradient None
                   (div (pxact A (Grid.p2i (Model.grid m) (2, 1)))
                        (MAX_ACT A (Model.cellKind m 1))) in
               channel rgb.1.1 rgb.1.2 rgb.2 (mul (of_Z 1) (of_Z 255)) 1)).
Proof.
  intros st m A.
  assert (C st = Some m) as H1 by reflexivity.
  assert (0 < zoom st) as H2 by reflexivity.
  assert (on_canvas st (2, 1)) as H3 by (unfold on_canvas; simpl; lia).
  assert (buffer_sized (getImageData (col "FF0000" st))) as H4
    by (unfold buffer_sized; vm_compute; reflexivity).
  assert (In ((2, 1), 1) (Model.cellPixels m)) as H5
    by (left; reflexivity).
  assert (forall x, In x (Model.cellPixels m) -> 0 <= x.1.1 < width st)
    as H6.
  { intros x Hx. simpl in Hx.
    repeat (destruct Hx as [<- | Hx]; [simpl; lia|]). destruct Hx. }
  assert (forall x, In x (Model.cellPixels m) -> x.1 = (2, 1) -> x.2 = 1)
    as H7.
  { intros x Hx. simpl in Hx.
    repeat (destruct Hx as [<- | Hx];
            [simpl; intros E; first [reflexivity | discriminate E]|]).
    destruct Hx. }
  assert (Model.cellKind m 1 = 1
          \/ (1 < 0 /\ gtb (MAX_ACT A (Model.cellKind m 1)) (of_Z 0) = true))
    as H8 by (left; reflexivity).
  assert (gtb (div (pxact A (Grid.p2i (Model.grid m) (2, 1)))
                   (MAX_ACT A (Model.cellKind m 1))) (of_Z 0) = true) as H9.
  { change (ltb (Fin 0) (div (Fin 40) (Fin 80)) = true).
    rewrite div_Fin_pos by lra. apply ltb_Fin_true. lra. }
  assert (0 <= 0 < zoom st) as H10 by (split; [lia | reflexivity]).
  assert (0 <= 1 < 4) as H11 by lia.
  split; [exact H1|]. split; [exact H2|]. split; [exact H3|].
  split; [exact H4|]. split; [exact H5|]. split; [exact H6|].
  split; [exact H7|]. split; [exact H8|]. split; [exact H9|].
  split; [exact H10|]. split; [exact H11|].
  exact (drawActivityValues_gradient st m 1 A None (2, 1) 1 0 0 1
           H1 H2 H3 H4 H5 H6 H7 H8 H9 H10 H10 H11).
Defined.

(** No cell pixel is of kind 0: nothing is painted. *)
Lemma drawActivityValues_frame_witness :
  C activity_canvas = Some activity_model
  /\ exists st',
       drawActivityValues 0 (Some activity_constraint) None activity_canvas
       = Normal st'
       /\ px st' = px (getImageData (col "FF0000" activity_canvas)).
Proof.
  assert (C activity_canvas = Some activity_model) as H1 by reflexivity.
  split; [exact H1|].
  destruct (drawActivityValues_frame activity_canvas activity_model 0
              activity_constraint None H1) as [st' [Hrun [_ Hnone]]].
  exists st'. split; [exact Hrun|]. apply Hnone.
  intros x Hx. simpl in Hx.
  repeat (destruct Hx as [<- | Hx]; [reflexivity|]). destruct Hx.
Defined.

(** A quarter of the maximum: full green. *)
Lemma default_gradient_bytes_witness :
  (0 < 1 / 4)%R
  /\ ToUint8Clamp (default_gradient (Fin (1 / 4))).1.2 = 255
  /\ ToUint8Clamp (default_gradient (Fin (1 / 4))).2 = 0.
Proof.
  assert (0 < 1 / 4)%R as H1 by lra.
  destruct (default_gradient_bytes (1 / 4) H1)
    as [Hblue [_ [_ [Hgreen _]]]].
  split; [exact H1|]. split; [|exact Hblue].
  apply Hgreen. lra.
Defined.

(** The canvas colour of the demonstration page. *)
Lemma col_six_digits_witness :
  hex_digit "e" = Some 14 /\ hex_digit "a" = Some 10
  /\ hex_digit "c" = Some 12 /\ hex_digit "f" = Some 15
  /\ ToUint8Clamp (col_r (col "eaecef" two_cells_canvas)) = 234
  /\ ToUint8Clamp (col_g (col "eaecef" two_cells_canvas)) = 236
  /\ ToUint8Clamp (col_b (col "eaecef" two_cells_canvas)) = 239.
Proof.
  assert (hex_digit "e" = Some 14) as He by reflexivity.
  assert (hex_digit "a" = Some 10) as Ha by reflexivity.
  assert (hex_digit "c" = Some 12) as Hc by reflexivity.
  assert (hex_digit "f" = Some 15) as Hf by reflexivity.
  destruct (col_six_digits two_cells_canvas "e" "a" "e" "c" "e" "f"
              EmptyString 14 10 14 12 14 15 He Ha He Hc He Hf)
    as [_ [_ [_ [Hr [Hg [Hb _]]]]]].
  split; [exact He|]. split; [exact Ha|]. split; [exact Hc|].
  split; [exact Hf|]. split; [exact Hr|]. split; [exact Hg | exact Hb].
Defined.

(** The border pixel [(2, 1)] of the two cells, in black: its alpha
    byte. *)
Lemma drawOnCellBorders_paints_witness :
  let st := two_cells_canvas in
  C st = Some two_cells
  /\ exists st',
       drawOnCellBorders (-1) (Some (Hex "000000")) st = Normal st'
       /\ px st'
            !! Z.to_nat ((zoom st * 1 * (zoom st * width st)
                          + zoom st * 2) * 4
                         + 4 * 0 + 4 * (zoom st * width st) * 0 + 3)
          = Some (ToUint8Clamp
              (channel (parseInt16 (substr "000000" 0 2))
                 (parseInt16 (substr "000000" 2 2))
                 (parseInt16 (substr "000000" 4 2))
                 (mul (of_Z 1) (of_Z 255)) 3)).
Proof.
  intros st.
  assert (C st = Some two_cells) as H1 by reflexivity.
  split; [exact H1|].
  destruct (drawOnCellBorders_paints st two_cells (-1) (Some "000000"%string)
              H1) as [st' [Hrun [Hpaint _]]].
  exists st'. split; [exact Hrun|].
  apply (Hpaint (2, 1) 1 0 0 3).
  - reflexivity.
  - unfold on_canvas; simpl; lia.
  - unfold buffer_sized. vm_compute. reflexivity.
  - left. reflexivity.
  - left. reflexivity.
  - split; [lia | reflexivity].
  - split; [lia | reflexivity].
  - lia.
Defined.

(** No border pixel of the two cells is of kind 0. *)
Lemma drawCellBorders_bytes_witness :
  C two_cells_canvas = Some two_cells
  /\ exists st',
       drawCellBorders 0 None two_cells_canvas = Normal st'
       /\ px st' = px (getImageData (col "000000" two_cells_canvas)).
Proof.
  assert (C two_cells_canvas = Some two_cells) as H1 by reflexivity.
  split; [exact H1|].
  destruct (drawCellBorders_bytes two_cells_canvas two_cells 0 None H1)
    as [st' [Hrun [_ [_ Hnone]]]].
  exists st'. split; [exact Hrun|]. apply Hnone.
  intros x Hx. simpl in Hx.
  repeat (destruct Hx as [<- | Hx]; [split; [lia | discriminate]|]).
  destruct Hx.
Defined.

(** ** The ridge field *)

Lemma ln_tenth : ln (1 / 10) = (- ln 10)%R.
Proof. replace (1 / 10)%R with (/ 10)%R by lra. apply ln_Rinv. lra. Qed.

Lemma ln_ten_pos : (0 < ln 10)%R.
Proof. apply ln_pos. lra. Qed.

Lemma ridge_value_nonneg (p : coord) :
  exists v, ridge_value p = Fin v /\ (0 <= v)%R.
Proof.
  unfold ridge_value.
  destruct (p.1 =? 0); [exists 0%R; split; [reflexivity | lra]|].
  destruct (p.1 =? 1); eexists; (split; [reflexivity | lra]).
Qed.

(** The logarithms of the three values. *)
Lemma ridge_transform (g : Grid.t) :
  Grid.pixt g = ridge_value ->
  transform g (0, 0) = Fin (ln (1 / 10))
  /\ transform g (1, 0) = Fin 0
  /\ transform g (2, 0) = Fin (ln 10).
Proof.
  intros Hg. unfold transform. rewrite Hg.
  change (ridge_value (0, 0)) with (Fin 0).
  change (ridge_value (1, 0)) with (Fin (9 / 10)).
  change (ridge_value (2, 0)) with (Fin (99 / 10)).
  cbn [add]. rewrite !log_Fin by lra.
  replace (1 / 10 + 0)%R with (1 / 10)%R by lra.
  replace (1 / 10 + 9 / 10)%R with 1%R by lra.
  replace (1 / 10 + 99 / 10)%R with 10%R by lra.
  rewrite ln_1. repeat split; reflexivity.
Qed.

Ltac real_tests :=
  unfold gtb;
  repeat first
    [ rewrite ltb_Fin_true by lra | rewrite ltb_Fin_false by lra
    | rewrite geb_Fin_true by lra | rewrite geb_Fin_false by lra ].

Ltac real_abs :=
  repeat first [ rewrite Rabs_right by lra | rewrite Rabs_left by lra ].

Lemma ridge_range (g : Grid.t) :
  Grid.pixt g = ridge_value -> Grid.extents g = (3, 1) ->
  field_range g = (Fin (ln 10), Fin (ln (1 / 10))).
Proof.
  intros Hp He.
  pose proof ln_tenth as Hm. pose proof ln_ten_pos as HL.
  destruct (ridge_transform g Hp) as [T0 [T1 T2]].
  unfold field_range. rewrite He. cbn [fst snd].
  compute_term (for_range 0 3 1). compute_term (for_range 0 1 1).
  cbn [foldl fst snd]. rewrite T0, T1, T2. rewrite log_Fin by lra.
  real_tests. cbn [fst snd]. real_tests. cbn [fst snd]. real_tests.
  reflexivity.
Qed.

(** The level [0] of the run on the ridge, on the canvas whose grid puts
    the three pixels in a row: the pixel in the middle is marked. *)
Lemma ridge_level (cc : Grid.t) :
  Grid.pixt cc = ridge_value -> Grid.extents cc = (3, 1) ->
  let st0 := getImageData (col "FFFF00" ridge_canvas) in
  contour_level cc (Fin (ln 10)) (Fin (ln (1 / 10)))
    (Fin (ln (1 / 10) + (ln 10 + - ln (1 / 10)) / 2)) st0
  = pxfi (1, 0) (Fin (13 / 20)) st0.
Proof.
  intros Hp He st0.
  pose proof ln_tenth as Hm. pose proof ln_ten_pos as HL.
  destruct (ridge_transform cc Hp) as [T0 [T1 T2]].
  unfold contour_level. rewrite He. cbn [fst snd].
  compute_term (for_range 0 3 1). compute_term (for_range 0 1 1).
  match goal with
  | |- foldl (fun s i => foldl (fun s' j => @?B s' i j) s _) _ _ = _ =>
      set (body := B)
  end.
  change (body (body (body st0 0 0) 1 0) 2 0 = pxfi (1, 0) (Fin (13 / 20)) st0).
  assert (body st0 0 0 = st0) as ->.
  { unfold body. rewrite T0. cbn [sub neg add abs mul].
    real_abs. real_tests. reflexivity. }
  assert (body st0 1 0 = pxfi (1, 0) (Fin (13 / 20)) st0) as ->.
  { unfold body. rewrite T1. cbn [sub neg add abs mul].
    real_abs. real_tests.
    change (grid st0) with (plain_grid 3 1 (fun _ => Fin 0)).
    compute_term (Grid.neighNeumanni (plain_grid 3 1 (fun _ => Fin 0))
                    (Grid.p2i (plain_grid 3 1 (fun _ => Fin 0)) (1, 0))).
    assert (crossing (plain_grid 3 1 (fun _ => Fin 0)) cc
              (Fin (ln (1 / 10) + (ln 10 + - ln (1 / 10)) / 2)) [0; 2]
              false false = true) as ->.
    { cbn [crossing].
      change (log (add (Fin (1 / 10))
                (Grid.pixt cc (Grid.i2p (plain_grid 3 1 (fun _ => Fin 0)) 0))))
        with (transform cc (0, 0)).
      change (log (add (Fin (1 / 10))
                (Grid.pixt cc (Grid.i2p (plain_grid 3 1 (fun _ => Fin 0)) 2))))
        with (transform cc (2, 0)).
      rewrite T0, T2. real_tests. reflexivity. }
    rewrite div_Fin_pos by lra. cbn [add].
    match goal with
    | |- pxfi _ (Fin ?x) _ = _ => replace x with (13 / 20)%R; [reflexivity|]
    end.
    rewrite Hm. field. lra. }
  assert (body (pxfi (1, 0) (Fin (13 / 20)) st0) 2 0
          = pxfi (1, 0) (Fin (13 / 20)) st0) as ->.
  { unfold body. rewrite T2. cbn [sub neg add abs mul].
    real_abs. real_tests. reflexivity. }
  reflexivity.
Qed.

(** The run of [drawFieldContour] on the ridge with two levels: the level
    [log(0.1)] marks nothing, the level [0] marks the pixel in the middle,
    and the third value of the loop variable, [log(10)], ends the loop. *)
Lemma ridge_run (cc : Grid.t) :
  Grid.pixt cc = ridge_value -> Grid.extents cc = (3, 1) ->
  drawFieldContour 3 (Some cc) (Some (Fin 2)) None ridge_canvas
  = Some (putImageData
      (pxfi (1, 0) (Fin (13 / 20))
         (getImageData (col "FFFF00" ridge_canvas)))).
Proof.
  intros Hp He.
  pose proof ln_tenth as Hm. pose proof ln_ten_pos as HL.
  unfold drawFieldContour. simpl default.
  rewrite (ridge_range cc Hp He).
  cbn [sub neg add]. rewrite div_Fin_pos by lra.
  cbn [level_loop]. rewrite ltb_Fin_true by lra.
  rewrite contour_level_floor
    by (intros p; rewrite Hp; apply ridge_value_nonneg).
  cbn [add]. rewrite ltb_Fin_true by lra.
  rewrite (ridge_level cc Hp He).
  cbn [add]. rewrite ltb_Fin_false by lra.
  reflexivity.
Qed.

(** The contour rendering of the ridge with its own neighbourhoods, which
    are empty: no pixel is marked. *)
Lemma ridge_own_topology :
  drawContours_spec 3 ridge_field (Some (Fin 2)) None ridge_canvas
  = Some (putImageData (getImageData (col "FFFF00" ridge_canvas))).
Proof.
  pose proof ln_tenth as Hm. pose proof ln_ten_pos as HL.
  unfold drawContours_spec. simpl default.
  rewrite (ridge_range ridge_field eq_refl eq_refl). cbn [fst snd].
  assert (forall M m v (s : Canvas MemoryCanvas.t),
            spec_level ridge_field M m v s = s) as Hlevel.
  { intros M m v s. unfold spec_level. apply foldl_fixed. intros s1 p.
    unfold spec_crossing. cbn [Grid.neighNeumanni ridge_field isolated_grid
      existsb]. rewrite andb_false_r. reflexivity. }
  cbn [sub neg add]. rewrite div_Fin_pos by lra.
  cbn [level_loop]. rewrite !Hlevel. cbn [add].
  rewrite ltb_Fin_true by lra. rewrite ltb_Fin_true by lra.
  rewrite ltb_Fin_false by lra. reflexivity.
Qed.

(** The alpha byte [0.65 * 255], rounded. *)
Lemma ridge_alpha_byte : ToUint8Clamp (mul (Fin (13 / 20)) (of_Z 255)) = 166.
Proof.
  cbn [mul of_Z]. unfold ToUint8Clamp.
  destruct (Rle_dec (13 / 20 * 255) 0); [lra|].
  destruct (Rle_dec 255 (13 / 20 * 255)); [lra|].
  apply (round_half_even_above _ 165). lra.
Qed.

(** The three alpha bytes after the run. *)
Lemma ridge_alphas :
  let st' := putImageData
    (pxfi (1, 0) (Fin (13 / 20)) (getImageData (col "FFFF00" ridge_canvas)))
  in
  alpha_at st' 0 0 = Some 0 /\ alpha_at st' 1 0 = Some 166
  /\ alpha_at st' 2 0 = Some 0.
Proof.
  intros st'. set (st0 := getImageData (col "FFFF00" ridge_canvas)).
  assert (forall n : nat, (n < 4 \/ 8 <= n)%nat ->
            ~ in_block (zoom st0) (width st0) (1, 0) (Z.of_nat n)) as Hout.
  { intros n Hn [a [b [c [Ha [Hb [Hc E]]]]]].
    change (zoom st0) with 1 in *. change (width st0) with 3 in *.
    cbn [fst snd] in E. lia. }
  split; [|split].
  - change (px (pxfi (1, 0) (Fin (13 / 20)) st0) !! 3%nat = Some 0).
    rewrite pxfi_outside by (apply Hout; lia). reflexivity.
  - change (px (pxfi (1, 0) (Fin (13 / 20)) st0) !! Z.to_nat 7 = Some 166).
    rewrite (pxfi_lookup st0 (1, 0) (Fin (13 / 20)) 0 0 3 7);
      [ | reflexivity | split; [lia | reflexivity]
        | split; [lia | reflexivity] | lia | reflexivity | lia
        | vm_compute; lia ].
    change (channel (col_r st0) (col_g st0) (col_b st0)
              (mul (Fin (13 / 20)) (of_Z 255)) 3)
      with (mul (Fin (13 / 20)) (of_Z 255)).
    rewrite ridge_alpha_byte. reflexivity.
  - change (px (pxfi (1, 0) (Fin (13 / 20)) st0) !! 11%nat = Some 0).
    rewrite pxfi_outside by (apply Hout; lia). reflexivity.
Qed.

(** The ridge with its own neighbourhoods and with those of [plain_grid],
    on the canvas whose grid puts the pixels in a row, with two levels:
    the pixel in the middle is marked, as in the rendering on the grid
    that mixes the values of the field with the neighbourhoods of the
    canvas; the rendering of the field with its own, empty, neighbourhoods
    marks nothing. *)
Lemma drawFieldContour_mixes_grids_witness :
  Grid.extents ridge_plain = Grid.extents ridge_field
  /\ (forall p, Grid.pixt ridge_plain p = Grid.pixt ridge_field p)
  /\ drawFieldContour 3 (Some ridge_plain) (Some (Fin 2)) None ridge_canvas
     = drawFieldContour 3 (Some ridge_field) (Some (Fin 2)) None ridge_canvas
  /\ (exists st',
        drawFieldContour 3 (Some ridge_field) (Some (Fin 2)) None
          ridge_canvas = Some st'
        /\ drawContours_spec 3 (mix_grid (grid ridge_canvas) ridge_field)
             (Some (Fin 2)) None ridge_canvas = Some st'
        /\ alpha_at st' 0 0 = Some 0 /\ alpha_at st' 1 0 = Some 166
        /\ alpha_at st' 2 0 = Some 0)
  /\ (exists st'',
        drawContours_spec 3 ridge_field (Some (Fin 2)) None ridge_canvas
        = Some st''
        /\ alpha_at st'' 1 0 = Some 0).
Proof.
  assert (Grid.extents ridge_plain = Grid.extents ridge_field) as H1
    by reflexivity.
  assert (forall p, Grid.pixt ridge_plain p = Grid.pixt ridge_field p) as H2
    by (intros p; reflexivity).
  destruct (drawFieldContour_mixes_grids ridge_canvas ridge_field
              ridge_plain 3 (Some (Fin 2)) None H1 H2) as [Hmix Hsame].
  split; [exact H1|]. split; [exact H2|]. split; [exact Hsame|]. split.
  - eexists. split; [exact (ridge_run ridge_field eq_refl eq_refl)|].
    split.
    + rewrite <- Hmix. exact (ridge_run ridge_field eq_refl eq_refl).
    + exact ridge_alphas.
  - eexists. split; [exact ridge_own_topology|]. reflexivity.
Defined.

(** The field of the values [0] and [10] on the canvas of 12 by 6 pixels:
    the block of the cell [(1, 0)], which holds the largest value. *)
Lemma drawField_max_opaque_witness :
  let st := two_cells_canvas in
  in_grid two_values_field (1, 0)
  /\ Grid.pixt two_values_field (1, 0) = Fin 10
  /\ (9 / 10 < 10)%R
  /\ (forall q, in_grid two_values_field q ->
        exists v, Grid.pixt two_values_field q = Fin v /\ (0 <= v <= 10)%R)
  /\ 0 < zoom st
  /\ (Grid.extents two_values_field).1 <= width st
  /\ (Grid.extents two_values_field).2 <= height st
  /\ buffer_sized (getImageData (col (default "0000FF"%string None) st))
  /\ 0 <= 1 < zoom st /\ 0 <= 2 < 4
  /\ In ((1, 0), Fin 1) (drawField_calls two_values_field)
  /\ px (drawField (Some two_values_field) None st)
       !! Z.to_nat ((zoom st * 0 * (zoom st * width st) + zoom st * 1) * 4
                    + 4 * 1 + 4 * (zoom st * width st) * 1 + 2)
     = Some (ToUint8Clamp
         (channel (parseInt16 (substr "0000FF" 0 2))
            (parseInt16 (substr "0000FF" 2 2))
            (parseInt16 (substr "0000FF" 4 2))
            (mul (Fin 1) (of_Z 255)) 2))
  /\ px (drawField (Some two_values_field) None st)
       !! Z.to_nat ((zoom st * 0 * (zoom st * width st) + zoom st * 1) * 4
                    + 4 * 1 + 4 * (zoom st * width st) * 1 + 3)
     = Some 255.
Proof.
  intros st.
  assert (in_grid two_values_field (1, 0)) as H1
    by (unfold in_grid; simpl; lia).
  assert (Grid.pixt two_values_field (1, 0) = Fin 10) as H2 by reflexivity.
  assert (9 / 10 < 10)%R as H3 by lra.
  assert (0 < zoom st) as H5 by reflexivity.
  assert ((Grid.extents two_values_field).1 <= width st) as H6
    by discriminate.
  assert ((Grid.extents two_values_field).2 <= height st) as H7
    by discriminate.
  assert (buffer_sized (getImageData (col (default "0000FF"%string None) st)))
    as H8 by apply two_cells_buffer.
  assert (0 <= 1 < zoom st) as H9 by (split; [lia | reflexivity]).
  assert (0 <= 2 < 4) as H10 by lia.
  destruct (drawField_max_opaque st two_values_field None (1, 0) 10 1 1 2
              H1 H2 H3 two_values_field_values H5 H6 H7 H8 H9 H9 H10)
    as [Hcall [_ [_ [Hblue Halpha]]]].
  split; [exact H1|]. split; [exact H2|]. split; [exact H3|].
  split; [exact two_values_field_values|].
  split; [exact H5|]. split; [exact H6|]. split; [exact H7|].
  split; [exact H8|]. split; [exact H9|]. split; [exact H10|].
  split; [exact Hcall|]. split; [exact Hblue | exact Halpha].
Defined.

(** ** The activity of two providers *)

(** The red byte of the gradient for the ratios [40 / 80] and [4 / 20]. *)
Lemma gradient_red_half :
  ToUint8Clamp (default_gradient (div (of_Z 40) (of_Z 80))).1.1 = 255.
Proof.
  unfold of_Z. rewrite div_Fin_pos by lra.
  unfold default_gradient, gtb. rewrite ltb_Fin_false by lra.
  cbn [fst snd mul of_Z]. unfold ToUint8Clamp.
  destruct (Rle_dec _ 0); [lra|]. destruct (Rle_dec 255 _); [reflexivity|lra].
Qed.

Lemma gradient_red_fifth :
  ToUint8Clamp (default_gradient (div (of_Z 4) (of_Z 20))).1.1 = 102.
Proof.
  unfold of_Z. rewrite div_Fin_pos by lra.
  unfold default_gradient, gtb. rewrite ltb_Fin_false by lra.
  cbn [fst snd mul of_Z].
  replace (2 * (4 / 20) * 255)%R with (IZR 102) by lra.
  apply (ToUint8Clamp_of_Z 102).
Qed.

(** The red byte of the first buffer pixel of the cell pixel [(2, 1)]
    after [drawActivityValues( 1, A )] on the canvas of the two cells,
    for a constraint [A] that gives the pixel a positive ratio. *)
Lemma activity_canvas_red (A : constraint) :
  gtb (div (pxact A (Grid.p2i (Model.grid activity_model) (2, 1)))
           (MAX_ACT A 1)) (of_Z 0) = true ->
  exists st',
    drawActivityValues 1 (Some A) None activity_canvas = Normal st'
    /\ px st' !! Z.to_nat 112
       = Some (ToUint8Clamp
           (default_gradient
              (div (pxact A (Grid.p2i (Model.grid activity_model) (2, 1)))
                   (MAX_ACT A 1))).1.1).
Proof.
  intros Hact.
  apply (drawActivityValues_pixel activity_canvas activity_model 1 A None
           (2, 1) 1 0 0 0).
  - reflexivity.
  - reflexivity.
  - unfold on_canvas; simpl; lia.
  - unfold buffer_sized; vm_compute; reflexivity.
  - left; reflexivity.
  - intros x Hx. simpl in Hx.
    repeat (destruct Hx as [<- | Hx]; [simpl; lia|]). destruct Hx.
  - intros x Hx. simpl in Hx.
    repeat (destruct Hx as [<- | Hx];
            [simpl; intros E; first [reflexivity | discriminate E]|]).
    destruct Hx.
  - left; reflexivity.
  - exact Hact.
  - split; [lia | reflexivity].
  - split; [lia | reflexivity].
  - lia.
Qed.

(** A model whose second constraint is the first to hold activity values
    and whose third holds other ones: the pixel [(2, 1)] has the ratio
    [40 / 80] with the second and [4 / 20] with the third, and is painted
    with the red byte of the second. *)
Lemma drawActivityValues_provider_witness :
  C activity_canvas = Some activity_model
  /\ Model.soft_constraints activity_model
     = [volume_constraint] ++ activity_constraint :: [multi_background]
  /\ (forall c', In c' [volume_constraint] -> is_activity c' = false)
  /\ is_activity activity_constraint = true
  /\ is_activity multi_background = true
  /\ drawActivityValues 1 None None activity_canvas
     = drawActivityValues 1 (Some activity_constraint) None activity_canvas
  /\ (exists st',
        drawActivityValues 1 None None activity_canvas = Normal st'
        /\ px st' !! Z.to_nat 112 = Some 255)
  /\ (exists st'',
        drawActivityValues 1 (Some multi_background) None activity_canvas
        = Normal st''
        /\ px st'' !! Z.to_nat 112 = Some 102).
Proof.
  assert (C activity_canvas = Some activity_model) as H0 by reflexivity.
  assert (Model.soft_constraints activity_model
          = [volume_constraint] ++ activity_constraint :: [multi_background])
    as H1 by reflexivity.
  assert (forall c', In c' [volume_constraint] -> is_activity c' = false)
    as H2 by (intros c' [<-|[]]; reflexivity).
  assert (is_activity activity_constraint = true) as H3 by reflexivity.
  assert (is_activity multi_background = true) as H4 by reflexivity.
  destruct (proj2 (drawActivityValues_provider activity_canvas
                     activity_model 1 None H0)
              [volume_constraint] activity_constraint [multi_background]
              H1 H2 H3) as [_ Hfirst].
  split; [exact H0|]. split; [exact H1|]. split; [exact H2|].
  split; [exact H3|]. split; [exact H4|]. split; [exact Hfirst|]. split.
  - destruct (activity_canvas_red activity_constraint) as [st' [Hrun Hpx]].
    { change (ltb (Fin 0) (div (Fin 40) (Fin 80)) = true).
      rewrite div_Fin_pos by lra. apply ltb_Fin_true. lra. }
    exists st'. split; [rewrite Hfirst; exact Hrun|].
    rewrite Hpx. f_equal. exact gradient_red_half.
  - destruct (activity_canvas_red multi_background) as [st' [Hrun Hpx]].
    { change (ltb (Fin 0) (div (Fin 4) (Fin 20)) = true).
      rewrite div_Fin_pos by lra. apply ltb_Fin_true. lra. }
    exists st'. split; [exact Hrun|].
    rewrite Hpx. f_equal. exact gradient_red_fifth.
Defined.
